(** * Drone deconfliction: trajectories, conflict detectors and conflict sets

    A shallow embedding of [conflict_checker/spatial.py],
    [conflict_checker/temporal.py] and [conflict_checker/utils.py], with the
    demonstration trajectories of [main.py].

    Numbers are Python floats, that is IEEE 754 binary64 values: they are
    modelled by Rocq's primitive [float], whose operations are the same
    correctly rounded binary64 operations.  The one operation of the code
    that IEEE 754 does not determine is the square [v ** 2], which Python
    and NumPy hand to the C library's [pow]: that function is a parameter
    of the development ([Libm]).  Results that may be an exception are
    modelled by [result]; Python's [None] is [option]'s [None]. *)

From Stdlib Require Import String.
From Stdlib Require Import ZArith List Floats Bool Lia Permutation Sorted.
Import ListNotations.

Set Implicit Arguments.

(* ================================================================== *)
(** * Exceptions *)
(* ================================================================== *)

Inductive exn : Type :=
| ValueError
| KeyError
| IndexError
| TypeError
| ZeroDivisionError
| OverflowError
| AttributeError.

Inductive result (A : Type) : Type :=
| Ok (a : A)
| Raise (e : exn).

Arguments Ok {A} a.
Arguments Raise {A} e.

Definition bind {A B : Type} (c : result A) (k : A -> result B) : result B :=
  match c with
  | Ok a => k a
  | Raise e => Raise e
  end.

Declare Scope py_scope.
Delimit Scope py_scope with py.
Notation "x <- c ;; k" := (bind c (fun x => k))
  (at level 61, c at next level, right associativity) : py_scope.
Notation "' p <- c ;; k" := (bind c (fun v => let p := v in k))
  (at level 61, p pattern, c at next level, right associativity) : py_scope.

Local Open Scope py_scope.

(** A loop whose body appends to one output list: the body returns what it
    appends, an exception in the body leaves the loop. *)
Fixpoint for_each {A B : Type} (l : list A) (body : A -> result (list B))
  : result (list B) :=
  match l with
  | [] => Ok []
  | a :: r =>
      out <- body a ;;
      rest <- for_each r body ;;
      Ok (out ++ rest)
  end.

(** [[f(v) for v in l]] for an [f] that may raise. *)
Fixpoint map_result {A B : Type} (f : A -> result B) (l : list A)
  : result (list B) :=
  match l with
  | [] => Ok []
  | a :: r =>
      b <- f a ;;
      rest <- map_result f r ;;
      Ok (b :: rest)
  end.

(** [range(lo, hi)] over indices. *)
Definition range (lo hi : nat) : list nat := seq lo (hi - lo).

(** [l[i]] for a list. *)
Definition getitem {A : Type} (l : list A) (i : nat) : result A :=
  match nth_error l i with
  | Some a => Ok a
  | None => Raise IndexError
  end.

(* ================================================================== *)
(** * Python and NumPy numbers *)
(* ================================================================== *)

(** The C library's [pow] at the exponent two, [pow(v, 2.0)].  A library
    need not round it correctly: its value can be one unit in the last place
    away from the product [v * v].  Nothing is assumed about it. *)
Class Libm : Type := { pow2 : float -> float }.

Module Py.

Local Open Scope float_scope.

(** The two types of float that reach the arithmetic of the code: Python's
    own [float], which the waypoints of a mission hold, and NumPy's
    [float64], which [np.linspace] yields and which every sum, product or
    quotient with a [float64] operand is. *)
Inductive number : Type :=
| python_float
| numpy_float64.

(** [v ** 2].  On a [float64] it is the library's [pow] and nothing is
    raised.  On a Python [float], CPython's [float_pow] answers NaN, the
    infinities, the zeros and [1] itself, calls the library on [abs v]
    otherwise, and raises when the library's result is an infinity. *)
Definition square {libm : Libm} (type : number) (v : float) : result float :=
  match type with
  | numpy_float64 => Ok (pow2 v)
  | python_float =>
      if is_nan v then Ok v
      else if is_infinity v then Ok infinity
      else if v =? 0 then Ok 0
      else
        let iv := abs v in
        if iv =? 1 then Ok 1
        else
          let ix := pow2 iv in
          if is_infinity ix then Raise OverflowError else Ok ix
  end.

(** The float nearest to an integer, ties to even: [float(n)], and the
    entries of [np.arange(0, num)] as float64. *)
Definition float_of_Z (n : Z) : float :=
  SF2Prim (binary_normalize prec emax n 0 false).

(** [a / b] on Python floats. *)
Definition truediv (a b : float) : result float :=
  if b =? 0 then Raise ZeroDivisionError else Ok (a / b).

(** [int(x)]: truncation towards zero; NaN and the infinities raise. *)
Definition int (x : float) : result Z :=
  match Prim2SF x with
  | S754_nan => Raise ValueError
  | S754_infinity _ => Raise OverflowError
  | S754_zero _ => Ok 0%Z
  | S754_finite s m e =>
      let a := Z.shiftl (Z.pos m) e in
      Ok (if s then (- a)%Z else a)
  end.

(** The integer nearest to [q / d], ties to even ([0 < d]). *)
Definition round_half_even (q d : Z) : Z :=
  let k := (q / d)%Z in
  let r := (q mod d)%Z in
  match (2 * r ?= d)%Z with
  | Lt => k
  | Gt => (k + 1)%Z
  | Eq => if Z.even k then k else (k + 1)%Z
  end.

(** [round(x, 1)]: the exact binary value of [x] is rounded to one decimal
    digit, ties to even, and the decimal result is converted back to the
    nearest float.  Integral values, zeros, infinities and NaN are returned
    unchanged. *)
Definition round1 (x : float) : float :=
  match Prim2SF x with
  | S754_finite s m e =>
      if (0 <=? e)%Z then x
      else
        match round_half_even (Z.pos m * 10) (2 ^ (- e)) with
        | Z.pos k =>
            SF2Prim (SFdiv prec emax (S754_finite s k 0) (S754_finite false 10 0))
        | _ => if s then neg_zero else zero
        end
  | _ => x
  end.

(** [min(a, b)]: the second argument replaces the first only when it is
    strictly smaller. *)
Definition min2 (a b : float) : float := if b <? a then b else a.

(** [max(l)] and [min(l)] over a list: the running extremum is replaced by a
    strictly greater (smaller) item; the empty list raises. *)
Definition max (l : list float) : result float :=
  match l with
  | [] => Raise ValueError
  | a :: r => Ok (fold_left (fun cur item => if cur <? item then item else cur) r a)
  end.

Definition min (l : list float) : result float :=
  match l with
  | [] => Raise ValueError
  | a :: r => Ok (fold_left (fun cur item => if item <? cur then item else cur) r a)
  end.

(** [set(l)] for floats, as the list of its members in order of first
    insertion: a value is a member when it compares [==] to one already
    there.  NaN is [==] to nothing; that CPython also takes one NaN object
    for a member it already holds is not modelled (floats here are values
    without identity). *)
Definition set_add (seen : list float) (v : float) : list float :=
  if existsb (fun u => u =? v) seen then seen else seen ++ [v].

Definition set (l : list float) : list float := fold_left set_add l [].

(** [sorted([a, b])] on strings. *)
Definition sorted2 (a b : string) : string * string :=
  if String.ltb b a then (b, a) else (a, b).

End Py.

Module Np.

Local Open Scope float_scope.

(** [np.sqrt] on a float64. *)
Definition sqrt (v : float) : float := PrimFloat.sqrt v.

(** [y[-1] = stop]. *)
Fixpoint set_last (y : list float) (stop : float) : list float :=
  match y with
  | [] => []
  | [_] => [stop]
  | v :: r => v :: set_last r stop
  end.

(** [np.linspace(start, stop, num)] on float scalars, as NumPy computes it:
    [arange(0, num) * step + start] with [step = (stop - start) / (num - 1)],
    the quotient taken first when the step underflows to zero, and the last
    entry overwritten by [stop] when [num > 1].  A negative [num] raises. *)
Definition linspace (start stop : float) (num : Z) : result (list float) :=
  if (num <? 0)%Z then Raise ValueError
  else
    let div := (num - 1)%Z in
    let delta := stop - start in
    let y := map (fun i => Py.float_of_Z (Z.of_nat i)) (seq 0 (Z.to_nat num)) in
    let y :=
      if (0 <? div)%Z then
        let step := delta / Py.float_of_Z div in
        if step =? 0 then map (fun v => (v / Py.float_of_Z div) * delta) y
        else map (fun v => v * step) y
      else map (fun v => v * delta) y in
    let y := map (fun v => v + start) y in
    Ok (if (1 <? num)%Z then set_last y stop else y).

End Np.

(* ================================================================== *)
(** * Dictionaries *)
(* ================================================================== *)

(** A [dict] with string keys, in insertion order. *)
Module Dict.

Section WithValues.
Context {V : Type}.

Fixpoint get (d : list (string * V)) (k : string) : result V :=
  match d with
  | [] => Raise KeyError
  | (k', v) :: r => if String.eqb k' k then Ok v else get r k
  end.

(** [d[k] = v]: an existing key keeps its place and takes the new value. *)
Fixpoint set (d : list (string * V)) (k : string) (v : V) : list (string * V) :=
  match d with
  | [] => [(k, v)]
  | (k', v') :: r =>
      if String.eqb k' k then (k', v) :: r else (k', v') :: set r k v
  end.

Definition keys (d : list (string * V)) : list string := map fst d.

End WithValues.

End Dict.

#[local] Set Warnings "-register-all".

(** The values held by the dictionaries of [to_dict]. *)
Inductive pyval : Type :=
| PFloat (f : float)
| PStr (s : string)
| PDict (d : list (string * pyval)).

Definition get_float (data : list (string * pyval)) (k : string) : result float :=
  v <- Dict.get data k ;;
  match v with
  | PFloat f => Ok f
  | _ => Raise TypeError
  end.

(* ================================================================== *)
(** * spatial.py: Waypoint *)
(* ================================================================== *)

Module Waypoint.

Local Open Scope float_scope.

Record t : Type := Build {
  x : float;
  y : float;
  z : float;
  timestamp : float
}.

(** [distance_to].  [type] is the type of the coordinate differences: a
    difference is a [float64] as soon as one of the two coordinates is. *)
Definition distance_to {libm : Libm} (type : Py.number) (self other : t)
  : result float :=
  dx <- Py.square type (x self - x other) ;;
  dy <- Py.square type (y self - y other) ;;
  dz <- Py.square type (z self - z other) ;;
  Ok (Np.sqrt (dx + dy + dz)).

Definition to_dict (self : t) : list (string * pyval) :=
  [("x"%string, PFloat (x self));
   ("y"%string, PFloat (y self));
   ("z"%string, PFloat (z self));
   ("timestamp"%string, PFloat (timestamp self))].

(** [from_dict]: the four keys are read in the order of the call's keyword
    arguments; a missing key raises.  The fields are annotated [float]: a
    dictionary holding another kind of value is outside the record type and
    is reported as [TypeError]. *)
Definition from_dict (data : list (string * pyval)) : result t :=
  vx <- get_float data "x" ;;
  vy <- get_float data "y" ;;
  vz <- get_float data "z" ;;
  vt <- get_float data "timestamp" ;;
  Ok (Build vx vy vz vt).

End Waypoint.

(* ================================================================== *)
(** * temporal.py: Conflict *)
(* ================================================================== *)

Module Conflict.

Record t : Type := Build {
  drone1_id : string;
  drone2_id : string;
  timestamp : float;
  distance : float;
  position1 : Waypoint.t;
  position2 : Waypoint.t;
  severity : string;
  conflict_type : string
}.

Definition to_dict (self : t) : list (string * pyval) :=
  [("drone1_id"%string, PStr (drone1_id self));
   ("drone2_id"%string, PStr (drone2_id self));
   ("timestamp"%string, PFloat (timestamp self));
   ("distance"%string, PFloat (distance self));
   ("position1"%string, PDict (Waypoint.to_dict (position1 self)));
   ("position2"%string, PDict (Waypoint.to_dict (position2 self)));
   ("severity"%string, PStr (severity self));
   ("conflict_type"%string, PStr (conflict_type self))].

(** [Conflict.from_dict(data)].  The class body of [Conflict] defines its
    eight fields and [to_dict] and nothing else: the repository writes
    conflicts out ([save_conflicts_to_json]) and never reads them back, so
    the attribute lookup on the class fails. *)
Definition from_dict (data : list (string * pyval)) : result t :=
  Raise AttributeError.

End Conflict.

(* ================================================================== *)
(** * spatial.py: DroneTrajectory *)
(* ================================================================== *)

Module DroneTrajectory.

Local Open Scope float_scope.

Record t : Type := Build {
  drone_id : string;
  waypoints : list Waypoint.t
}.

(** [sorted(waypoints, key=lambda w: w.timestamp)]: a stable sort that only
    asks whether one key is [<] another.  Each waypoint is inserted in front
    of the first waypoint already placed whose timestamp is strictly
    greater; on keys that are numbers every stable sort returns this
    list. *)
Fixpoint insert_by_timestamp (w : Waypoint.t) (placed : list Waypoint.t)
  : list Waypoint.t :=
  match placed with
  | [] => [w]
  | h :: r =>
      if Waypoint.timestamp w <? Waypoint.timestamp h then w :: h :: r
      else h :: insert_by_timestamp w r
  end.

Definition sorted_by_timestamp (ws : list Waypoint.t) : list Waypoint.t :=
  fold_left (fun placed w => insert_by_timestamp w placed) ws [].

Definition _validate_waypoints (self : t) : result unit :=
  if (length (waypoints self) <? 2)%nat then Raise ValueError
  else
    let timestamps := map Waypoint.timestamp (waypoints self) in
    if negb (length (Py.set timestamps) =? length timestamps)%nat
    then Raise ValueError
    else Ok tt.

(** [DroneTrajectory(drone_id, waypoints)]. *)
Definition __init__ (drone_id : string) (waypoints : list Waypoint.t) : result t :=
  let self := Build drone_id (sorted_by_timestamp waypoints) in
  _ <- _validate_waypoints self ;;
  Ok self.

(** The linear blend of the interpolation branch.  The division is the
    IEEE one: the divisor is the difference of two timestamps that the guard
    before it found unequal. *)
Definition blend (w1 w2 : Waypoint.t) (timestamp : float) : Waypoint.t :=
  let t := (timestamp - Waypoint.timestamp w1)
           / (Waypoint.timestamp w2 - Waypoint.timestamp w1) in
  Waypoint.Build
    (Waypoint.x w1 + t * (Waypoint.x w2 - Waypoint.x w1))
    (Waypoint.y w1 + t * (Waypoint.y w2 - Waypoint.y w1))
    (Waypoint.z w1 + t * (Waypoint.z w2 - Waypoint.z w1))
    timestamp.

(** The loop over [range(len(self.waypoints) - 1)]: the first pair of
    neighbours that brackets [timestamp] answers. *)
Fixpoint scan (ws : list Waypoint.t) (timestamp : float) : option Waypoint.t :=
  match ws with
  | w1 :: ((w2 :: _) as rest) =>
      if (Waypoint.timestamp w1 <=? timestamp)
         && (timestamp <=? Waypoint.timestamp w2)
      then
        if Waypoint.timestamp w2 =? Waypoint.timestamp w1 then Some w1
        else Some (blend w1 w2 timestamp)
      else scan rest timestamp
  | _ => None
  end.

Definition interpolate_position (self : t) (timestamp : float)
  : result (option Waypoint.t) :=
  match waypoints self with
  | [] => Raise IndexError
  | w0 :: _ =>
      let wl := last (waypoints self) w0 in
      if (timestamp <? Waypoint.timestamp w0)
         || (Waypoint.timestamp wl <? timestamp)
      then Ok None
      else Ok (scan (waypoints self) timestamp)
  end.

Definition get_trajectory_bounds (self : t) : result (float * float) :=
  match waypoints self with
  | [] => Raise IndexError
  | w0 :: _ =>
      Ok (Waypoint.timestamp w0, Waypoint.timestamp (last (waypoints self) w0))
  end.

(** The comprehension of [sample_trajectory]: a timestamp contributes its
    interpolated waypoint when that is not [None] (a [Waypoint] is always
    truthy); the two calls of the source are the same pure call. *)
Fixpoint sample_at (self : t) (timestamps : list float) : result (list Waypoint.t) :=
  match timestamps with
  | [] => Ok []
  | t :: r =>
      p <- interpolate_position self t ;;
      rest <- sample_at self r ;;
      Ok (match p with Some w => w :: rest | None => rest end)
  end.

Definition sample_trajectory (self : t) (num_points : Z) : result (list Waypoint.t) :=
  ' (start_time, end_time) <- get_trajectory_bounds self ;;
  timestamps <- Np.linspace start_time end_time num_points ;;
  sample_at self timestamps.

(** [from_mission_data]: the class method decodes the waypoint dictionaries
    of a mission, in order, and calls the constructor on the result. *)
Definition from_mission_data (drone_id : string)
  (mission_waypoints : list (list (string * pyval))) : result t :=
  waypoints <- map_result Waypoint.from_dict mission_waypoints ;;
  __init__ drone_id waypoints.

End DroneTrajectory.

(* ================================================================== *)
(** * spatial.py: detect_spatial_conflicts *)
(* ================================================================== *)

Section Detectors.

Context {libm : Libm}.

Local Open Scope float_scope.

(** The floats of the literals [0.3] and [0.6]. *)
Definition lit_0_3 : float := 0x1.3333333333333p-2.
Definition lit_0_6 : float := 0x1.3333333333333p-1.

Definition spatial_severity (distance min_separation : float) : string :=
  if distance <? min_separation * lit_0_3 then "high"%string
  else if distance <? min_separation * lit_0_6 then "medium"%string
  else "low"%string.

(** The loop that fills [positions] at one timestamp. *)
Fixpoint positions_at (trajectories : list DroneTrajectory.t) (timestamp : float)
  (positions : list (string * Waypoint.t)) : result (list (string * Waypoint.t)) :=
  match trajectories with
  | [] => Ok positions
  | traj :: rest =>
      pos <- DroneTrajectory.interpolate_position traj timestamp ;;
      positions_at rest timestamp
        (match pos with
         | Some p => Dict.set positions (DroneTrajectory.drone_id traj) p
         | None => positions
         end)
  end.

(** The two loops over the indices of [drone_ids].  The positions were
    interpolated at a timestamp of [np.linspace]: the blend of a segment at
    a [float64] time has [float64] coordinates. *)
Definition check_pairs (positions : list (string * Waypoint.t))
  (timestamp min_separation : float) : result (list Conflict.t) :=
  let drone_ids := Dict.keys positions in
  for_each (range 0 (length drone_ids)) (fun i =>
    for_each (range (i + 1) (length drone_ids)) (fun j =>
      drone1_id <- getitem drone_ids i ;;
      drone2_id <- getitem drone_ids j ;;
      pos1 <- Dict.get positions drone1_id ;;
      pos2 <- Dict.get positions drone2_id ;;
      distance <- Waypoint.distance_to Py.numpy_float64 pos1 pos2 ;;
      if distance <? min_separation then
        Ok [Conflict.Build drone1_id drone2_id timestamp distance pos1 pos2
              (spatial_severity distance min_separation) "spatial"]
      else Ok [])).

(** The time samples of the common window. *)
Definition time_samples (global_start global_end time_resolution : float)
  : result (list float) :=
  q <- Py.truediv (global_end - global_start) time_resolution ;;
  n <- Py.int q ;;
  let num_samples := (n + 1)%Z in
  Np.linspace global_start global_end num_samples.

Definition detect_spatial_conflicts (trajectories : list DroneTrajectory.t)
  (min_separation time_resolution : float) : result (list Conflict.t) :=
  if (length trajectories <? 2)%nat then Ok []
  else
    all_start_times <-
      map_result (fun traj => ' (s, _) <- DroneTrajectory.get_trajectory_bounds traj ;; Ok s)
                 trajectories ;;
    all_end_times <-
      map_result (fun traj => ' (_, e) <- DroneTrajectory.get_trajectory_bounds traj ;; Ok e)
                 trajectories ;;
    global_start <- Py.max all_start_times ;;
    global_end <- Py.min all_end_times ;;
    if global_end <=? global_start then Ok []
    else
      samples <- time_samples global_start global_end time_resolution ;;
      for_each samples (fun timestamp =>
        positions <- positions_at trajectories timestamp [] ;;
        check_pairs positions timestamp min_separation).

(* ================================================================== *)
(** * temporal.py: detect_temporal_conflicts *)
(* ================================================================== *)

(** The body of the two loops over the samples, for one pair of samples,
    which are interpolated at timestamps of [np.linspace] as well. *)
Definition temporal_check (id1 id2 : string) (time_window min_separation : float)
  (wp1 wp2 : Waypoint.t) : result (list Conflict.t) :=
  distance <- Waypoint.distance_to Py.numpy_float64 wp1 wp2 ;;
  if distance <? min_separation then
    let time_diff := abs (Waypoint.timestamp wp1 - Waypoint.timestamp wp2) in
    if (0 <? time_diff) && (time_diff <=? time_window) then
      let severity :=
        if time_diff <? time_window * lit_0_3 then "high"%string
        else "medium"%string in
      Ok [Conflict.Build id1 id2
            (Py.min2 (Waypoint.timestamp wp1) (Waypoint.timestamp wp2))
            distance wp1 wp2 severity "temporal"]
    else Ok []
  else Ok [].

Definition detect_temporal_conflicts (trajectories : list DroneTrajectory.t)
  (time_window min_separation : float) : result (list Conflict.t) :=
  for_each (range 0 (length trajectories)) (fun i =>
    for_each (range (i + 1) (length trajectories)) (fun j =>
      traj1 <- getitem trajectories i ;;
      traj2 <- getitem trajectories j ;;
      samples1 <- DroneTrajectory.sample_trajectory traj1 50 ;;
      samples2 <- DroneTrajectory.sample_trajectory traj2 50 ;;
      for_each samples1 (fun wp1 =>
        for_each samples2 (fun wp2 =>
          temporal_check (DroneTrajectory.drone_id traj1)
            (DroneTrajectory.drone_id traj2) time_window min_separation wp1 wp2)))).

(* ================================================================== *)
(** * utils.py: merge_conflicts and filter_conflicts_by_severity *)
(* ================================================================== *)

(** The deduplication key: [(tuple(sorted([drone1_id, drone2_id])),
    round(timestamp, 1))]. *)
Definition conflict_key (conflict : Conflict.t) : string * string * float :=
  (Py.sorted2 (Conflict.drone1_id conflict) (Conflict.drone2_id conflict),
   Py.round1 (Conflict.timestamp conflict)).

(** [==] on keys, as the set [seen] compares them. *)
Definition key_eqb (k1 k2 : string * string * float) : bool :=
  let '(a1, b1, r1) := k1 in
  let '(a2, b2, r2) := k2 in
  String.eqb a1 a2 && String.eqb b1 b2 && (r1 =? r2).

(** The loop over [all_conflicts], [seen] being the keys met so far. *)
Fixpoint unique_from (all_conflicts : list Conflict.t)
  (seen : list (string * string * float)) : list Conflict.t :=
  match all_conflicts with
  | [] => []
  | conflict :: rest =>
      let key := conflict_key conflict in
      if existsb (key_eqb key) seen then unique_from rest seen
      else conflict :: unique_from rest (key :: seen)
  end.

Definition merge_conflicts (conflict_lists : list (list Conflict.t)) : list Conflict.t :=
  let all_conflicts := concat conflict_lists in
  unique_from all_conflicts [].

Definition severity_order : list (string * Z) :=
  [("low"%string, 0%Z); ("medium"%string, 1%Z); ("high"%string, 2%Z)].

(** [[c for c in conflicts if cond(c)]] for a condition that may raise. *)
Fixpoint select {A : Type} (cond : A -> result bool) (l : list A) : result (list A) :=
  match l with
  | [] => Ok []
  | a :: r =>
      b <- cond a ;;
      rest <- select cond r ;;
      Ok (if b then a :: rest else rest)
  end.

Definition filter_conflicts_by_severity (conflicts : list Conflict.t)
  (min_severity : string) : result (list Conflict.t) :=
  min_level <- Dict.get severity_order min_severity ;;
  select (fun c =>
            level <- Dict.get severity_order (Conflict.severity c) ;;
            Ok (min_level <=? level)%Z)
         conflicts.

End Detectors.

(* ================================================================== *)
(** * utils.py: load_mission_from_json and save_conflicts_to_json *)
(* ================================================================== *)

(** [load_mission_from_json], from the parsed document on.  [data] is what
    [json.load] returned for a document of the expected format: a dictionary
    whose entry 'drones', when it has one, maps each drone ID to the list of
    its waypoint dictionaries, the numbers being floats.  Opening and
    parsing the file are not modelled. *)
Definition load_mission_from_json
  (data : list (string * list (string * list (list (string * pyval)))))
  : result (list DroneTrajectory.t) :=
  match Dict.get data "drones" with
  | Ok drones =>
      map_result
        (fun item => DroneTrajectory.from_mission_data (fst item) (snd item))
        drones
  | Raise _ => Ok []
  end.

(** The values of the document that [save_conflicts_to_json] writes: a
    count, the list of the conflict dictionaries, a dictionary of those. *)
Inductive report : Type :=
| RInt (n : Z)
| RList (l : list (list (string * pyval)))
| RDict (d : list (string * report)).

(** [len([c for c in conflicts if c.severity == level])]. *)
Definition count_severity (conflicts : list Conflict.t) (level : string) : Z :=
  Z.of_nat (length (filter (fun c => String.eqb (Conflict.severity c) level) conflicts)).

(** [conflict_data], the dictionary that [save_conflicts_to_json] builds and
    hands to [json.dump]; writing the file is not modelled. *)
Definition conflict_data (conflicts : list Conflict.t) : list (string * report) :=
  [("conflicts"%string, RList (map Conflict.to_dict conflicts));
   ("summary"%string,
    RDict [("total_conflicts"%string, RInt (Z.of_nat (length conflicts)));
           ("high_severity"%string, RInt (count_severity conflicts "high"));
           ("medium_severity"%string, RInt (count_severity conflicts "medium"));
           ("low_severity"%string, RInt (count_severity conflicts "low"))])].

(* ================================================================== *)
(** * temporal.py: detect_altitude_conflicts *)
(* ================================================================== *)

(** The body of [detect_altitude_conflicts] is [return []]. *)
Definition detect_altitude_conflicts (trajectories : list DroneTrajectory.t)
  (min_altitude_separation : float) : list Conflict.t :=
  [].

(* ================================================================== *)
(** * main.py: create_demo_trajectories *)
(* ================================================================== *)

(** The three demonstration trajectories, each built by the constructor. *)
Definition create_demo_trajectories : result (list DroneTrajectory.t) :=
  alpha <- DroneTrajectory.__init__ "DEMO_Alpha"
             [Waypoint.Build 0 0 100 0; Waypoint.Build 50 25 120 5;
              Waypoint.Build 100 50 100 10]%float ;;
  beta <- DroneTrajectory.__init__ "DEMO_Beta"
            [Waypoint.Build 0 50 80 1; Waypoint.Build 50 25 110 6;
             Waypoint.Build 100 0 90 11]%float ;;
  gamma <- DroneTrajectory.__init__ "DEMO_Gamma"
             [Waypoint.Build 25 0 150 0; Waypoint.Build 75 50 130 8;
              Waypoint.Build 100 100 110 12]%float ;;
  Ok [alpha; beta; gamma].

(* ================================================================== *)
(** * The order of float comparisons *)
(* ================================================================== *)

(** [<], [<=] and [==] on floats compare these keys lexicographically; NaN
    has no key and compares false with everything. *)
Module FloatKey.

Definition of_spec (v : spec_float) : option (Z * Z * Z) :=
  match v with
  | S754_nan => None
  | S754_zero _ => Some (0, 0, 0)%Z
  | S754_infinity s => Some (if s then (-2) else 2, 0, 0)%Z
  | S754_finite s m e => Some (if s then (-1, - e, Z.neg m) else (1, e, Z.pos m))%Z
  end.

Definition lex (a b : Z * Z * Z) : comparison :=
  let '(a1, a2, a3) := a in
  let '(b1, b2, b3) := b in
  match (a1 ?= b1)%Z with
  | Eq => match (a2 ?= b2)%Z with Eq => (a3 ?= b3)%Z | c => c end
  | c => c
  end.

Definition key (f : float) : option (Z * Z * Z) := of_spec (Prim2SF f).

Definition cmp (f g : float) : option comparison :=
  match key f, key g with
  | Some a, Some b => Some (lex a b)
  | _, _ => None
  end.

End FloatKey.

(* ================================================================== *)
(** * Rounding to nearest, as the float operations compute it *)
(* ================================================================== *)

Section RoundingDefinitions.

Local Open Scope Z_scope.

(** Where a remainder [R] lies in a step [D], as the round and sticky bits
    of a shifted mantissa tell. *)
Definition tracks (D R : Z) (r s : bool) : Prop :=
  (r = false /\ s = false /\ R = 0)
  \/ (r = false /\ s = true /\ 0 < R /\ 2 * R < D)
  \/ (r = true /\ s = false /\ 2 * R = D)
  \/ (r = true /\ s = true /\ D < 2 * R).

(** The float of mantissa [M] and exponent [g], for [0 <= M <= 2 ^ 53]: a
    mantissa of [2 ^ 53] moves to the next exponent, an exponent above the
    largest one overflows to an infinity. *)
Definition rounded (sx : bool) (M g : Z) : spec_float :=
  match M with
  | Z.pos p =>
      if M =? 2 ^ 53 then
        if g + 1 <=? 971 then S754_finite sx (2 ^ 52)%positive (g + 1)
        else S754_infinity sx
      else if g <=? 971 then S754_finite sx p g else S754_infinity sx
  | _ => S754_zero sx
  end.

(** The float nearest to the fraction [N / K] in units of [2 ^ c], ties to
    even, with sign [sx]. *)
Definition round_at (sx : bool) (N K c : Z) : spec_float :=
  let g := fexp prec emax (Zdigits2 (N / K) + c) in
  rounded sx (Py.round_half_even N (K * 2 ^ (g - c))) g.

(** A finite float in units of the least positive float, [2 ^ -1074]. *)
Definition units (x : spec_float) : Z :=
  match x with
  | S754_finite s m e => cond_Zopp s (Z.pos m * 2 ^ (e + 1074))
  | _ => 0
  end.

(** A zero or a finite float. *)
Definition is_real (x : spec_float) : bool :=
  match x with
  | S754_zero _ | S754_finite _ _ _ => true
  | _ => false
  end.

Definition not_a_number (x : spec_float) : bool :=
  match x with
  | S754_nan => true
  | _ => false
  end.

(** The float nearest to the integer [T] in units of [2 ^ c]. *)
Definition round_units (c T : Z) : spec_float :=
  if T <? 0 then round_at true (- T) 1 c else round_at false T 1 c.

(** Equal floats, or two zeros. *)
Definition same_value (x y : spec_float) : Prop :=
  x = y \/ (exists s s', x = S754_zero s /\ y = S754_zero s').

End RoundingDefinitions.

(* ================================================================== *)
(** * Valid trajectories *)
(* ================================================================== *)

(** A timestamp is a real number: not NaN. *)
Definition is_time (f : float) : Prop := is_nan f = false.

(** A valid trajectory is one the constructor returned for waypoints with
    real timestamps. *)
Definition valid_trajectory (traj : DroneTrajectory.t) : Prop :=
  exists ws,
    Forall (fun w => is_time (Waypoint.timestamp w)) ws /\
    DroneTrajectory.__init__ (DroneTrajectory.drone_id traj) ws = Ok traj.

(** Timestamps strictly increase along the list. *)
Definition increasing (ws : list Waypoint.t) : Prop :=
  StronglySorted
    (fun a b => (Waypoint.timestamp a <? Waypoint.timestamp b)%float = true) ws.

(** A waypoint is not later than another: what [sorted] leaves between
    neighbours. *)
Definition not_after (a b : Waypoint.t) : Prop :=
  (Waypoint.timestamp b <? Waypoint.timestamp a)%float = false.

(** Two waypoints at different places of the list have [==] timestamps. *)
Definition share_timestamp (ws : list Waypoint.t) : Prop :=
  exists i j a b,
    i <> j /\ nth_error ws i = Some a /\ nth_error ws j = Some b /\
    (Waypoint.timestamp a =? Waypoint.timestamp b)%float = true.

(** Two positions have [==] coordinates. *)
Definition same_place (p w : Waypoint.t) : Prop :=
  (Waypoint.x p =? Waypoint.x w)%float = true
  /\ (Waypoint.y p =? Waypoint.y w)%float = true
  /\ (Waypoint.z p =? Waypoint.z w)%float = true.

(** The arithmetic of a segment stays within the finite floats: the start
    time is finite, the start coordinates are numbers and the coordinate
    differences do not overflow. *)
Definition tame_segment (w1 w2 : Waypoint.t) : Prop :=
  is_finite (Waypoint.timestamp w1) = true
  /\ (is_nan (Waypoint.x w1) = false
      /\ is_finite (Waypoint.x w2 - Waypoint.x w1)%float = true)
  /\ (is_nan (Waypoint.y w1) = false
      /\ is_finite (Waypoint.y w2 - Waypoint.y w1)%float = true)
  /\ (is_nan (Waypoint.z w1) = false
      /\ is_finite (Waypoint.z w2 - Waypoint.z w1)%float = true).

(** The first and last timestamps, read without the index checks. *)
Definition start_time (traj : DroneTrajectory.t) : float :=
  match DroneTrajectory.get_trajectory_bounds traj with
  | Ok (s, _) => s
  | Raise _ => nan
  end.

Definition end_time (traj : DroneTrajectory.t) : float :=
  match DroneTrajectory.get_trajectory_bounds traj with
  | Ok (_, e) => e
  | Raise _ => nan
  end.

(** The position of a drone at a time, when it has one. *)
Definition position_at (traj : DroneTrajectory.t) (t : float) : option Waypoint.t :=
  match DroneTrajectory.interpolate_position traj t with
  | Ok (Some p) => Some p
  | _ => None
  end.

(* ================================================================== *)
(** * What the specification says the detectors emit *)
(* ================================================================== *)

Section Specification.

Context {libm : Libm}.

Local Open Scope float_scope.

(** Every unordered pair of a list, once, the earlier member first. *)
Fixpoint unordered_pairs {A : Type} (l : list A) : list (A * A) :=
  match l with
  | [] => []
  | a :: r => map (pair a) r ++ unordered_pairs r
  end.

(** The Euclidean distance of two positions: the square root of the sum of
    the squared coordinate differences, in float64 arithmetic. *)
Definition euclidean (p q : Waypoint.t) : float :=
  Np.sqrt (pow2 (Waypoint.x p - Waypoint.x q)
           + pow2 (Waypoint.y p - Waypoint.y q)
           + pow2 (Waypoint.z p - Waypoint.z q)).

(** The number of timestamps of a window: the quotient of its length by the
    resolution, truncated to an integer, plus one.  A zero resolution, and a
    quotient that is no finite number, have no count. *)
Definition sample_count (start stop resolution : float) : result Z :=
  quotient <- Py.truediv (stop - start) resolution ;;
  whole <- Py.int quotient ;;
  Ok (whole + 1)%Z.

(** [num] evenly spaced timestamps from [start] to [stop], both included
    when [num] is at least two.  The timestamp of index [i] is
    [i * step + start] for the step [(stop - start) / (num - 1)], or
    [(i / (num - 1)) * (stop - start) + start] when that step is zero as a
    float; the last timestamp is [stop] itself.  One timestamp alone is
    [0 * (stop - start) + start]. *)
Definition grid_point (start stop : float) (num : Z) (i : nat) : float :=
  let span := stop - start in
  let index := Py.float_of_Z (Z.of_nat i) in
  if (1 <? num)%Z then
    let parts := Py.float_of_Z (num - 1) in
    if span / parts =? 0 then (index / parts) * span + start
    else index * (span / parts) + start
  else index * span + start.

Definition evenly_spaced (start stop : float) (num : Z) : list float :=
  match Z.to_nat num with
  | O => []
  | S k =>
      if (1 <? num)%Z then map (grid_point start stop num) (seq 0 k) ++ [stop]
      else [grid_point start stop num 0]
  end.

(** The trajectories that have a position at [t], each under its drone ID,
    in the order of the input. *)
Definition located (trajectories : list DroneTrajectory.t) (t : float)
  : list (string * Waypoint.t) :=
  flat_map (fun traj => match position_at traj t with
                        | Some p => [(DroneTrajectory.drone_id traj, p)]
                        | None => []
                        end) trajectories.

(** The IDs of a list of entries in the order of their first occurrence. *)
Fixpoint first_ids (seen : list string) (entries : list (string * Waypoint.t))
  : list string :=
  match entries with
  | [] => []
  | (id, _) :: rest =>
      if existsb (String.eqb id) seen then first_ids seen rest
      else id :: first_ids (id :: seen) rest
  end.

(** The position that a list of entries holds last under an ID. *)
Definition latest (id : string) (entries : list (string * Waypoint.t))
  : option Waypoint.t :=
  fold_left (fun found e => if String.eqb (fst e) id then Some (snd e) else found)
            entries None.

(** The drones at [t]: a drone is a drone ID, and its position is that of
    the last trajectory under this ID that has one.  When the IDs of the
    trajectories are distinct these are the positions of the trajectories
    themselves. *)
Definition drones_at (trajectories : list DroneTrajectory.t) (t : float)
  : list (string * Waypoint.t) :=
  let entries := located trajectories t in
  flat_map (fun id => match latest id entries with
                      | Some p => [(id, p)]
                      | None => []
                      end)
           (first_ids [] entries).

(** Spatial detection at one timestamp: one conflict for each unordered pair
    of drones with positions closer than [d_min]. *)
Definition spec_spatial_pair (d_min t : float)
  (ab : (string * Waypoint.t) * (string * Waypoint.t)) : list Conflict.t :=
  let '((id1, p1), (id2, p2)) := ab in
  let d := euclidean p1 p2 in
  if d <? d_min then
    [Conflict.Build id1 id2 t d p1 p2
       (if d <? d_min * lit_0_3 then "high"%string
        else if d <? d_min * lit_0_6 then "medium"%string else "low"%string)
       "spatial"]
  else [].

Definition spec_spatial_at (trajectories : list DroneTrajectory.t) (d_min t : float)
  : list Conflict.t :=
  flat_map (spec_spatial_pair d_min t) (unordered_pairs (drones_at trajectories t)).

(** The samples of a trajectory for temporal detection: its positions at
    fifty evenly spaced timestamps across its own bounds, where it has
    one. *)
Definition spec_samples (traj : DroneTrajectory.t) : list Waypoint.t :=
  flat_map (fun t => match position_at traj t with
                     | Some p => [p]
                     | None => []
                     end)
           (evenly_spaced (start_time traj) (end_time traj) 50).

(** Temporal detection: the cross pairs of samples that are close in space
    and apart in time by more than zero and at most the window. *)
Definition time_diff (p1 p2 : Waypoint.t) : float :=
  abs (Waypoint.timestamp p1 - Waypoint.timestamp p2).

Definition temporal_hit (time_window d_min : float) (pq : Waypoint.t * Waypoint.t) : bool :=
  let '(p1, p2) := pq in
  (euclidean p1 p2 <? d_min)
  && (0 <? time_diff p1 p2) && (time_diff p1 p2 <=? time_window).

Definition spec_temporal_conflict (a b : DroneTrajectory.t) (time_window : float)
  (pq : Waypoint.t * Waypoint.t) : Conflict.t :=
  let '(p1, p2) := pq in
  Conflict.Build (DroneTrajectory.drone_id a) (DroneTrajectory.drone_id b)
    (if Waypoint.timestamp p2 <? Waypoint.timestamp p1
     then Waypoint.timestamp p2 else Waypoint.timestamp p1)
    (euclidean p1 p2) p1 p2
    (if time_diff p1 p2 <? time_window * lit_0_3 then "high"%string
     else "medium"%string)
    "temporal".

Definition spec_temporal_pair (time_window d_min : float)
  (ab : DroneTrajectory.t * DroneTrajectory.t) : list Conflict.t :=
  let '(a, b) := ab in
  map (spec_temporal_conflict a b time_window)
      (filter (temporal_hit time_window d_min)
              (list_prod (spec_samples a) (spec_samples b))).

Definition spec_temporal (trajectories : list DroneTrajectory.t)
  (time_window d_min : float) : list Conflict.t :=
  flat_map (spec_temporal_pair time_window d_min) (unordered_pairs trajectories).

(** Deduplication by first occurrence: a conflict survives when no conflict
    before it in the input has an equal key. *)
Fixpoint first_occurrences (before l : list Conflict.t) : list Conflict.t :=
  match l with
  | [] => []
  | c :: r =>
      (if existsb (fun b => key_eqb (conflict_key c) (conflict_key b)) before
       then [] else [c])
      ++ first_occurrences (before ++ [c]) r
  end.

(** Two conflicts stand for the same key in a merged result. *)
Definition same_key (c c' : Conflict.t) : Prop :=
  c = c' \/ key_eqb (conflict_key c) (conflict_key c') = true.

(** The severity ranks: low = 0, medium = 1, high = 2. *)
Definition severity_rank (s : string) : option Z :=
  if String.eqb s "low" then Some 0%Z
  else if String.eqb s "medium" then Some 1%Z
  else if String.eqb s "high" then Some 2%Z
  else None.

Definition recognized (s : string) : Prop :=
  s = "low"%string \/ s = "medium"%string \/ s = "high"%string.

Definition at_least (min_severity : string) (c : Conflict.t) : bool :=
  match severity_rank min_severity, severity_rank (Conflict.severity c) with
  | Some m, Some r => (m <=? r)%Z
  | _, _ => false
  end.

(** The timestamps of a sample grid that fall inside the bounds. *)
Definition in_bounds (start stop t : float) : bool :=
  (start <=? t) && (t <=? stop).

(** The timestamps of a list never decrease. *)
Fixpoint nondecreasing (l : list float) : bool :=
  match l with
  | a :: ((b :: _) as r) => (a <=? b) && nondecreasing r
  | _ => true
  end.

(** The step of the grid [np.linspace(start, stop, n)]: what the indices
    are multiplied by, the whole span when there is one point only. *)
Definition grid_step (start stop : float) (n : Z) : float :=
  if (1 <? n)%Z then (stop - start) / Py.float_of_Z (n - 1) else stop - start.

End Specification.

(* ================================================================== *)
(** * Trajectories and conflicts of the test suite *)
(* ================================================================== *)

Module Example.

Local Open Scope float_scope.

(** A library whose squares are the correctly rounded products: the one the
    examples are computed with. *)
Definition products : Libm := {| pow2 v := v * v |}.

(** [simple_waypoints], [curved_waypoints] and [conflict_waypoints] of
    [tests/test_cases.py]. *)
Definition simple_waypoints : list Waypoint.t :=
  [Waypoint.Build 0 0 100 0; Waypoint.Build 100 0 100 10].

Definition curved_waypoints : list Waypoint.t :=
  [Waypoint.Build 0 0 50 0; Waypoint.Build 50 25 75 5; Waypoint.Build 100 50 100 10].

Definition conflict_waypoints : list Waypoint.t :=
  [Waypoint.Build 0 50 100 2; Waypoint.Build 100 (-50) 100 12].

Definition drone1 : DroneTrajectory.t := DroneTrajectory.Build "drone1" simple_waypoints.
Definition drone2 : DroneTrajectory.t := DroneTrajectory.Build "drone2" conflict_waypoints.
Definition drone3 : DroneTrajectory.t := DroneTrajectory.Build "drone3" curved_waypoints.

(** A trajectory whose first coordinate drops from [1e16] to [1]. *)
Definition steep_waypoints : list Waypoint.t :=
  [Waypoint.Build 1e16 0 0 0; Waypoint.Build 1 0 0 1].

Definition steep : DroneTrajectory.t := DroneTrajectory.Build "steep" steep_waypoints.

(** A trajectory whose first coordinate leaps from [-1e308] to [1e308]. *)
Definition leap_waypoints : list Waypoint.t :=
  [Waypoint.Build (-0x1.1ccf385ebc8a0p+1023) 0 0 0;
   Waypoint.Build 0x1.1ccf385ebc8a0p+1023 0 0 1].

Definition leap : DroneTrajectory.t := DroneTrajectory.Build "leap" leap_waypoints.

(** A trajectory whose duration overflows: from [-1e308] to [1e308]. *)
Definition wide_waypoints : list Waypoint.t :=
  [Waypoint.Build 0 0 0 (-0x1.1ccf385ebc8a0p+1023);
   Waypoint.Build 1 1 1 0x1.1ccf385ebc8a0p+1023].

Definition wide : DroneTrajectory.t := DroneTrajectory.Build "wide" wide_waypoints.

(** The conflicts of [test_utility_functions], and one that repeats the key
    of the first with another severity. *)
Definition w1 : Waypoint.t := Waypoint.Build 0 0 100 5.
Definition w2 : Waypoint.t := Waypoint.Build 10 10 100 5.

Definition conflict_a : Conflict.t :=
  Conflict.Build "d1" "d2" 5 10 w1 w2 "high" "spatial".
Definition conflict_b : Conflict.t :=
  Conflict.Build "d1" "d3" 6 15 w1 w2 "low" "temporal".
Definition conflict_a' : Conflict.t :=
  Conflict.Build "d2" "d1" 5 15 w2 w1 "low" "temporal".

(** The crossing trajectory under the ID of the first one. *)
Definition drone1_twin : DroneTrajectory.t :=
  DroneTrajectory.Build "drone1" conflict_waypoints.

(** A trajectory under the same ID again, far from the others. *)
Definition far_waypoints : list Waypoint.t :=
  [Waypoint.Build 10000 10000 100 0; Waypoint.Build 10100 10000 100 12].

Definition drone1_far : DroneTrajectory.t :=
  DroneTrajectory.Build "drone1" far_waypoints.

(** A conflict with a severity outside the three levels. *)
Definition conflict_odd : Conflict.t :=
  Conflict.Build "d1" "d2" 5 10 w1 w2 "critical" "spatial".

(** The offset trajectory of [test_temporal_conflict_detection]. *)
Definition offset_waypoints : list Waypoint.t :=
  [Waypoint.Build 0 0 100 5; Waypoint.Build 100 0 100 15].
Definition drone_offset : DroneTrajectory.t :=
  DroneTrajectory.Build "drone2" offset_waypoints.

End Example.

(* ================================================================== *)
(** * Notions used by the further properties of the code *)
(* ================================================================== *)

(** The keys that [Waypoint.from_dict] reads. *)
Definition waypoint_keys : list string :=
  ["x"; "y"; "z"; "timestamp"]%string.

(** A dictionary all of whose values are floats. *)
Definition holds_floats (data : list (string * pyval)) : Prop :=
  Forall (fun kv => exists f, snd kv = PFloat f) data.

(** The timestamps that the waypoint dictionaries of a mission carry are
    real numbers. *)
Definition real_timestamps (mission_waypoints : list (list (string * pyval))) : Prop :=
  Forall (fun wp => forall f, get_float wp "timestamp" = Ok f -> is_time f)
         mission_waypoints.

(** A trajectory that the constructor returned, whatever its timestamps. *)
Definition constructed (traj : DroneTrajectory.t) : Prop :=
  exists drone_id ws, DroneTrajectory.__init__ drone_id ws = Ok traj.

(** Two spec floats are opposite, or both are zeros: how [a - b] and [b - a]
    are related. *)
Definition mirrored (v w : spec_float) : Prop :=
  w = SFopp v \/ exists s s', v = S754_zero s /\ w = S754_zero s'.

(** What the loops of the spatial detector establish for a conflict they
    append. *)
Definition spatial_sound {libm : Libm} (trajectories : list DroneTrajectory.t)
  (m : float) (c : Conflict.t) : Prop :=
  Conflict.conflict_type c = "spatial"%string
  /\ Conflict.drone1_id c <> Conflict.drone2_id c
  /\ (exists a, In a trajectories /\ DroneTrajectory.drone_id a = Conflict.drone1_id c
        /\ DroneTrajectory.interpolate_position a (Conflict.timestamp c)
           = Ok (Some (Conflict.position1 c)))
  /\ (exists b, In b trajectories /\ DroneTrajectory.drone_id b = Conflict.drone2_id c
        /\ DroneTrajectory.interpolate_position b (Conflict.timestamp c)
           = Ok (Some (Conflict.position2 c)))
  /\ Waypoint.distance_to Py.numpy_float64 (Conflict.position1 c) (Conflict.position2 c)
     = Ok (Conflict.distance c)
  /\ (Conflict.distance c <? m)%float = true
  /\ Conflict.severity c = spatial_severity (Conflict.distance c) m.

(** What the loops of the temporal detector establish for a conflict they
    append. *)
Definition temporal_sound {libm : Libm} (trajectories : list DroneTrajectory.t)
  (w m : float) (c : Conflict.t) : Prop :=
  Conflict.conflict_type c = "temporal"%string
  /\ (exists i j a b s1 s2,
        (i < j)%nat
        /\ nth_error trajectories i = Some a /\ nth_error trajectories j = Some b
        /\ Conflict.drone1_id c = DroneTrajectory.drone_id a
        /\ Conflict.drone2_id c = DroneTrajectory.drone_id b
        /\ DroneTrajectory.sample_trajectory a 50 = Ok s1 /\ In (Conflict.position1 c) s1
        /\ DroneTrajectory.sample_trajectory b 50 = Ok s2 /\ In (Conflict.position2 c) s2)
  /\ Waypoint.distance_to Py.numpy_float64 (Conflict.position1 c) (Conflict.position2 c)
     = Ok (Conflict.distance c)
  /\ (Conflict.distance c <? m)%float = true
  /\ (0 <? time_diff (Conflict.position1 c) (Conflict.position2 c))%float = true
  /\ (time_diff (Conflict.position1 c) (Conflict.position2 c) <=? w)%float = true
  /\ Conflict.timestamp c
     = Py.min2 (Waypoint.timestamp (Conflict.position1 c))
               (Waypoint.timestamp (Conflict.position2 c))
  /\ Conflict.severity c
     = (if (time_diff (Conflict.position1 c) (Conflict.position2 c) <? w * lit_0_3)%float
        then "high"%string else "medium"%string).

(** No two conflicts of a list have equal deduplication keys. *)
Definition distinct_keys (conflicts : list Conflict.t) : Prop :=
  ForallOrdPairs (fun c c' => key_eqb (conflict_key c) (conflict_key c') = false) conflicts.


(* ================================================================== *)
(** * Facts: float comparisons *)
(* ================================================================== *)

Section FloatFacts.

Local Open Scope float_scope.

Lemma SFcompare_keys (v w : spec_float) :
  SFcompare v w =
  match FloatKey.of_spec v, FloatKey.of_spec w with
  | Some a, Some b => Some (FloatKey.lex a b)
  | _, _ => None
  end.
Proof.
  destruct v as [[]|[]| |[] m1 e1], w as [[]|[]| |[] m2 e2]; cbn; try reflexivity.
  change (PosDef.Pos.compare_cont Eq m1 m2) with (Pos.compare m1 m2).
  rewrite Z.compare_opp, (Z.compare_antisym e1 e2).
  destruct (e1 ?= e2)%Z; reflexivity.
Qed.

Lemma lex_spec (a b : Z * Z * Z) :
  match FloatKey.lex a b with
  | Lt => (fst (fst a) < fst (fst b)
           \/ (fst (fst a) = fst (fst b)
               /\ (snd (fst a) < snd (fst b)
                   \/ (snd (fst a) = snd (fst b) /\ snd a < snd b))))%Z
  | Eq => a = b
  | Gt => (fst (fst b) < fst (fst a)
           \/ (fst (fst a) = fst (fst b)
               /\ (snd (fst b) < snd (fst a)
                   \/ (snd (fst a) = snd (fst b) /\ snd b < snd a))))%Z
  end.
Proof.
  destruct a as [[a1 a2] a3], b as [[b1 b2] b3]; unfold FloatKey.lex; cbn [fst snd].
  destruct (Z.compare_spec a1 b1), (Z.compare_spec a2 b2), (Z.compare_spec a3 b3);
    subst; auto; lia.
Qed.

Lemma ltb_cmp (f g : float) :
  (f <? g) = match FloatKey.cmp f g with Some Lt => true | _ => false end.
Proof.
  rewrite FloatAxioms.ltb_spec. unfold SFltb, FloatKey.cmp, FloatKey.key.
  now rewrite SFcompare_keys; destruct (FloatKey.of_spec (Prim2SF f)), (FloatKey.of_spec (Prim2SF g)).
Qed.

Lemma leb_cmp (f g : float) :
  (f <=? g) = match FloatKey.cmp f g with Some (Lt | Eq) => true | _ => false end.
Proof.
  rewrite FloatAxioms.leb_spec. unfold SFleb, FloatKey.cmp, FloatKey.key.
  now rewrite SFcompare_keys; destruct (FloatKey.of_spec (Prim2SF f)), (FloatKey.of_spec (Prim2SF g)).
Qed.

Lemma eqb_cmp (f g : float) :
  (f =? g) = match FloatKey.cmp f g with Some Eq => true | _ => false end.
Proof.
  rewrite FloatAxioms.eqb_spec. unfold SFeqb, FloatKey.cmp, FloatKey.key.
  now rewrite SFcompare_keys; destruct (FloatKey.of_spec (Prim2SF f)), (FloatKey.of_spec (Prim2SF g)).
Qed.

Lemma is_nan_key (f : float) :
  is_nan f = match FloatKey.key f with Some _ => false | None => true end.
Proof.
  unfold is_nan. rewrite eqb_cmp. unfold FloatKey.cmp.
  destruct (FloatKey.key f) as [k|]; [|reflexivity].
  pose proof (lex_spec k k) as H. destruct (FloatKey.lex k k); [reflexivity|lia|lia].
Qed.

End FloatFacts.

(** Decides a goal about [<?], [<=?], [=?] and [is_nan] on floats from
    hypotheses of the same kind, by comparing keys. *)
Ltac float_keys :=
  unfold is_time in *;
  rewrite ?ltb_cmp, ?leb_cmp, ?eqb_cmp, ?is_nan_key in *;
  unfold FloatKey.cmp in *;
  repeat match goal with
    | H : context [FloatKey.key ?f] |- _ => destruct (FloatKey.key f) as [[[? ?] ?]|]
    | |- context [FloatKey.key ?f] => destruct (FloatKey.key f) as [[[? ?] ?]|]
    end;
  try discriminate; try reflexivity;
  repeat match goal with
    | H : context [FloatKey.lex ?a ?b] |- _ =>
        let L := fresh "L" in
        pose proof (lex_spec a b) as L; cbn [fst snd] in L;
        destruct (FloatKey.lex a b)
    | |- context [FloatKey.lex ?a ?b] =>
        let L := fresh "L" in
        pose proof (lex_spec a b) as L; cbn [fst snd] in L;
        destruct (FloatKey.lex a b)
    end;
  try discriminate; try reflexivity;
  repeat match goal with
    | H : (_, _, _) = (_, _, _) |- _ => injection H as ? ? ?
    end;
  subst; try discriminate; try reflexivity; try (exfalso; lia).

Section FloatOrder.

Local Open Scope float_scope.

Lemma ltb_leb (a b : float) : (a <? b) = true -> (a <=? b) = true.
Proof. intros; float_keys. Qed.

Lemma ltb_asym (a b : float) : (a <? b) = true -> (b <=? a) = false.
Proof. intros; float_keys. Qed.

Lemma leb_refl (a : float) : is_time a -> (a <=? a) = true.
Proof. intros; float_keys. Qed.

Lemma leb_false_ltb (a b : float) :
  is_time a -> is_time b -> (a <=? b) = false -> (b <? a) = true.
Proof. intros; float_keys. Qed.

Lemma ltb_false_leb (a b : float) :
  is_time a -> is_time b -> (a <? b) = false -> (b <=? a) = true.
Proof. intros; float_keys. Qed.

Lemma ltb_trans (a b c : float) :
  (a <? b) = true -> (b <? c) = true -> (a <? c) = true.
Proof. intros; float_keys. Qed.

Lemma leb_trans (a b c : float) :
  (a <=? b) = true -> (b <=? c) = true -> (a <=? c) = true.
Proof. intros; float_keys. Qed.

Lemma eqb_sym (a b : float) : (a =? b) = (b =? a).
Proof. float_keys. Qed.

Lemma eqb_trans (a b c : float) :
  (a =? b) = true -> (b =? c) = true -> (a =? c) = true.
Proof. intros; float_keys. Qed.

Lemma eqb_refl (a : float) : is_time a -> (a =? a) = true.
Proof. intros; float_keys. Qed.

Lemma ltb_neq (a b : float) : (a <? b) = true -> (b =? a) = false.
Proof. intros; float_keys. Qed.

Lemma ltb_is_time (a b : float) : (a <? b) = true -> is_time a /\ is_time b.
Proof. intros; split; float_keys. Qed.

Lemma not_ltb_neq (a b : float) :
  is_time a -> is_time b -> (a <? b) = false -> (a =? b) = false -> (b <? a) = true.
Proof. intros; float_keys. Qed.

End FloatOrder.

(* ================================================================== *)
(** * Facts: arithmetic with a zero *)
(* ================================================================== *)

Section FloatZero.

Local Open Scope float_scope.

Lemma is_finite_spec (f : float) :
  is_finite f
  = match Prim2SF f with S754_zero _ | S754_finite _ _ _ => true | _ => false end.
Proof.
  unfold is_finite, is_nan, is_infinity.
  rewrite !FloatAxioms.eqb_spec, abs_spec.
  change (Prim2SF infinity) with (S754_infinity false).
  destruct (Prim2SF f) as [s|s| |s m e]; cbn; try reflexivity.
  - now destruct s.
  - change (PosDef.Pos.compare_cont Eq m m) with (Pos.compare m m).
    rewrite Z.compare_refl, Pos.compare_refl. now destruct s.
Qed.

(** [t - t] is [+0]. *)
Lemma sub_self (t : float) : is_finite t = true -> Prim2SF (t - t) = S754_zero false.
Proof.
  rewrite is_finite_spec, sub_spec. unfold SF64sub.
  destruct (Prim2SF t) as [s|s| |s m e]; try discriminate; intros _.
  - now destruct s.
  - unfold SFsub. now rewrite Z.sub_diag.
Qed.

(** A zero divided by a positive float, or multiplied by a finite one, is a
    zero; adding a zero to a number gives a float [==] to it. *)
Lemma zero_div (z d : float) (s : bool) :
  Prim2SF z = S754_zero s -> (0 <? d) = true ->
  exists s', Prim2SF (z / d) = S754_zero s'.
Proof.
  intros Ez. rewrite FloatAxioms.ltb_spec, div_spec, Ez.
  change (Prim2SF 0) with (S754_zero false).
  destruct (Prim2SF d) as [s'|s'| |s' m e]; cbn; try discriminate; eauto.
Qed.

Lemma zero_mul (z d : float) (s : bool) :
  Prim2SF z = S754_zero s -> is_finite d = true ->
  exists s', Prim2SF (z * d) = S754_zero s'.
Proof.
  intros Ez. rewrite is_finite_spec, mul_spec, Ez.
  destruct (Prim2SF d) as [s'|s'| |s' m e]; cbn; try discriminate; eauto.
Qed.

Lemma add_zero (v z : float) (s : bool) :
  Prim2SF z = S754_zero s -> is_nan v = false -> (v + z =? v) = true.
Proof.
  intros Ez. unfold is_nan. rewrite !FloatAxioms.eqb_spec, add_spec, Ez.
  destruct (Prim2SF v) as [s'|s'| |s' m e]; cbn; try discriminate.
  - now destruct s', s.
  - intros H. now apply negb_false_iff in H.
  - intros H. now apply negb_false_iff in H.
Qed.

Lemma zero_add (z v : float) (s : bool) :
  Prim2SF z = S754_zero s -> is_nan v = false -> (z + v =? v) = true.
Proof.
  intros Ez. unfold is_nan. rewrite !FloatAxioms.eqb_spec, add_spec, Ez.
  destruct (Prim2SF v) as [s'|s'| |s' m e]; cbn; try discriminate.
  - now destruct s', s.
  - intros H. now apply negb_false_iff in H.
  - intros H. now apply negb_false_iff in H.
Qed.

(** When a quotient is zero, so is zero over the same divisor, times the
    same dividend. *)
Lemma zero_quotient (delta d : float) :
  (delta / d =? 0) = true ->
  exists s, Prim2SF (0 / d * delta) = S754_zero s.
Proof.
  rewrite FloatAxioms.eqb_spec, mul_spec, !div_spec.
  change (Prim2SF 0) with (S754_zero false). unfold SF64div, SF64mul.
  destruct (Prim2SF delta) as [[]|[]| |[] md ed], (Prim2SF d) as [[]|[]| |[] m e];
    try (cbn; discriminate); intros _; eexists; reflexivity.
Qed.

(** With fraction zero the blend of a coordinate is [==] to its start. *)
Lemma blend_coordinate_at_start (t1 t2 c1 c2 : float) :
  is_finite t1 = true -> (0 <? t2 - t1) = true ->
  is_finite (c2 - c1) = true -> is_nan c1 = false ->
  (c1 + (t1 - t1) / (t2 - t1) * (c2 - c1) =? c1) = true.
Proof.
  intros Ft Pd Fc Nc.
  destruct (@zero_div (t1 - t1) (t2 - t1) false (sub_self t1 Ft) Pd) as [s Ef].
  destruct (@zero_mul _ (c2 - c1) s Ef Fc) as [s' Em].
  exact (@add_zero c1 _ s' Em Nc).
Qed.

End FloatZero.

(* ================================================================== *)
(** * Facts: rounding to nearest *)
(* ================================================================== *)

Unset Implicit Arguments.

Section RoundingIntegers.

Local Open Scope Z_scope.

Lemma shr_1_nonneg (m : Z) (r s : bool) :
  0 <= m ->
  shr_1 (Build_shr_record m r s) = Build_shr_record (m / 2) (Z.odd m) (r || s).
Proof.
  intros H. rewrite <- Z.div2_div.
  destruct m as [|p|p]; [reflexivity| |lia].
  destruct p; reflexivity.
Qed.

Lemma iter_pos_nat {A : Type} (f : A -> A) (p : positive) (x : A) :
  iter_pos f p x = Nat.iter (Pos.to_nat p) f x.
Proof.
  revert x. induction p as [p IH|p IH|]; intros x; cbn [iter_pos].
  - rewrite !IH, Pos2Nat.inj_xI.
    replace (S (2 * Pos.to_nat p))%nat with (Pos.to_nat p + (Pos.to_nat p + 1))%nat by lia.
    rewrite !Nat.iter_add. reflexivity.
  - rewrite !IH, Pos2Nat.inj_xO.
    replace (2 * Pos.to_nat p)%nat with (Pos.to_nat p + Pos.to_nat p)%nat by lia.
    rewrite Nat.iter_add. reflexivity.
  - reflexivity.
Qed.

(** one more step halves the quotient and doubles the step *)
Lemma tracks_step (N D m : Z) (r s : bool) :
  0 < D -> 0 <= N ->
  m = N / D -> tracks D (N mod D) r s ->
  m / 2 = N / (2 * D)
  /\ tracks (2 * D) (N mod (2 * D)) (Z.odd m) (r || s).
Proof.
  intros HD HN Hm L.
  pose proof (Z.div_mod N D ltac:(lia)) as E.
  pose proof (Z.mod_pos_bound N D HD) as B.
  pose proof (Z.div_mod m 2 ltac:(lia)) as E2.
  pose proof (Z.mod_pos_bound m 2 ltac:(lia)) as B2.
  assert (Q : N = (2 * D) * (m / 2) + ((m mod 2) * D + N mod D)) by (subst m; nia).
  assert (BR : 0 <= (m mod 2) * D + N mod D < 2 * D) by nia.
  assert (Hq : N / (2 * D) = m / 2).
  { symmetry. apply (Z.div_unique N (2 * D) (m / 2) ((m mod 2) * D + N mod D)); [lia|exact Q]. }
  assert (Hr : N mod (2 * D) = (m mod 2) * D + N mod D).
  { symmetry. apply (Z.mod_unique N (2 * D) (m / 2) ((m mod 2) * D + N mod D)); [lia|exact Q]. }
  split; [now rewrite Hq|]. rewrite Hr.
  pose proof (Zmod_odd m) as O. unfold tracks in *.
  destruct (Z.odd m); rewrite O;
    destruct L as [(-> & -> & L)|[(-> & -> & L)|[(-> & -> & L)|(-> & -> & L)]]];
    cbn [orb].
  all: first [ left; repeat split; lia
             | right; left; repeat split; lia
             | right; right; left; repeat split; lia
             | right; right; right; repeat split; lia ].
Qed.

Lemma tracks_iter (N K : Z) (k : nat) (m : Z) (r s : bool) :
  0 < K -> 0 <= N -> m = N / K -> tracks K (N mod K) r s ->
  exists r' s',
    Nat.iter k shr_1 (Build_shr_record m r s)
    = Build_shr_record (N / (K * 2 ^ Z.of_nat k)) r' s'
    /\ tracks (K * 2 ^ Z.of_nat k) (N mod (K * 2 ^ Z.of_nat k)) r' s'.
Proof.
  intros HK HN Hm L. induction k as [|k IH].
  - exists r, s. change (Nat.iter 0 shr_1 ?x) with x. cbn [Z.of_nat].
    rewrite Z.pow_0_r, Z.mul_1_r. now subst m.
  - destruct IH as (r' & s' & E & L').
    rewrite Nat.iter_succ, E.
    assert (HD : 0 < K * 2 ^ Z.of_nat k)
      by (apply Z.mul_pos_pos; [lia|apply Z.pow_pos_nonneg; lia]).
    rewrite shr_1_nonneg by (apply Z.div_pos; lia).
    destruct (tracks_step N (K * 2 ^ Z.of_nat k) _ r' s' HD HN eq_refl L') as [Hq Hl].
    replace (K * 2 ^ Z.of_nat (S k)) with (2 * (K * 2 ^ Z.of_nat k))
      by (rewrite Nat2Z.inj_succ, Z.pow_succ_r; lia).
    exists (Z.odd (N / (K * 2 ^ Z.of_nat k))), (r' || s'). rewrite Hq. auto.
Qed.

Lemma tracks_rne (N D : Z) (r s : bool) :
  0 < D -> 0 <= N -> tracks D (N mod D) r s ->
  round_nearest_even (N / D) (loc_of_shr_record (Build_shr_record (N / D) r s))
  = Py.round_half_even N D.
Proof.
  intros HD HN L. unfold Py.round_half_even. pose proof (Z.mod_pos_bound N D HD) as B.
  destruct L as [(-> & -> & L)|[(-> & -> & L)|[(-> & -> & L)|(-> & -> & L)]]];
    cbn [loc_of_shr_record round_nearest_even];
    destruct (Z.compare_spec (2 * (N mod D)) D); try lia; reflexivity.
Qed.

Lemma tracks_exact (N : Z) : tracks 1 (N mod 1) false false.
Proof. left. rewrite Z.mod_1_r. auto. Qed.

Lemma tracks_new_location (K R : Z) :
  0 < K -> 0 <= R < K ->
  exists r s,
    (forall m, shr_record_of_loc m (new_location K R) = Build_shr_record m r s)
    /\ tracks K R r s.
Proof.
  intros HK HR. unfold new_location.
  destruct (Z.even K) eqn:EK; unfold new_location_even, new_location_odd;
    destruct (Z.eqb_spec R 0) as [->|NR];
    try (exists false, false; split; [reflexivity|left; auto]).
  - destruct (Z.compare_spec (2 * R) K).
    + exists true, false. split; [reflexivity|right; right; left; auto].
    + exists false, true. split; [reflexivity|right; left; repeat split; lia].
    + exists true, true. split; [reflexivity|right; right; right; auto].
  - assert (OK : K mod 2 = 1).
    { rewrite Zmod_odd, <- Z.negb_even, EK. reflexivity. }
    pose proof (Z.div_mod K 2 ltac:(lia)) as EK2.
    destruct (Z.compare_spec (2 * R + 1) K).
    + exists false, true. split; [reflexivity|right; left; repeat split; lia].
    + exists false, true. split; [reflexivity|right; left; repeat split; lia].
    + exists true, true. split; [reflexivity|right; right; right; repeat split; lia].
Qed.

(** The shift of [shr] followed by the rounding is the rounding of the
    fraction on the coarser grid. *)
Lemma shr_rne (N K e n : Z) (l : location) (r s : bool) :
  0 < K -> 0 <= N -> 0 <= n ->
  shr_record_of_loc (N / K) l = Build_shr_record (N / K) r s ->
  tracks K (N mod K) r s ->
  exists mrs,
    shr (shr_record_of_loc (N / K) l) e n = (mrs, e + n)
    /\ shr_m mrs = N / (K * 2 ^ n)
    /\ round_nearest_even (shr_m mrs) (loc_of_shr_record mrs) = Py.round_half_even N (K * 2 ^ n).
Proof.
  intros HK HN Hn El L. rewrite El. unfold shr.
  destruct n as [|p|p]; [| |lia].
  - rewrite Z.pow_0_r, Z.mul_1_r, Z.add_0_r. eexists. split; [reflexivity|].
    split; [reflexivity|]. cbn [shr_m]. now apply tracks_rne.
  - rewrite iter_pos_nat.
    destruct (tracks_iter N K (Pos.to_nat p) (N / K) r s HK HN eq_refl L)
      as (r' & s' & E & L').
    rewrite positive_nat_Z in E, L'. rewrite E.
    eexists. split; [reflexivity|]. split; [reflexivity|]. cbn [shr_m].
    apply tracks_rne; [|exact HN|exact L'].
    apply Z.mul_pos_pos; [lia|apply Z.pow_pos_nonneg; lia].
Qed.

(** ** The rounding of fractions *)

Lemma half_even_bounds (N D : Z) : 0 < D -> N / D <= Py.round_half_even N D <= N / D + 1.
Proof.
  intros HD. unfold Py.round_half_even. destruct (_ ?= _); [destruct (Z.even _)| |]; lia.
Qed.

Lemma half_even_mono (N1 N2 D : Z) :
  0 < D -> N1 <= N2 -> Py.round_half_even N1 D <= Py.round_half_even N2 D.
Proof.
  intros HD H.
  pose proof (Z.div_le_mono N1 N2 D HD H) as Q.
  pose proof (half_even_bounds N1 D HD) as B1. pose proof (half_even_bounds N2 D HD) as B2.
  destruct (Z.eq_dec (N1 / D) (N2 / D)) as [E|E]; [|lia].
  pose proof (Z.div_mod N1 D ltac:(lia)) as E1.
  pose proof (Z.div_mod N2 D ltac:(lia)) as E2.
  assert (R : N1 mod D <= N2 mod D) by nia.
  unfold Py.round_half_even. rewrite E.
  destruct (Z.compare_spec (2 * (N1 mod D)) D), (Z.compare_spec (2 * (N2 mod D)) D);
    try lia; destruct (Z.even (N2 / D)); lia.
Qed.

Lemma half_even_exact (q D : Z) : 0 < D -> Py.round_half_even (q * D) D = q.
Proof.
  intros HD. unfold Py.round_half_even. rewrite Z.div_mul, Z.mod_mul by lia.
  destruct (Z.compare_spec (2 * 0) D); lia.
Qed.

Lemma half_even_scale (N D c : Z) :
  0 < D -> 0 < c -> Py.round_half_even (N * c) (D * c) = Py.round_half_even N D.
Proof.
  intros HD Hc. unfold Py.round_half_even.
  rewrite Z.div_mul_cancel_r, Z.mul_mod_distr_r by lia.
  destruct (Z.compare_spec (2 * (N mod D)) D), (Z.compare_spec (2 * (N mod D * c)) (D * c));
    try reflexivity; nia.
Qed.

Lemma half_even_small (N D : Z) : 0 <= N -> 2 * N < D -> Py.round_half_even N D = 0.
Proof.
  intros HN H. unfold Py.round_half_even. rewrite Z.div_small, Z.mod_small by lia.
  destruct (Z.compare_spec (2 * N) D); lia.
Qed.

Lemma half_even_nonneg (N D : Z) : 0 < D -> 0 <= N -> 0 <= Py.round_half_even N D.
Proof.
  intros HD HN. pose proof (half_even_bounds N D HD). pose proof (Z.div_pos N D HN HD). lia.
Qed.

(** ** The number of digits *)

Lemma digits2_size (p : positive) : digits2_pos p = Pos.size p.
Proof. induction p as [p IH|p IH|]; cbn; congruence. Qed.

Lemma digits_log2 (m : Z) : 0 < m -> Zdigits2 m = Z.log2 m + 1.
Proof.
  destruct m as [|p|p]; try lia. intros _. cbn [Zdigits2]. rewrite digits2_size.
  destruct p; cbn [Z.log2 Pos.size]; lia.
Qed.

Lemma digits_spec (m : Z) : 0 < m -> 2 ^ (Zdigits2 m - 1) <= m < 2 ^ Zdigits2 m.
Proof.
  intros H. rewrite digits_log2 by exact H.
  replace (Z.log2 m + 1 - 1) with (Z.log2 m) by lia.
  replace (Z.log2 m + 1) with (Z.succ (Z.log2 m)) by lia.
  apply Z.log2_spec, H.
Qed.

Lemma digits_pos (m : Z) : 0 < m -> 0 < Zdigits2 m.
Proof. intros H. rewrite digits_log2 by exact H. pose proof (Z.log2_nonneg m). lia. Qed.

Lemma digits_unique (m d : Z) : 2 ^ (d - 1) <= m < 2 ^ d -> 0 < d -> Zdigits2 m = d.
Proof.
  intros H Hd. assert (0 < m) by (pose proof (Z.pow_pos_nonneg 2 (d - 1)); lia).
  rewrite digits_log2 by assumption.
  rewrite (Z.log2_unique m (d - 1)); [lia|lia|].
  now replace (Z.succ (d - 1)) with d by lia.
Qed.

Lemma digits_mono (a b : Z) : 0 <= a <= b -> Zdigits2 a <= Zdigits2 b.
Proof.
  intros H. destruct (Z.eq_dec a 0) as [->|Na].
  - destruct (Z.eq_dec b 0) as [->|Nb]; [reflexivity|].
    pose proof (digits_pos b ltac:(lia)). cbn. lia.
  - rewrite !digits_log2 by lia. pose proof (Z.log2_le_mono a b ltac:(lia)). lia.
Qed.

Lemma digits_pow2 (k : Z) : 0 <= k -> Zdigits2 (2 ^ k) = k + 1.
Proof.
  intros H. rewrite digits_log2 by (apply Z.pow_pos_nonneg; lia).
  now rewrite Z.log2_pow2.
Qed.

Lemma digits_lt (m d : Z) : 0 <= m -> 0 <= d -> m < 2 ^ d -> Zdigits2 m <= d.
Proof.
  intros Hm Hd H. destruct (Z.eq_dec m 0) as [->|N]; [cbn; lia|].
  pose proof (digits_spec m ltac:(lia)) as [L _].
  destruct (Z.le_gt_cases (Zdigits2 m) d) as [|G]; [assumption|exfalso].
  assert (2 ^ d <= 2 ^ (Zdigits2 m - 1)) by (apply Z.pow_le_mono_r; lia). lia.
Qed.

Lemma digits_ge (m d : Z) : 0 <= d -> 2 ^ d <= m -> d + 1 <= Zdigits2 m.
Proof.
  intros Hd H. assert (0 < m) by (pose proof (Z.pow_pos_nonneg 2 d); lia).
  pose proof (digits_spec m ltac:(lia)) as [_ U].
  destruct (Z.le_gt_cases (d + 1) (Zdigits2 m)) as [|G]; [assumption|exfalso].
  assert (2 ^ Zdigits2 m <= 2 ^ d) by (apply Z.pow_le_mono_r; lia). lia.
Qed.

(** ** The result of [binary_round_aux] *)

Lemma fexp_eq (x : Z) : fexp prec emax x = Z.max (x - 53) (-1074).
Proof. reflexivity. Qed.

Lemma canon_rounded (sx : bool) (M g : Z) :
  0 <= M <= 2 ^ 53 -> -1074 <= g ->
  (let '(mrs, e') := shr_fexp prec emax M g loc_Exact in
   match shr_m mrs with
   | Z0 => S754_zero sx
   | Z.pos m => if e' <=? emax - prec then S754_finite sx m e' else S754_infinity sx
   | Z.neg _ => S754_nan
   end)
  = rounded sx M g.
Proof.
  intros HM Hg. unfold shr_fexp. rewrite fexp_eq. cbn [shr_record_of_loc].
  destruct (Z.eq_dec M 0) as [->|N0].
  { cbn [Zdigits2]. unfold shr.
    destruct (Z.max (0 + g - 53) (-1074) - g) eqn:E; try reflexivity. lia. }
  destruct (Z.eq_dec M (2 ^ 53)) as [->|N1].
  { rewrite digits_pow2 by lia.
    replace (Z.max (53 + 1 + g - 53) (-1074) - g) with 1 by lia.
    unfold shr. cbn [iter_pos]. rewrite shr_1_nonneg by lia.
    change (2 ^ 53 / 2) with (Z.pos (2 ^ 52)). cbn [shr_m].
    unfold rounded. change (2 ^ 53 =? 2 ^ 53) with true. cbv iota.
    change (2 ^ 53) with (Z.pos (2 ^ 53)). cbv iota. reflexivity. }
  pose proof (digits_lt M 53 ltac:(lia) ltac:(lia) ltac:(lia)) as D.
  unfold shr. destruct M as [|m|m]; try lia.
  destruct (Z.max (Zdigits2 (Z.pos m) + g - 53) (-1074) - g) eqn:E; try lia;
    cbn [shr_m]; unfold rounded;
    destruct (Z.eqb_spec (Z.pos m) (2 ^ 53)); try contradiction; reflexivity.
Qed.

Lemma half_even_range (N K e : Z) :
  0 < K -> 0 <= N ->
  let g := fexp prec emax (Zdigits2 (N / K) + e) in
  e <= g ->
  0 <= Py.round_half_even N (K * 2 ^ (g - e)) <= 2 ^ 53
  /\ (-1074 < g -> 2 ^ 52 <= Py.round_half_even N (K * 2 ^ (g - e))).
Proof.
  intros HK HN g Hg.
  assert (HD : 0 < K * 2 ^ (g - e)) by (apply Z.mul_pos_pos; [lia|apply Z.pow_pos_nonneg; lia]).
  pose proof (Z.div_pos N K HN HK) as Hq.
  pose proof (Z.div_mod N K ltac:(lia)) as EN.
  pose proof (Z.mod_pos_bound N K HK) as BN.
  set (d := Zdigits2 (N / K)) in *.
  assert (Hd0 : 0 <= d).
  { unfold d. destruct (Z.eq_dec (N / K) 0) as [->|]; [cbn; lia|].
    pose proof (digits_pos (N / K) ltac:(lia)). lia. }
  assert (U : N / K < 2 ^ d).
  { unfold d. destruct (Z.eq_dec (N / K) 0) as [->|]; [cbn; lia|].
    apply digits_spec. lia. }
  assert (UN : N < 2 ^ d * K) by nia.
  split; [split; [now apply half_even_nonneg|]|].
  - destruct (Z.le_gt_cases (g - e) d) as [C|C].
    + assert (P : 2 ^ d = 2 ^ (d - (g - e)) * 2 ^ (g - e))
        by (rewrite <- Z.pow_add_r by lia; f_equal; lia).
      assert (Q : N / (K * 2 ^ (g - e)) < 2 ^ (d - (g - e))).
      { apply Z.div_lt_upper_bound; [lia|]. nia. }
      pose proof (half_even_bounds N (K * 2 ^ (g - e)) HD) as B.
      assert (2 ^ (d - (g - e)) <= 2 ^ 53)
        by (apply Z.pow_le_mono_r; [lia|]; unfold g; rewrite fexp_eq; fold d; lia).
      lia.
    + rewrite half_even_small; [lia|lia|].
      assert (P : 2 ^ (g - e) = 2 * 2 ^ (g - e - 1))
        by (rewrite <- Z.pow_succ_r by lia; f_equal; lia).
      assert (2 ^ d <= 2 ^ (g - e - 1)) by (apply Z.pow_le_mono_r; lia).
      nia.
  - intros G.
    assert (Eg : g = d + e - 53) by (unfold g in *; rewrite fexp_eq in *; fold d in G |- *; lia).
    assert (Hd : 53 <= d) by lia.
    assert (Lq : 2 ^ (d - 1) <= N / K).
    { unfold d. apply digits_spec.
      destruct (Z.eq_dec (N / K) 0) as [E0|]; [|lia].
      unfold d in Hd. rewrite E0 in Hd. cbn in Hd. lia. }
    assert (P : 2 ^ (d - 1) = 2 ^ 52 * 2 ^ (g - e))
      by (rewrite <- Z.pow_add_r by lia; f_equal; lia).
    pose proof (half_even_bounds N (K * 2 ^ (g - e)) HD) as B.
    assert (2 ^ 52 <= N / (K * 2 ^ (g - e))); [|lia].
    apply Z.div_le_lower_bound; [lia|]. nia.
Qed.

Lemma bra_round_at (sx : bool) (N K e : Z) (l : location) (r s : bool) :
  0 < K -> 0 <= N ->
  shr_record_of_loc (N / K) l = Build_shr_record (N / K) r s ->
  tracks K (N mod K) r s ->
  e <= fexp prec emax (Zdigits2 (N / K) + e) ->
  binary_round_aux prec emax sx (N / K) e l = round_at sx N K e.
Proof.
  intros HK HN El L Hg. unfold round_at.
  set (g := fexp prec emax (Zdigits2 (N / K) + e)) in *.
  assert (Gm : -1074 <= g) by (unfold g; rewrite fexp_eq; lia).
  unfold binary_round_aux.
  destruct (shr_rne N K e (g - e) l r s HK HN ltac:(lia) El L) as (mrs & Es & Em & Er).
  unfold shr_fexp. fold g. rewrite Es, Er.
  replace (e + (g - e)) with g by lia.
  apply canon_rounded; [apply (half_even_range N K e HK HN Hg)|exact Gm].
Qed.

Lemma div_lt_iff (N K z : Z) : 0 < K -> (N / K < z <-> N < K * z).
Proof.
  intros HK. pose proof (Z.div_mod N K ltac:(lia)). pose proof (Z.mod_pos_bound N K HK).
  split; intros; nia.
Qed.

Lemma div_ge_iff (N K z : Z) : 0 < K -> (z <= N / K <-> K * z <= N).
Proof.
  intros HK. pose proof (div_lt_iff N K z HK). lia.
Qed.

Lemma digits_scaled (N K k : Z) :
  0 < K -> 0 <= k -> 1 <= N / K ->
  Zdigits2 (N * 2 ^ k / K) = Zdigits2 (N / K) + k.
Proof.
  intros HK Hk Hq.
  pose proof (digits_spec (N / K) ltac:(lia)) as [L U].
  pose proof (digits_pos (N / K) ltac:(lia)) as P.
  set (d := Zdigits2 (N / K)) in *.
  apply div_ge_iff in L; [|exact HK]. apply div_lt_iff in U; [|exact HK].
  assert (P2 : 0 < 2 ^ k) by (apply Z.pow_pos_nonneg; lia).
  apply digits_unique; [|lia]. split.
  - apply div_ge_iff; [exact HK|].
    replace (d + k - 1) with (d - 1 + k) by lia. rewrite Z.pow_add_r by lia. nia.
  - apply div_lt_iff; [exact HK|]. rewrite Z.pow_add_r by lia. nia.
Qed.

Lemma grid_scaled (N K e k : Z) :
  0 < K -> 0 <= N -> 0 <= k ->
  e <= fexp prec emax (Zdigits2 (N / K) + e) ->
  fexp prec emax (Zdigits2 (N * 2 ^ k / K) + (e - k))
  = fexp prec emax (Zdigits2 (N / K) + e).
Proof.
  intros HK HN Hk Hg.
  pose proof (Z.div_pos N K HN HK) as Hq.
  destruct (Z.eq_dec (N / K) 0) as [E0|N0].
  - rewrite !fexp_eq in *. rewrite E0 in Hg. cbn [Zdigits2] in Hg. rewrite E0.
    cbn [Zdigits2].
    assert (P2 : 0 < 2 ^ k) by (apply Z.pow_pos_nonneg; lia).
    assert (N < K) by (pose proof (div_lt_iff N K 1 HK); lia).
    assert (Q : N * 2 ^ k / K < 2 ^ k) by (apply div_lt_iff; [exact HK|nia]).
    assert (0 <= N * 2 ^ k / K) by (apply Z.div_pos; nia).
    pose proof (digits_lt (N * 2 ^ k / K) k ltac:(lia) Hk Q). lia.
  - rewrite digits_scaled by lia. f_equal. lia.
Qed.

Lemma round_at_scaled (sx : bool) (N K e k : Z) :
  0 < K -> 0 <= N -> 0 <= k ->
  e <= fexp prec emax (Zdigits2 (N / K) + e) ->
  round_at sx (N * 2 ^ k) K (e - k) = round_at sx N K e.
Proof.
  intros HK HN Hk Hg. unfold round_at. rewrite grid_scaled by assumption.
  set (g := fexp prec emax (Zdigits2 (N / K) + e)) in *.
  f_equal.
  replace (g - (e - k)) with (g - e + k) by lia.
  rewrite Z.pow_add_r, Z.mul_assoc by lia.
  apply half_even_scale; [|apply Z.pow_pos_nonneg; lia].
  apply Z.mul_pos_pos; [lia|apply Z.pow_pos_nonneg; lia].
Qed.

(** ** Order of rounded values *)

Lemma finite_le (m1 m2 : positive) (e1 e2 : Z) :
  e1 < e2 \/ (e1 = e2 /\ Z.pos m1 <= Z.pos m2) ->
  SFleb (S754_finite false m1 e1) (S754_finite false m2 e2) = true
  /\ SFleb (S754_finite true m2 e2) (S754_finite true m1 e1) = true.
Proof.
  intros H. unfold SFleb, SFcompare.
  change (Pcompare m1 m2 Eq) with (Pos.compare m1 m2).
  change (Pcompare m2 m1 Eq) with (Pos.compare m2 m1).
  rewrite (Z.compare_antisym e1 e2), (Pos.compare_antisym m1 m2).
  destruct (Z.compare_spec e1 e2); cbn [CompOpp]; try (split; reflexivity); try lia.
  destruct (Pos.compare_spec m1 m2); cbn [CompOpp]; try (split; reflexivity); lia.
Qed.

Lemma rounded_le (M1 g1 M2 g2 : Z) :
  0 <= M1 <= 2 ^ 53 -> 0 <= M2 <= 2 ^ 53 ->
  (g1 < g2 /\ 2 ^ 52 <= M2) \/ (g1 = g2 /\ M1 <= M2) ->
  SFleb (rounded false M1 g1) (rounded false M2 g2) = true
  /\ SFleb (rounded true M2 g2) (rounded true M1 g1) = true.
Proof.
  intros H1 H2 H. unfold rounded.
  assert (P : Z.pos (2 ^ 52) = 2 ^ 52) by reflexivity.
  generalize dependent (2 ^ 52)%positive. intros p52 P.
  destruct M1 as [|m1|m1]; [| |lia];
    (destruct M2 as [|m2|m2]; [| |lia]).
  - split; reflexivity.
  - split; destruct (_ =? _); destruct (_ <=? _); reflexivity.
  - lia.
  - destruct (Z.eqb_spec (Z.pos m1) (2 ^ 53)) as [E1|E1];
      destruct (Z.eqb_spec (Z.pos m2) (2 ^ 53)) as [E2|E2];
      repeat match goal with
        | |- context [?a <=? ?b] => destruct (Z.leb_spec a b)
        end;
      try (exfalso; lia); try (split; reflexivity);
      apply finite_le; lia.
Qed.

Lemma round_at_mono (N1 N2 K c : Z) :
  0 < K -> 0 <= N1 <= N2 ->
  c <= fexp prec emax (Zdigits2 (N1 / K) + c) ->
  SFleb (round_at false N1 K c) (round_at false N2 K c) = true
  /\ SFleb (round_at true N2 K c) (round_at true N1 K c) = true.
Proof.
  intros HK HN Hg. unfold round_at.
  assert (Q : 0 <= N1 / K <= N2 / K).
  { split; [apply Z.div_pos; lia|apply Z.div_le_mono; lia]. }
  pose proof (digits_mono _ _ Q) as D.
  set (g1 := fexp prec emax (Zdigits2 (N1 / K) + c)) in *.
  set (g2 := fexp prec emax (Zdigits2 (N2 / K) + c)) in *.
  assert (G : g1 <= g2) by (unfold g1, g2; rewrite !fexp_eq; lia).
  destruct (half_even_range N1 K c HK ltac:(lia) Hg) as [R1 _].
  destruct (half_even_range N2 K c HK ltac:(lia) ltac:(fold g2; lia)) as [R2 B2].
  fold g1 in R1. fold g2 in R2, B2.
  apply rounded_le; [exact R1|exact R2|].
  destruct (Z.eq_dec g1 g2) as [E|E].
  - right. split; [exact E|]. rewrite E. apply half_even_mono; [|lia].
    apply Z.mul_pos_pos; [lia|apply Z.pow_pos_nonneg; lia].
  - left. split; [lia|]. apply B2. unfold g1 in *. rewrite fexp_eq in G, E. lia.
Qed.

Lemma rounded_valid (sx : bool) (M g : Z) :
  0 <= M <= 2 ^ 53 -> -1074 <= g -> (-1074 < g -> 2 ^ 52 <= M) ->
  valid_binary (rounded sx M g) = true.
Proof.
  intros HM Hg B. unfold rounded. destruct M as [|m|m]; [reflexivity| |lia].
  destruct (Z.eqb_spec (Z.pos m) (2 ^ 53)) as [E|E].
  - destruct (Z.leb_spec (g + 1) 971); [|reflexivity].
    unfold valid_binary; cbn [SpecFloat.valid_binary]. unfold bounded, canonical_mantissa.
    change (Z.pos (digits2_pos (2 ^ 52))) with 53. rewrite fexp_eq.
    apply andb_true_iff. split; [|apply Z.leb_le; assumption].
    apply Zeq_bool_eq_iff || apply Z.eqb_eq. lia.
  - destruct (Z.leb_spec g 971); [|reflexivity].
    unfold valid_binary; cbn [SpecFloat.valid_binary]. unfold bounded, canonical_mantissa.
    change (Z.pos (digits2_pos m)) with (Zdigits2 (Z.pos m)). rewrite fexp_eq.
    apply andb_true_iff. split; [|apply Z.leb_le; assumption].
    pose proof (digits_lt (Z.pos m) 53 ltac:(lia) ltac:(lia) ltac:(lia)) as D.
    assert (-1074 < g -> 53 <= Zdigits2 (Z.pos m)).
    { intros G. apply (digits_ge (Z.pos m) 52); [lia|auto]. }
    apply Z.eqb_eq. lia.
Qed.

Lemma round_at_valid (sx : bool) (N K c : Z) :
  0 < K -> 0 <= N -> c <= fexp prec emax (Zdigits2 (N / K) + c) ->
  valid_binary (round_at sx N K c) = true.
Proof.
  intros HK HN Hg. unfold round_at.
  destruct (half_even_range N K c HK HN Hg) as [R B].
  apply rounded_valid; [exact R|rewrite fexp_eq; lia|exact B].
Qed.

(** ** Canonical floats *)

Lemma bounded_spec (m : positive) (e : Z) :
  bounded prec emax m e = true
  <-> (Zdigits2 (Z.pos m) <= 53 /\ -1074 <= e <= 971
       /\ (e = -1074 \/ Zdigits2 (Z.pos m) = 53)).
Proof.
  unfold bounded, canonical_mantissa.
  change (Z.pos (digits2_pos m)) with (Zdigits2 (Z.pos m)). rewrite fexp_eq.
  rewrite andb_true_iff, Z.leb_le.
  change (emax - prec) with 971.
  pose proof (digits_pos (Z.pos m) ltac:(lia)).
  split.
  - intros [E L]. apply Z.eqb_eq in E. lia.
  - intros H'. split; [apply Z.eqb_eq|]; lia.
Qed.

Lemma round_at_canonical (sx : bool) (m : positive) (e : Z) :
  bounded prec emax m e = true ->
  round_at sx (Z.pos m) 1 e = S754_finite sx m e.
Proof.
  intros B. apply bounded_spec in B. destruct B as (D & E & C).
  unfold round_at. rewrite Z.div_1_r.
  assert (G : fexp prec emax (Zdigits2 (Z.pos m) + e) = e) by (rewrite fexp_eq; lia).
  rewrite G, Z.sub_diag. change (1 * 2 ^ 0) with 1.
  replace (Py.round_half_even (Z.pos m) 1) with (Z.pos m)
    by (symmetry; rewrite <- (Z.mul_1_r (Z.pos m)) at 1; apply half_even_exact; lia).
  unfold rounded.
  assert (Z.pos m < 2 ^ 53).
  { pose proof (digits_spec (Z.pos m) ltac:(lia)) as [_ U].
    assert (2 ^ Zdigits2 (Z.pos m) <= 2 ^ 53) by (apply Z.pow_le_mono_r; lia). lia. }
  destruct (Z.eqb_spec (Z.pos m) (2 ^ 53)); [lia|].
  destruct (Z.leb_spec e 971); [reflexivity|lia].
Qed.

Lemma bra_exact (sx : bool) (N e : Z) :
  0 <= N -> e <= fexp prec emax (Zdigits2 N + e) ->
  binary_round_aux prec emax sx N e loc_Exact = round_at sx N 1 e.
Proof.
  intros HN Hg.
  rewrite <- (Z.div_1_r N) at 1.
  apply (@bra_round_at sx N 1 e loc_Exact false false); try lia.
  - reflexivity.
  - apply tracks_exact.
  - now rewrite Z.div_1_r.
Qed.

Lemma shift_pos_pow (d p : positive) : Z.pos (shift_pos d p) = Z.pos p * 2 ^ Z.pos d.
Proof. rewrite shift_pos_correct, Z.pow_pos_fold. lia. Qed.

Lemma digits_shift (p : positive) (k : Z) :
  0 <= k -> Zdigits2 (Z.pos p * 2 ^ k) = Zdigits2 (Z.pos p) + k.
Proof.
  intros Hk. pose proof (digits_scaled (Z.pos p) 1 k ltac:(lia) Hk) as H.
  rewrite !Z.div_1_r in H. apply H. lia.
Qed.

Lemma round_at_units (sx : bool) (N e c : Z) :
  0 <= N -> c <= e -> e <= fexp prec emax (Zdigits2 N + e) ->
  round_at sx N 1 e = round_at sx (N * 2 ^ (e - c)) 1 c.
Proof.
  intros HN Hc Hg.
  replace c with (e - (e - c)) at 2 by lia.
  symmetry. apply round_at_scaled; try lia. now rewrite Z.div_1_r.
Qed.

Lemma binary_round_at (sx : bool) (p : positive) (e c : Z) :
  c <= e -> c <= -1074 ->
  binary_round prec emax sx p e = round_at sx (Z.pos p * 2 ^ (e - c)) 1 c.
Proof.
  intros Hc Hm. unfold binary_round, shl_align.
  change (Z.pos (digits2_pos p)) with (Zdigits2 (Z.pos p)).
  set (g := fexp prec emax (Zdigits2 (Z.pos p) + e)).
  assert (G : -1074 <= g) by (unfold g; rewrite fexp_eq; lia).
  destruct (g - e) as [|d|d] eqn:E.
  - rewrite bra_exact by (fold g; lia). apply round_at_units; fold g; lia.
  - rewrite bra_exact by (fold g; lia). apply round_at_units; fold g; lia.
  - assert (Ed : Z.pos d = e - g) by lia.
    change (Pos.iter xO p d) with (shift_pos d p).
    rewrite bra_exact; [|lia|].
    + rewrite (@round_at_units sx _ g c); [|lia|lia|].
      * f_equal. rewrite shift_pos_pow, Ed, <- Z.mul_assoc, <- Z.pow_add_r by lia.
        do 2 f_equal. lia.
      * rewrite shift_pos_pow, digits_shift by lia.
        rewrite Ed. replace (Zdigits2 (Z.pos p) + (e - g) + g) with (Zdigits2 (Z.pos p) + e) by lia.
        fold g. lia.
    + rewrite shift_pos_pow, digits_shift by lia.
      rewrite Ed. replace (Zdigits2 (Z.pos p) + (e - g) + g) with (Zdigits2 (Z.pos p) + e) by lia.
      fold g. lia.
Qed.

Lemma half_even_zero (D : Z) : 0 <= D -> Py.round_half_even 0 D = 0.
Proof.
  intros H. unfold Py.round_half_even. rewrite Zdiv_0_l, Zmod_0_l.
  destruct (Z.compare_spec (2 * 0) D); try reflexivity. lia.
Qed.

Lemma round_at_zero (sx : bool) (K c : Z) : 0 < K -> round_at sx 0 K c = S754_zero sx.
Proof.
  intros HK. unfold round_at. rewrite half_even_zero; [reflexivity|].
  apply Z.mul_nonneg_nonneg; [lia|apply Z.pow_nonneg; lia].
Qed.

Lemma normalize_round_units (S e c : Z) (sz : bool) :
  c <= e -> c <= -1074 ->
  same_value (binary_normalize prec emax S e sz) (round_units c (S * 2 ^ (e - c))).
Proof.
  intros Hc Hm. assert (P : 0 < 2 ^ (e - c)) by (apply Z.pow_pos_nonneg; lia).
  unfold binary_normalize, round_units. destruct S as [|p|p].
  - right. exists sz, false. split; [reflexivity|].
    cbn [Z.mul Z.ltb Z.compare]. now apply round_at_zero.
  - left. destruct (Z.ltb_spec (Z.pos p * 2 ^ (e - c)) 0); [lia|].
    now apply binary_round_at.
  - left. destruct (Z.ltb_spec (Z.neg p * 2 ^ (e - c)) 0); [|lia].
    replace (- (Z.neg p * 2 ^ (e - c))) with (Z.pos p * 2 ^ (e - c)) by lia.
    now apply binary_round_at.
Qed.

Lemma round_units_mono (c T1 T2 : Z) :
  c <= -1074 -> T1 <= T2 ->
  SFleb (round_units c T1) (round_units c T2) = true.
Proof.
  intros Hc H. unfold round_units.
  assert (G : forall N, c <= fexp prec emax (Zdigits2 (N / 1) + c))
    by (intros N; rewrite fexp_eq; lia).
  destruct (Z.ltb_spec T1 0), (Z.ltb_spec T2 0); try lia.
  - apply (round_at_mono (- T2) (- T1) 1 c); [lia|lia|apply G].
  - assert (A : SFleb (round_at true (- T1) 1 c) (S754_zero false) = true).
    { unfold round_at, rounded. destruct (Py.round_half_even _ _); try reflexivity.
      destruct (_ =? _); destruct (_ <=? _); reflexivity. }
    unfold round_at at 2. unfold rounded at 1.
    unfold round_at in A |- *. unfold rounded in A |- *.
    destruct (Py.round_half_even (- T1) _); destruct (Py.round_half_even T2 _); try reflexivity;
      repeat (destruct (_ =? _)); repeat (destruct (_ <=? _)); try reflexivity.
  - apply (round_at_mono T1 T2 1 c); [lia|lia|apply G].
Qed.

Lemma same_value_refl (x : spec_float) : same_value x x.
Proof. now left. Qed.

Lemma SFcompare_same (x x' y y' : spec_float) :
  same_value x x' -> same_value y y' -> SFcompare x y = SFcompare x' y'.
Proof.
  intros [->|(s & s' & -> & ->)] [->|(t & t' & -> & ->)]; reflexivity.
Qed.

Lemma SFleb_same (x x' y y' : spec_float) :
  same_value x x' -> same_value y y' -> SFleb x y = SFleb x' y'.
Proof. intros H1 H2. unfold SFleb. now rewrite (SFcompare_same _ _ _ _ H1 H2). Qed.

Lemma SFltb_same (x x' y y' : spec_float) :
  same_value x x' -> same_value y y' -> SFltb x y = SFltb x' y'.
Proof. intros H1 H2. unfold SFltb. now rewrite (SFcompare_same _ _ _ _ H1 H2). Qed.

Lemma canonical_range (m : positive) (e : Z) :
  bounded prec emax m e = true ->
  0 < Z.pos m < 2 ^ 53 /\ -1074 <= e <= 971 /\ (-1074 < e -> 2 ^ 52 <= Z.pos m).
Proof.
  intros B. apply bounded_spec in B. destruct B as (D & E & C).
  pose proof (digits_spec (Z.pos m) ltac:(lia)) as [L U].
  assert (2 ^ Zdigits2 (Z.pos m) <= 2 ^ 53) by (apply Z.pow_le_mono_r; lia).
  split; [lia|]. split; [lia|]. intros G.
  destruct C as [C|C]; [lia|]. rewrite C in L. exact L.
Qed.

Lemma canonical_lt (m1 m2 : positive) (e1 e2 : Z) :
  bounded prec emax m1 e1 = true -> bounded prec emax m2 e2 = true -> e1 < e2 ->
  Z.pos m1 * 2 ^ (e1 + 1074) < Z.pos m2 * 2 ^ (e2 + 1074).
Proof.
  intros B1 B2 H.
  destruct (canonical_range _ _ B1) as (R1 & E1 & _).
  destruct (canonical_range _ _ B2) as (R2 & E2 & N2).
  specialize (N2 ltac:(lia)).
  replace (e2 + 1074) with (e2 - e1 + (e1 + 1074)) by lia.
  rewrite (Z.pow_add_r 2 (e2 - e1) (e1 + 1074)) by lia.
  assert (P : 0 < 2 ^ (e1 + 1074)) by (apply Z.pow_pos_nonneg; lia).
  assert (Q : 2 ^ 1 <= 2 ^ (e2 - e1)) by (apply Z.pow_le_mono_r; lia).
  change (2 ^ 1) with 2 in Q.
  set (P' := 2 ^ (e1 + 1074)) in *. set (Q' := 2 ^ (e2 - e1)) in *.
  assert (A : Z.pos m1 * P' < 2 ^ 53 * P') by (apply Z.mul_lt_mono_pos_r; lia).
  assert (B : 2 ^ 53 <= Z.pos m2 * Q') by nia.
  assert (C : 2 ^ 53 * P' <= Z.pos m2 * Q' * P') by (apply Z.mul_le_mono_nonneg_r; lia).
  lia.
Qed.

Lemma compare_units (a b : spec_float) :
  valid_binary a = true -> valid_binary b = true ->
  is_real a = true -> is_real b = true ->
  SFcompare a b = Some (units a ?= units b).
Proof.
  intros Va Vb Ra Rb.
  destruct a as [sa| | |sa ma ea]; try discriminate;
    destruct b as [sb| | |sb mb eb]; try discriminate; cbn [SFcompare units].
  - reflexivity.
  - assert (0 < Z.pos mb * 2 ^ (eb + 1074)).
    { apply Z.mul_pos_pos; [lia|apply Z.pow_pos_nonneg; lia || idtac].
      destruct (canonical_range _ _ Vb) as (_ & E & _). lia. }
    destruct sb; cbn [cond_Zopp]; f_equal; symmetry;
      [apply Z.compare_gt_iff|apply Z.compare_lt_iff]; lia.
  - assert (0 < Z.pos ma * 2 ^ (ea + 1074)).
    { apply Z.mul_pos_pos; [lia|apply Z.pow_pos_nonneg; lia || idtac].
      destruct (canonical_range _ _ Va) as (_ & E & _). lia. }
    destruct sa; cbn [cond_Zopp]; f_equal; symmetry;
      [apply Z.compare_lt_iff|apply Z.compare_gt_iff]; lia.
  - unfold valid_binary in Va, Vb. cbn [SpecFloat.valid_binary] in Va, Vb.
    destruct (canonical_range _ _ Va) as (Ma & Ea & _).
    destruct (canonical_range _ _ Vb) as (Mb & Eb & _).
    assert (Pa : 0 < 2 ^ (ea + 1074)) by (apply Z.pow_pos_nonneg; lia).
    assert (Pb : 0 < 2 ^ (eb + 1074)) by (apply Z.pow_pos_nonneg; lia).
    assert (C : (Z.pos ma * 2 ^ (ea + 1074) ?= Z.pos mb * 2 ^ (eb + 1074))
                = match ea ?= eb with
                  | Lt => Lt
                  | Gt => Gt
                  | Eq => Pos.compare_cont Eq ma mb
                  end).
    { destruct (Z.compare_spec ea eb) as [E|L|G].
      - subst eb. change (Pos.compare_cont Eq ma mb) with (Z.pos ma ?= Z.pos mb).
        symmetry. apply Zmult_compare_compat_r. lia.
      - apply Z.compare_lt_iff. now apply canonical_lt.
      - apply Z.compare_gt_iff. now apply canonical_lt. }
    f_equal. destruct sa, sb; cbn [cond_Zopp].
    + rewrite Z.compare_opp.
      rewrite (Z.compare_antisym (Z.pos ma * 2 ^ (ea + 1074)) (Z.pos mb * 2 ^ (eb + 1074))).
      rewrite C. destruct (ea ?= eb); reflexivity.
    + symmetry. apply Z.compare_lt_iff. lia.
    + symmetry. apply Z.compare_gt_iff. lia.
    + now rewrite C.
Qed.

Lemma real_round_units (a : spec_float) :
  valid_binary a = true -> is_real a = true ->
  same_value a (round_units (-1074) (units a)).
Proof.
  intros Va Ra. destruct a as [s| | |s m e]; try discriminate.
  - right. exists s, false. split; [reflexivity|]. now apply round_at_zero.
  - left. unfold valid_binary in Va. cbn [SpecFloat.valid_binary] in Va.
    destruct (canonical_range _ _ Va) as (M & E & _).
    assert (P : 0 < 2 ^ (e + 1074)) by (apply Z.pow_pos_nonneg; lia).
    assert (G : e <= fexp prec emax (Zdigits2 (Z.pos m) + e)).
    { apply bounded_spec in Va. rewrite fexp_eq. lia. }
    unfold round_units, units.
    assert (R : forall sx, round_at sx (Z.pos m * 2 ^ (e + 1074)) 1 (-1074)
                           = S754_finite sx m e).
    { intros sx. rewrite <- (round_at_canonical sx m e Va).
      rewrite (round_at_units sx (Z.pos m) e (-1074)); [|lia|lia|exact G].
      do 2 f_equal. }
    destruct s; cbn [cond_Zopp].
    + destruct (Z.ltb_spec (- (Z.pos m * 2 ^ (e + 1074))) 0); [|lia].
      rewrite Z.opp_involutive. now rewrite R.
    + destruct (Z.ltb_spec (Z.pos m * 2 ^ (e + 1074)) 0); [lia|]. now rewrite R.
Qed.

Lemma shl_align_units (m : positive) (e ez : Z) :
  ez <= e -> Z.pos (fst (shl_align m e ez)) = Z.pos m * 2 ^ (e - ez).
Proof.
  intros H. unfold shl_align. destruct (ez - e) as [|d|d] eqn:E; cbn [fst].
  - replace (e - ez) with 0 by lia. lia.
  - lia.
  - change (Pos.iter xO m d) with (shift_pos d m). rewrite shift_pos_pow.
    do 2 f_equal. lia.
Qed.

Lemma units_aligned (s : bool) (m : positive) (e ez : Z) :
  -1074 <= ez -> ez <= e ->
  cond_Zopp s (Z.pos (fst (shl_align m e ez))) * 2 ^ (ez + 1074)
  = units (S754_finite s m e).
Proof.
  intros H0 H. rewrite shl_align_units by exact H. cbn [units].
  replace (e + 1074) with (e - ez + (ez + 1074)) by lia.
  rewrite (Z.pow_add_r 2 (e - ez) (ez + 1074)) by lia.
  destruct s; cbn [cond_Zopp]; lia.
Qed.

(** sums, differences and products of real floats *)

Lemma SFadd_units (a b : spec_float) :
  valid_binary a = true -> valid_binary b = true ->
  is_real a = true -> is_real b = true ->
  same_value (SFadd prec emax a b) (round_units (-1074) (units a + units b)).
Proof.
  intros Va Vb Ra Rb.
  destruct a as [sa| | |sa ma ea]; try discriminate;
    destruct b as [sb| | |sb mb eb]; try discriminate.
  - right. exists (if Bool.eqb sa sb then sa else false), false.
    split; [destruct sa, sb; reflexivity|]. now apply round_at_zero.
  - cbn [SFadd]. cbn [units Z.add]. now apply real_round_units.
  - cbn [SFadd]. cbn [units]. rewrite Z.add_0_r. now apply real_round_units.
  - cbn [SFadd]. unfold valid_binary in Va, Vb. cbn [SpecFloat.valid_binary] in Va, Vb.
    destruct (canonical_range _ _ Va) as (_ & Ea & _).
    destruct (canonical_range _ _ Vb) as (_ & Eb & _).
    set (ez := Z.min ea eb).
    rewrite <- (units_aligned sa ma ea ez), <- (units_aligned sb mb eb ez) by lia.
    rewrite <- Z.mul_add_distr_r.
    replace (ez + 1074) with (ez - -1074) by lia.
    apply normalize_round_units; lia.
Qed.

Lemma SFsub_units (a b : spec_float) :
  valid_binary a = true -> valid_binary b = true ->
  is_real a = true -> is_real b = true ->
  same_value (SFsub prec emax a b) (round_units (-1074) (units a - units b)).
Proof.
  intros Va Vb Ra Rb.
  destruct a as [sa| | |sa ma ea]; try discriminate;
    destruct b as [sb| | |sb mb eb]; try discriminate.
  - right. exists (if Bool.eqb sa (negb sb) then sa else false), false.
    split; [destruct sa, sb; reflexivity|]. now apply round_at_zero.
  - cbn [SFsub].
    replace (units (S754_zero sa) - units (S754_finite sb mb eb))
      with (units (S754_finite (negb sb) mb eb))
      by (cbn [units]; destruct sb; cbn [cond_Zopp negb]; lia).
    now apply real_round_units.
  - cbn [SFsub]. cbn [units]. rewrite Z.sub_0_r. now apply real_round_units.
  - cbn [SFsub]. unfold valid_binary in Va, Vb. cbn [SpecFloat.valid_binary] in Va, Vb.
    destruct (canonical_range _ _ Va) as (_ & Ea & _).
    destruct (canonical_range _ _ Vb) as (_ & Eb & _).
    set (ez := Z.min ea eb).
    rewrite <- (units_aligned sa ma ea ez), <- (units_aligned sb mb eb ez) by lia.
    rewrite <- Z.mul_sub_distr_r.
    replace (ez + 1074) with (ez - -1074) by lia.
    apply normalize_round_units; lia.
Qed.

Lemma digits_mul (a b : Z) :
  0 < a -> 0 < b -> Zdigits2 a + Zdigits2 b - 1 <= Zdigits2 (a * b).
Proof.
  intros Ha Hb.
  pose proof (digits_spec a Ha) as [La _]. pose proof (digits_spec b Hb) as [Lb _].
  pose proof (digits_pos a Ha). pose proof (digits_pos b Hb).
  assert (P : 2 ^ (Zdigits2 a + Zdigits2 b - 2) <= a * b).
  { replace (Zdigits2 a + Zdigits2 b - 2) with ((Zdigits2 a - 1) + (Zdigits2 b - 1)) by lia.
    rewrite Z.pow_add_r by lia.
    assert (0 < 2 ^ (Zdigits2 a - 1)) by (apply Z.pow_pos_nonneg; lia).
    assert (0 < 2 ^ (Zdigits2 b - 1)) by (apply Z.pow_pos_nonneg; lia).
    nia. }
  pose proof (digits_ge (a * b) (Zdigits2 a + Zdigits2 b - 2) ltac:(lia) P). lia.
Qed.

Lemma round_units_signed (sx : bool) (c T : Z) :
  0 < T -> round_at sx T 1 c = round_units c (cond_Zopp sx T).
Proof.
  intros H. unfold round_units. destruct sx; cbn [cond_Zopp].
  - destruct (Z.ltb_spec (- T) 0); [|lia]. now rewrite Z.opp_involutive.
  - destruct (Z.ltb_spec T 0); [lia|]. reflexivity.
Qed.

Lemma SFmul_units (a b : spec_float) :
  valid_binary a = true -> valid_binary b = true ->
  is_real a = true -> is_real b = true ->
  same_value (SFmul prec emax a b) (round_units (-2148) (units a * units b)).
Proof.
  intros Va Vb Ra Rb.
  destruct a as [sa| | |sa ma ea]; try discriminate;
    destruct b as [sb| | |sb mb eb]; try discriminate; cbn [SFmul].
  - right. exists (xorb sa sb), false. split; [reflexivity|]. now apply round_at_zero.
  - right. exists (xorb sa sb), false. split; [reflexivity|]. now apply round_at_zero.
  - right. exists (xorb sa sb), false. split; [reflexivity|].
    cbn [units]. rewrite Z.mul_0_r. now apply round_at_zero.
  - left. unfold valid_binary in Va, Vb. cbn [SpecFloat.valid_binary] in Va, Vb.
    pose proof Va as Ba. pose proof Vb as Bb.
    apply bounded_spec in Ba. apply bounded_spec in Bb.
    pose proof (digits_mul (Z.pos ma) (Z.pos mb) ltac:(lia) ltac:(lia)) as D.
    pose proof (digits_pos (Z.pos ma) ltac:(lia)).
    pose proof (digits_pos (Z.pos mb) ltac:(lia)).
    change (Z.pos (ma * mb)) with (Z.pos ma * Z.pos mb).
    assert (G : ea + eb <= fexp prec emax (Zdigits2 (Z.pos ma * Z.pos mb) + (ea + eb)))
      by (rewrite fexp_eq; lia).
    rewrite bra_exact by (lia || exact G).
    rewrite (round_at_units _ _ _ (-2148)); [|lia|lia|exact G].
    assert (Pa : 0 < 2 ^ (ea + 1074)) by (apply Z.pow_pos_nonneg; lia).
    assert (Pb : 0 < 2 ^ (eb + 1074)) by (apply Z.pow_pos_nonneg; lia).
    rewrite round_units_signed.
    + f_equal. cbn [units].
      replace (ea + eb - -2148) with ((ea + 1074) + (eb + 1074)) by lia.
      rewrite Z.pow_add_r by lia.
      destruct sa, sb; cbn [cond_Zopp xorb]; lia.
    + apply Z.mul_pos_pos; [lia|apply Z.pow_pos_nonneg; lia].
Qed.

Lemma SFmul_mono (a b c : spec_float) :
  valid_binary a = true -> valid_binary b = true -> valid_binary c = true ->
  is_real a = true -> is_real b = true -> is_real c = true ->
  SFleb a b = true -> SFleb (S754_zero false) c = true ->
  SFleb (SFmul prec emax a c) (SFmul prec emax b c) = true.
Proof.
  intros Va Vb Vc Ra Rb Rc L Lc.
  rewrite (SFleb_same _ _ _ _ (SFmul_units a c Va Vc Ra Rc) (SFmul_units b c Vb Vc Rb Rc)).
  apply round_units_mono; [lia|].
  unfold SFleb in L, Lc.
  rewrite (compare_units a b Va Vb Ra Rb) in L.
  rewrite (compare_units (S754_zero false) c eq_refl Vc eq_refl Rc) in Lc.
  cbn [units] in Lc.
  assert (units a <= units b)
    by (destruct (Z.compare_spec (units a) (units b)); (lia || discriminate)).
  assert (0 <= units c) by (destruct (Z.compare_spec 0 (units c)); (lia || discriminate)).
  nia.
Qed.

Lemma SFadd_mono (a b c : spec_float) :
  valid_binary a = true -> valid_binary b = true -> valid_binary c = true ->
  is_real a = true -> is_real b = true -> is_real c = true ->
  SFleb a b = true ->
  SFleb (SFadd prec emax a c) (SFadd prec emax b c) = true.
Proof.
  intros Va Vb Vc Ra Rb Rc L.
  rewrite (SFleb_same _ _ _ _ (SFadd_units a c Va Vc Ra Rc) (SFadd_units b c Vb Vc Rb Rc)).
  apply round_units_mono; [lia|].
  unfold SFleb in L. rewrite (compare_units a b Va Vb Ra Rb) in L.
  assert (units a <= units b)
    by (destruct (Z.compare_spec (units a) (units b)); (lia || discriminate)).
  lia.
Qed.

(** the least float above zero is the least result above zero *)
Lemma round_units_pos (T : Z) :
  0 < T -> SFltb (S754_zero false) (round_units (-1074) T) = true.
Proof.
  intros H. unfold round_units. destruct (Z.ltb_spec T 0); [lia|].
  unfold round_at. rewrite Z.div_1_r.
  set (g := fexp prec emax (Zdigits2 T + -1074)).
  assert (G : -1074 <= g) by (unfold g; rewrite fexp_eq; lia).
  destruct (half_even_range T 1 (-1074) ltac:(lia) ltac:(lia)) as [R B].
  { rewrite Z.div_1_r. fold g. exact G. }
  rewrite Z.div_1_r in R, B. fold g in R, B.
  assert (M : 1 <= Py.round_half_even T (1 * 2 ^ (g - -1074))).
  { destruct (Z.eq_dec g (-1074)) as [E|E].
    - rewrite E. change (1 * 2 ^ (-1074 - -1074)) with 1.
      rewrite <- (Z.mul_1_r T) at 1. rewrite half_even_exact; lia.
    - specialize (B ltac:(lia)). lia. }
  unfold rounded. destruct (Py.round_half_even T _) as [|m|m]; try lia.
  destruct (_ =? _); destruct (_ <=? _); reflexivity.
Qed.

Lemma SFsub_pos (a b : spec_float) :
  valid_binary a = true -> valid_binary b = true ->
  is_real a = true -> is_real b = true ->
  SFltb a b = true ->
  SFltb (S754_zero false) (SFsub prec emax b a) = true.
Proof.
  intros Va Vb Ra Rb L.
  rewrite (SFltb_same _ _ _ _ (same_value_refl _) (SFsub_units b a Vb Va Rb Ra)).
  apply round_units_pos.
  unfold SFltb in L. rewrite (compare_units a b Va Vb Ra Rb) in L.
  destruct (Z.compare_spec (units a) (units b)); (lia || discriminate).
Qed.

Lemma SFdiv_finite (sa sb : bool) (ma mb : positive) (ea eb : Z) :
  bounded prec emax ma ea = true -> bounded prec emax mb eb = true ->
  SFdiv prec emax (S754_finite sa ma ea) (S754_finite sb mb eb)
  = round_at (xorb sa sb) (Z.pos ma * 2 ^ (ea - eb + 2148)) (Z.pos mb) (-2148).
Proof.
  intros Ba Bb. pose proof Ba as Ca. pose proof Bb as Cb.
  apply bounded_spec in Ca. apply bounded_spec in Cb.
  pose proof (digits_pos (Z.pos ma) ltac:(lia)) as Da.
  pose proof (digits_pos (Z.pos mb) ltac:(lia)) as Db.
  cbn [SFdiv]. unfold SFdiv_core_binary.
  set (da := Zdigits2 (Z.pos ma)) in *. set (db := Zdigits2 (Z.pos mb)) in *.
  set (e' := Z.min (fexp prec emax (da + ea - (db + eb))) (ea - eb)).
  set (s := ea - eb - e').
  assert (Hs : 0 <= s) by (unfold s, e'; lia).
  set (m' := match s with Z.pos _ => Z.shiftl (Z.pos ma) s | 0 => Z.pos ma | Z.neg _ => 0 end).
  assert (Em : m' = Z.pos ma * 2 ^ s).
  { unfold m'. destruct s as [|p|p]; [lia| |lia]. now rewrite Z.shiftl_mul_pow2. }
  assert (Ps : 0 < 2 ^ s) by (apply Z.pow_pos_nonneg; lia).
  assert (Pm : 0 < m') by (rewrite Em; lia).
  pose proof (Z.div_eucl_eq m' (Z.pos mb) ltac:(lia)) as Ed.
  pose proof (Z.mod_pos_bound m' (Z.pos mb) ltac:(lia)) as Bm.
  unfold Z.modulo in Bm.
  assert (Eq : fst (Z.div_eucl m' (Z.pos mb)) = m' / Z.pos mb) by reflexivity.
  assert (Er : snd (Z.div_eucl m' (Z.pos mb)) = m' mod Z.pos mb) by reflexivity.
  destruct (Z.div_eucl m' (Z.pos mb)) as [q r]. cbn [fst snd] in Eq, Er.
  destruct (tracks_new_location (Z.pos mb) r ltac:(lia) ltac:(lia)) as (rb & sb' & Hl & Ht).
  assert (He : -2045 <= e') by (unfold e'; rewrite fexp_eq; lia).
  assert (G : e' <= fexp prec emax (Zdigits2 (m' / Z.pos mb) + e')).
  { rewrite fexp_eq.
    destruct (Z.le_gt_cases e' (-1074)) as [|C]; [lia|].
    assert (E1 : e' = da + ea - (db + eb) - 53) by (unfold e' in *; rewrite fexp_eq in *; lia).
    assert (Es : s = 53 - da + db) by (unfold s; lia).
    assert (Q : 2 ^ 52 <= m' / Z.pos mb).
    { apply div_ge_iff; [lia|].
      pose proof (digits_spec (Z.pos ma) ltac:(lia)) as [La _].
      pose proof (digits_spec (Z.pos mb) ltac:(lia)) as [_ Ub].
      fold da in La. fold db in Ub.
      rewrite Em, Es.
      assert (P : 2 ^ (da - 1) * 2 ^ (53 - da + db) = 2 ^ 52 * 2 ^ db).
      { rewrite <- !Z.pow_add_r by lia. f_equal. lia. }
      assert (0 < 2 ^ (53 - da + db)) by (apply Z.pow_pos_nonneg; lia).
      nia. }
    pose proof (digits_ge _ 52 ltac:(lia) Q). lia. }
  clear Ed Bm. subst q r.
  rewrite (bra_round_at (xorb sa sb) m' (Z.pos mb) e' _ rb sb');
    [|lia|lia|apply Hl|exact Ht|exact G].
  replace (-2148) with (e' - (e' + 2148)) by lia.
  rewrite <- (round_at_scaled (xorb sa sb) m' (Z.pos mb) e' (e' + 2148)); [|lia|lia|lia|exact G].
  f_equal. rewrite Em, <- Z.mul_assoc, <- Z.pow_add_r by lia. do 2 f_equal. unfold s. lia.
Qed.

Lemma SFdiv_mono (a b c : spec_float) :
  valid_binary a = true -> valid_binary b = true -> valid_binary c = true ->
  is_real a = true -> is_real b = true ->
  SFleb (S754_zero false) a = true -> SFleb a b = true ->
  SFltb (S754_zero false) c = true -> c <> S754_infinity false ->
  SFleb (S754_zero false) (SFdiv prec emax a c) = true
  /\ SFleb (SFdiv prec emax a c) (SFdiv prec emax b c) = true.
Proof.
  intros Va Vb Vc Ra Rb La L Lc Fc.
  destruct c as [sc|sc| |sc mc ec]; try discriminate.
  { destruct sc; [discriminate|contradiction]. }
  destruct sc; [discriminate|].
  unfold valid_binary in Vc. cbn [SpecFloat.valid_binary] in Vc.
  destruct (canonical_range _ _ Vc) as (Mc & Ec & _).
  assert (Z0 : round_at false 0 (Z.pos mc) (-2148) = S754_zero false)
    by (now apply round_at_zero).
  assert (F : forall x, valid_binary x = true -> is_real x = true ->
                SFleb (S754_zero false) x = true ->
                same_value (SFdiv prec emax x (S754_finite false mc ec))
                  (round_at false (units x * 2 ^ (1074 - ec)) (Z.pos mc) (-2148))).
  { intros x Vx Rx Lx. destruct x as [sx| | |sx mx ex]; try discriminate.
    - right. exists (xorb sx false), false. split; [reflexivity|].
      cbn [units Z.mul]. now apply round_at_zero.
    - destruct sx; [discriminate|]. left.
      unfold valid_binary in Vx. cbn [SpecFloat.valid_binary] in Vx.
      rewrite (SFdiv_finite false false mx mc ex ec Vx Vc). cbn [xorb units cond_Zopp].
      destruct (canonical_range _ _ Vx) as (_ & Ex & _).
      f_equal. rewrite <- Z.mul_assoc, <- Z.pow_add_r by lia. do 2 f_equal. lia. }
  assert (Ua : 0 <= units a).
  { unfold SFleb in La. rewrite (compare_units (S754_zero false) a eq_refl Va eq_refl Ra) in La.
    cbn [units] in La. destruct (Z.compare_spec 0 (units a)); (lia || discriminate). }
  assert (Uab : units a <= units b).
  { unfold SFleb in L. rewrite (compare_units a b Va Vb Ra Rb) in L.
    destruct (Z.compare_spec (units a) (units b)); (lia || discriminate). }
  assert (Lb : SFleb (S754_zero false) b = true).
  { unfold SFleb. rewrite (compare_units (S754_zero false) b eq_refl Vb eq_refl Rb).
    cbn [units]. destruct (Z.compare_spec 0 (units b)); try reflexivity; lia. }
  assert (P : 0 < 2 ^ (1074 - ec)) by (apply Z.pow_pos_nonneg; lia).
  assert (G : forall N, -2148 <= fexp prec emax (Zdigits2 (N / Z.pos mc) + -2148))
    by (intros; rewrite fexp_eq; lia).
  split.
  - rewrite (SFleb_same _ _ _ _ (same_value_refl _) (F a Va Ra La)).
    rewrite <- Z0.
    apply (round_at_mono 0 (units a * 2 ^ (1074 - ec)) (Z.pos mc) (-2148)); [lia|nia|apply G].
  - rewrite (SFleb_same _ _ _ _ (F a Va Ra La) (F b Vb Rb Lb)).
    apply (round_at_mono (units a * 2 ^ (1074 - ec)) (units b * 2 ^ (1074 - ec))
             (Z.pos mc) (-2148)); [lia|nia|apply G].
Qed.

End RoundingIntegers.


Section RoundingFloats.

Local Open Scope float_scope.

Lemma SFcompare_refl (x : spec_float) :
  SFcompare x x = if not_a_number x then None else Some Eq.
Proof.
  destruct x as [s|s| |s m e]; try reflexivity; try (destruct s; reflexivity).
  cbn [SFcompare not_a_number]. rewrite Z.compare_refl.
  change (Pos.compare_cont Eq m m) with (Pos.compare m m). rewrite Pos.compare_refl.
  destruct s; reflexivity.
Qed.

Lemma is_nan_spec (x : float) : is_nan x = not_a_number (Prim2SF x).
Proof.
  unfold is_nan. rewrite FloatAxioms.eqb_spec. unfold SFeqb. rewrite SFcompare_refl.
  destruct (not_a_number _); reflexivity.
Qed.

Lemma SFleb_infinity (x : spec_float) :
  not_a_number x = false -> SFleb x (S754_infinity false) = true.
Proof. destruct x as [s|s| |s m e]; try discriminate; try reflexivity; destruct s; reflexivity. Qed.

Lemma infinity_SFleb (x : spec_float) :
  not_a_number x = false -> SFleb (S754_infinity true) x = true.
Proof. destruct x as [s|s| |s m e]; try discriminate; try reflexivity; destruct s; reflexivity. Qed.

Lemma SFleb_refl (x : spec_float) : not_a_number x = false -> SFleb x x = true.
Proof. intros H. unfold SFleb. rewrite SFcompare_refl, H. reflexivity. Qed.

(** presents a goal on floats as a goal on their specifications *)
Ltac to_spec :=
  rewrite ?is_nan_spec, ?FloatAxioms.leb_spec, ?FloatAxioms.ltb_spec, ?FloatAxioms.eqb_spec in *;
  repeat (rewrite mul_spec in * || rewrite add_spec in *
          || rewrite sub_spec in * || rewrite div_spec in *);
  unfold SF64mul, SF64add, SF64sub, SF64div in *;
  repeat match goal with
    | |- context [Prim2SF ?x] =>
        is_var x;
        let V := fresh "V" in
        pose proof (Prim2SF_valid x) as V;
        generalize dependent (Prim2SF x); clear x; intros x V; intros
    | _ : context [Prim2SF ?x] |- _ =>
        is_var x;
        let V := fresh "V" in
        pose proof (Prim2SF_valid x) as V;
        generalize dependent (Prim2SF x); clear x; intros x V; intros
    end.

Ltac by_class :=
  repeat match goal with
    | x : spec_float |- _ => destruct x as [[|]|[|]| |[|] ? ?]
    end;
  try discriminate;
  cbn [SFmul SFadd SFsub SFdiv not_a_number is_real] in *;
  try discriminate; try reflexivity;
  try (apply SFleb_infinity; assumption);
  try (apply infinity_SFleb; assumption);
  try (apply SFleb_refl; assumption).

Lemma SFmul_nonneg (a c : spec_float) :
  valid_binary a = true -> valid_binary c = true ->
  SFleb (S754_zero false) a = true -> SFleb (S754_zero false) c = true ->
  not_a_number (SFmul prec emax a c) = false ->
  SFleb (S754_zero false) (SFmul prec emax a c) = true.
Proof.
  intros Va Vc La Lc N.
  destruct (is_real a) eqn:Ra, (is_real c) eqn:Rc.
  - assert (Z : same_value (S754_zero false) (SFmul prec emax (S754_zero false) c)).
    { destruct c as [s|s| |s m e]; try discriminate; right; cbn [SFmul];
        do 2 eexists; split; reflexivity. }
    rewrite (SFleb_same _ _ _ _ Z (same_value_refl _)).
    apply SFmul_mono; auto.
  - clear Va Vc. by_class.
  - clear Va Vc. by_class.
  - clear Va Vc. by_class.
Qed.

Lemma SFmul_monotone (a b c : spec_float) :
  valid_binary a = true -> valid_binary b = true -> valid_binary c = true ->
  SFleb (S754_zero false) a = true -> SFleb a b = true ->
  SFleb (S754_zero false) c = true ->
  not_a_number (SFmul prec emax a c) = false ->
  not_a_number (SFmul prec emax b c) = false ->
  SFleb (SFmul prec emax a c) (SFmul prec emax b c) = true.
Proof.
  intros Va Vb Vc La L Lc Na Nb.
  destruct (is_real a) eqn:Ra, (is_real b) eqn:Rb, (is_real c) eqn:Rc;
    [now apply SFmul_mono|clear Va Vb Vc; by_class ..].
Qed.

Lemma SFadd_monotone (a b c : spec_float) :
  valid_binary a = true -> valid_binary b = true -> valid_binary c = true ->
  SFleb a b = true ->
  not_a_number (SFadd prec emax a c) = false ->
  not_a_number (SFadd prec emax b c) = false ->
  SFleb (SFadd prec emax a c) (SFadd prec emax b c) = true.
Proof.
  intros Va Vb Vc L Na Nb.
  destruct (is_real a) eqn:Ra, (is_real b) eqn:Rb, (is_real c) eqn:Rc;
    [now apply SFadd_mono|clear Va Vb Vc; by_class ..].
Qed.

Lemma SFdiv_monotone (a b c : spec_float) :
  valid_binary a = true -> valid_binary b = true -> valid_binary c = true ->
  SFleb (S754_zero false) a = true -> SFleb a b = true ->
  SFltb (S754_zero false) c = true ->
  not_a_number (SFdiv prec emax a c) = false ->
  not_a_number (SFdiv prec emax b c) = false ->
  SFleb (S754_zero false) (SFdiv prec emax a c) = true
  /\ SFleb (SFdiv prec emax a c) (SFdiv prec emax b c) = true.
Proof.
  intros Va Vb Vc La L Lc Na Nb.
  destruct (is_real a) eqn:Ra, (is_real b) eqn:Rb, (is_real c) eqn:Rc.
  - apply SFdiv_mono; auto. intros ->. discriminate.
  - clear Va Vb Vc. split; by_class.
  - destruct (SFdiv_mono a a c Va Va Vc Ra Ra La) as [P _]; auto.
    { apply SFleb_refl. destruct a; try discriminate; reflexivity. }
    { intros ->. discriminate. }
    split; [exact P|]. clear P Va Vb Vc.
    destruct b as [[|]|[|]| |[|] ? ?]; try discriminate.
    + destruct a as [[|]|[|]| |[|] ? ?]; discriminate.
    + destruct c as [[|]|[|]| |[|] ? ?]; try discriminate.
      cbn [SFdiv xorb]. now apply SFleb_infinity.
  - clear Va Vb Vc. split; by_class.
  - clear Va Vb Vc. split; by_class.
  - clear Va Vb Vc. split; by_class.
  - clear Va Vb Vc. split; by_class.
  - clear Va Vb Vc. split; by_class.
Qed.

Lemma SFsub_positive (a b : spec_float) :
  valid_binary a = true -> valid_binary b = true ->
  SFltb a b = true -> SFltb (S754_zero false) (SFsub prec emax b a) = true.
Proof.
  intros Va Vb L.
  destruct (is_real a) eqn:Ra, (is_real b) eqn:Rb;
    [now apply SFsub_pos|clear Va Vb; by_class ..].
Qed.

Lemma normalize_valid (S e : Z) (sz : bool) :
  valid_binary (binary_normalize prec emax S e sz) = true.
Proof.
  assert (G : forall N, (Z.min e (-1074) <= fexp prec emax (Zdigits2 (N / 1) + Z.min e (-1074)))%Z)
    by (intros N; rewrite fexp_eq; lia).
  destruct S as [|p|p]; [reflexivity| |]; cbn [binary_normalize];
    rewrite (binary_round_at _ p e (Z.min e (-1074))) by lia;
    (apply round_at_valid; [lia| |apply G]);
    (apply Z.mul_nonneg_nonneg; [lia|apply Z.pow_nonneg; lia]).
Qed.

Lemma float_of_Z_spec (n : Z) :
  Prim2SF (Py.float_of_Z n) = binary_normalize prec emax n 0 false.
Proof. apply Prim2SF_SF2Prim, normalize_valid. Qed.

Lemma float_of_Z_monotone (i j : Z) :
  (i <= j)%Z -> (Py.float_of_Z i <=? Py.float_of_Z j) = true.
Proof.
  intros H. rewrite FloatAxioms.leb_spec, !float_of_Z_spec.
  rewrite (SFleb_same _ _ _ _
             (normalize_round_units i 0 (-1074) false ltac:(lia) ltac:(lia))
             (normalize_round_units j 0 (-1074) false ltac:(lia) ltac:(lia))).
  apply round_units_mono; [lia|].
  apply Z.mul_le_mono_nonneg_r; [apply Z.pow_nonneg; lia|exact H].
Qed.

Lemma mul_1_l (y : float) : 1 * y = y.
Proof.
  apply Prim2SF_inj. rewrite mul_spec. unfold SF64mul.
  change (Prim2SF 1) with (S754_finite false 4503599627370496 (-52)).
  pose proof (Prim2SF_valid y) as V.
  destruct (Prim2SF y) as [s|s| |s m e]; try reflexivity.
  cbn [SFmul xorb]. unfold valid_binary in V. cbn [SpecFloat.valid_binary] in V.
  pose proof V as B. apply bounded_spec in B.
  change (Z.pos (4503599627370496 * m)) with (2 ^ 52 * Z.pos m)%Z.
  rewrite (Z.mul_comm (2 ^ 52)).
  assert (G : (e <= fexp prec emax (Zdigits2 (Z.pos m / 1) + e))%Z)
    by (rewrite Z.div_1_r, fexp_eq; lia).
  rewrite bra_exact.
  - replace (-52 + e)%Z with (e - 52)%Z by lia.
    rewrite (round_at_scaled s (Z.pos m) 1 e 52); [|lia|lia|lia|exact G].
    now apply round_at_canonical.
  - lia.
  - rewrite digits_shift by lia. rewrite fexp_eq. lia.
Qed.

Lemma mul_monotone (a b c : float) :
  (0 <=? a) = true -> (a <=? b) = true -> (0 <=? c) = true ->
  is_nan (a * c) = false -> is_nan (b * c) = false ->
  (a * c <=? b * c) = true.
Proof.
  intros La L Lc Na Nb. to_spec.
  change (Prim2SF 0) with (S754_zero false) in *.
  now apply SFmul_monotone.
Qed.

Lemma mul_not_negative (a c : float) :
  (0 <=? a) = true -> (0 <=? c) = true -> is_nan (a * c) = false ->
  (0 <=? a * c) = true.
Proof.
  intros La Lc Na. to_spec.
  change (Prim2SF 0) with (S754_zero false) in *.
  now apply SFmul_nonneg.
Qed.

Lemma add_monotone (a b c : float) :
  (a <=? b) = true -> is_nan (a + c) = false -> is_nan (b + c) = false ->
  (a + c <=? b + c) = true.
Proof. intros L Na Nb. to_spec. now apply SFadd_monotone. Qed.

Lemma div_monotone (a b c : float) :
  (0 <=? a) = true -> (a <=? b) = true -> (0 <? c) = true ->
  is_nan (a / c) = false -> is_nan (b / c) = false ->
  (0 <=? a / c) = true /\ (a / c <=? b / c) = true.
Proof.
  intros La L Lc Na Nb. to_spec.
  change (Prim2SF 0) with (S754_zero false) in *.
  now apply SFdiv_monotone.
Qed.

Lemma sub_positive (a b : float) : (a <? b) = true -> (0 <? b - a) = true.
Proof.
  intros L. to_spec. change (Prim2SF 0) with (S754_zero false) in *.
  now apply SFsub_positive.
Qed.

Lemma add_is_nan (a c : float) :
  is_nan (a + c) = false -> is_nan a = false /\ is_nan c = false.
Proof. intros N. to_spec. split; by_class. Qed.

Lemma mul_is_nan (a c : float) :
  is_nan (a * c) = false -> is_nan a = false /\ is_nan c = false.
Proof. intros N. to_spec. split; by_class. Qed.

Lemma div_is_nan (a c : float) :
  is_nan (a / c) = false -> is_nan a = false /\ is_nan c = false.
Proof. intros N. to_spec. split; by_class. Qed.

Lemma is_finite_real (f : float) : is_finite f = is_real (Prim2SF f).
Proof.
  unfold is_finite, is_nan, is_infinity.
  rewrite !FloatAxioms.eqb_spec, abs_spec.
  change (Prim2SF infinity) with (S754_infinity false).
  unfold SFeqb. rewrite SFcompare_refl.
  destruct (Prim2SF f) as [s|s| |s m e]; try reflexivity; now destruct s.
Qed.

(** A grid point over a step that is not finite is the positive infinity
    when it is a number. *)
Lemma grid_not_finite (index step start : float) :
  (0 <=? index) = true -> is_finite step = false -> (step <? 0) = false ->
  is_nan (index * step + start) = false ->
  (index * step + start =? infinity) = true.
Proof.
  intros Li Fs Ls N. rewrite is_finite_real in Fs. to_spec.
  change (Prim2SF 0) with (S754_zero false) in *.
  change (Prim2SF infinity) with (S754_infinity false) in *.
  by_class.
Qed.

Lemma not_finite_not_zero (x : float) : is_finite x = false -> (x =? 0) = false.
Proof.
  intros F. rewrite is_finite_real in F. to_spec.
  change (Prim2SF 0) with (S754_zero false) in *. by_class.
Qed.

Lemma not_finite_quotient (a c : float) :
  is_finite a = false -> is_finite (a / c) = false.
Proof.
  rewrite !is_finite_real. intros F. to_spec. by_class.
Qed.

Lemma zero_product (c : float) :
  is_finite c = true -> (0 <=? c) = true -> (0 * c + 0 =? 0) = true.
Proof.
  rewrite is_finite_real. intros F L. to_spec.
  change (Prim2SF 0) with (S754_zero false) in *. by_class.
Qed.

Lemma below_infinity (a b t : float) :
  (a <? b) = true -> (t =? infinity) = true -> (a <? t) = true.
Proof.
  intros L E. to_spec.
  change (Prim2SF infinity) with (S754_infinity false) in *.
  by_class.
Qed.

(** A finite float other than zero divided by itself is one. *)
Lemma div_core_self (m : positive) (e : Z) :
  SFdiv_core_binary prec emax (Z.pos m) e (Z.pos m) e = (2 ^ 53, -53, loc_Exact)%Z.
Proof.
  unfold SFdiv_core_binary.
  rewrite Z.sub_diag, Z.sub_diag.
  change (Z.min (fexp prec emax 0) 0) with (-53)%Z.
  change (0 - -53)%Z with 53%Z. cbv iota.
  rewrite Z.shiftl_mul_pow2 by lia.
  pose proof (Z.div_eucl_eq (Z.pos m * 2 ^ 53) (Z.pos m) ltac:(lia)) as E.
  pose proof (Z.mod_pos_bound (Z.pos m * 2 ^ 53) (Z.pos m) ltac:(lia)) as B.
  unfold Z.modulo in B.
  destruct (Z.div_eucl (Z.pos m * 2 ^ 53) (Z.pos m)) as [q r].
  assert (Hq : q = (2 ^ 53)%Z) by nia.
  assert (Hr : r = 0%Z) by nia.
  subst q r. unfold new_location, new_location_even, new_location_odd.
  now destruct (Z.even (Z.pos m)).
Qed.

Lemma div_self (d : float) :
  is_finite d = true -> (d =? 0) = false -> d / d = 1.
Proof.
  intros F N. apply Prim2SF_inj. rewrite div_spec. unfold SF64div.
  rewrite is_finite_real in F. rewrite FloatAxioms.eqb_spec in N.
  destruct (Prim2SF d) as [s|s| |s m e]; try (destruct s; discriminate);
    try discriminate.
  unfold SFdiv. rewrite div_core_self.
  now destruct s.
Qed.

Lemma positive_not_zero (d : float) : (0 <? d) = true -> (d =? 0) = false.
Proof.
  intros L. to_spec. change (Prim2SF 0) with (S754_zero false) in *. by_class.
Qed.

(** Out of the finite floats a quotient of a float by itself is NaN, and so
    is what is computed from it. *)
Lemma div_self_not_finite (d : float) : is_finite d = false -> d / d = nan.
Proof.
  intros F. apply Prim2SF_inj. rewrite is_finite_real in F. rewrite div_spec.
  change (Prim2SF nan) with S754_nan. unfold SF64div.
  destruct (Prim2SF d) as [s|s| |s m e]; try discriminate; reflexivity.
Qed.

Lemma add_nan_mul (c y : float) : c + nan * y = nan.
Proof.
  apply Prim2SF_inj. rewrite add_spec, mul_spec.
  change (Prim2SF nan) with S754_nan. unfold SF64add, SF64mul.
  cbn [SFmul]. now destruct (Prim2SF c) as [[|]|[|]| |[|] m e].
Qed.

End RoundingFloats.

Set Implicit Arguments.

(* ================================================================== *)
(** * Facts: loops and index pairs *)
(* ================================================================== *)

Lemma for_each_ok {A B : Type} (l : list A) (body : A -> result (list B)) (g : A -> list B) :
  (forall a, In a l -> body a = Ok (g a)) ->
  for_each l body = Ok (flat_map g l).
Proof.
  induction l as [|a r IH]; intros H; cbn; [reflexivity|].
  rewrite (H a (or_introl eq_refl)); cbn.
  rewrite IH by (intros; apply H; now right).
  reflexivity.
Qed.

Section Loops.

Context {A B : Type}.

Lemma flat_map_index (g : A -> list B) (l : list A) :
  flat_map (fun j => match nth_error l j with Some b => g b | None => [] end)
           (seq 0 (length l))
  = flat_map g l.
Proof.
  induction l as [|a r IH]; [reflexivity|].
  cbn [length seq flat_map nth_error]. f_equal.
  rewrite <- seq_shift, flat_map_concat_map, map_map, <- flat_map_concat_map.
  exact IH.
Qed.

Lemma unordered_pairs_by_index (h : A * A -> list B) (l : list A) :
  flat_map
    (fun i =>
       flat_map
         (fun j =>
            match nth_error l i, nth_error l j with
            | Some a, Some b => h (a, b)
            | _, _ => []
            end)
         (range (i + 1) (length l)))
    (range 0 (length l))
  = flat_map h (unordered_pairs l).
Proof.
  unfold range. induction l as [|a r IH]; [reflexivity|].
  cbn [length unordered_pairs]. rewrite Nat.sub_0_r, flat_map_app.
  cbn [seq flat_map]. f_equal.
  - cbn [Nat.add Nat.sub nth_error]. rewrite Nat.sub_0_r.
    rewrite <- seq_shift, flat_map_concat_map, map_map, <- flat_map_concat_map.
    cbn [nth_error]. rewrite flat_map_index.
    rewrite (flat_map_concat_map h), map_map, <- flat_map_concat_map. reflexivity.
  - rewrite <- IH, Nat.sub_0_r.
    rewrite <- seq_shift, flat_map_concat_map, map_map, <- flat_map_concat_map.
    apply flat_map_ext; intros i.
    cbn [Nat.add Nat.sub].
    rewrite <- seq_shift, flat_map_concat_map, map_map, <- flat_map_concat_map.
    reflexivity.
Qed.

(** The two index loops of both detectors visit the unordered pairs. *)
Lemma pair_loops (l : list A) (k : A -> A -> result (list B)) (h : A * A -> list B) :
  (forall a b, In a l -> In b l -> k a b = Ok (h (a, b))) ->
  for_each (range 0 (length l)) (fun i =>
    for_each (range (i + 1) (length l)) (fun j =>
      a <- getitem l i ;;
      b <- getitem l j ;;
      k a b))
  = Ok (flat_map h (unordered_pairs l)).
Proof.
  intros Hk. rewrite <- unordered_pairs_by_index.
  apply for_each_ok; intros i Hi.
  apply for_each_ok; intros j Hj.
  unfold range in Hi, Hj. apply in_seq in Hi, Hj.
  unfold getitem.
  destruct (nth_error l i) as [a|] eqn:Ea;
    [|apply nth_error_None in Ea; lia].
  destruct (nth_error l j) as [b|] eqn:Eb;
    [|apply nth_error_None in Eb; lia].
  cbn. apply Hk; eapply nth_error_In; eassumption.
Qed.

End Loops.

Lemma unordered_pairs_map {A B : Type} (f : A -> B) (l : list A) :
  unordered_pairs (map f l)
  = map (fun ab => (f (fst ab), f (snd ab))) (unordered_pairs l).
Proof.
  induction l as [|a r IH]; [reflexivity|].
  cbn [map unordered_pairs]. rewrite map_app, IH, !map_map. reflexivity.
Qed.

Lemma in_unordered_pairs {A : Type} (l : list A) (a b : A) :
  In (a, b) (unordered_pairs l) -> In a l /\ In b l.
Proof.
  induction l as [|c r IH]; cbn; [tauto|].
  rewrite in_app_iff, in_map_iff. intros [(b' & E & Hb)|H].
  - injection E as -> ->. auto.
  - destruct (IH H). auto.
Qed.

(* ================================================================== *)
(** * Facts: sorting and the duplicate check of the constructor *)
(* ================================================================== *)

Section Construction.

Local Open Scope float_scope.

Lemma insert_by_timestamp_perm (w : Waypoint.t) (l : list Waypoint.t) :
  Permutation (w :: l) (DroneTrajectory.insert_by_timestamp w l).
Proof.
  induction l as [|h r IH]; cbn; [reflexivity|].
  destruct (Waypoint.timestamp w <? Waypoint.timestamp h); [reflexivity|].
  rewrite perm_swap. now apply perm_skip.
Qed.

Lemma sorted_by_timestamp_perm (ws : list Waypoint.t) :
  Permutation ws (DroneTrajectory.sorted_by_timestamp ws).
Proof.
  unfold DroneTrajectory.sorted_by_timestamp.
  assert (G : forall acc,
             Permutation (ws ++ acc)
               (fold_left (fun placed w => DroneTrajectory.insert_by_timestamp w placed)
                          ws acc)).
  { induction ws as [|w r IH]; intros acc; cbn [fold_left app]; [reflexivity|].
    rewrite <- IH, <- insert_by_timestamp_perm.
    apply Permutation_middle. }
  specialize (G []). now rewrite app_nil_r in G.
Qed.

Lemma insert_by_timestamp_sorted (w : Waypoint.t) (l : list Waypoint.t) :
  Sorted not_after l -> Sorted not_after (DroneTrajectory.insert_by_timestamp w l).
Proof.
  induction l as [|h r IH]; intros S; cbn.
  - repeat constructor.
  - destruct (Waypoint.timestamp w <? Waypoint.timestamp h) eqn:E.
    + constructor; [assumption|]. constructor. unfold not_after.
      apply ltb_asym in E.
      rewrite ltb_cmp. rewrite leb_cmp in E.
      destruct (FloatKey.cmp (Waypoint.timestamp h) (Waypoint.timestamp w)) as [[]|];
        congruence.
    + inversion S as [|? ? S' Hd]; subst. constructor; [now apply IH|].
      destruct r as [|h' r']; cbn.
      * constructor. exact E.
      * destruct (Waypoint.timestamp w <? Waypoint.timestamp h');
          constructor; [exact E|now inversion Hd].
Qed.

Lemma sorted_by_timestamp_sorted (ws : list Waypoint.t) :
  Sorted not_after (DroneTrajectory.sorted_by_timestamp ws).
Proof.
  unfold DroneTrajectory.sorted_by_timestamp.
  assert (G : forall acc, Sorted not_after acc ->
             Sorted not_after
               (fold_left (fun placed w => DroneTrajectory.insert_by_timestamp w placed)
                          ws acc)).
  { induction ws as [|w r IH]; intros acc S; cbn [fold_left]; [assumption|].
    apply IH, insert_by_timestamp_sorted, S. }
  apply G. constructor.
Qed.

(** The size of [set(l)] tells whether two members of [l] are [==]. *)
Lemma set_length_le (l seen : list float) :
  (length (fold_left Py.set_add l seen) <= length seen + length l)%nat.
Proof.
  revert seen; induction l as [|a r IH]; intros seen; cbn [fold_left length]; [lia|].
  specialize (IH (Py.set_add seen a)). unfold Py.set_add in *.
  destruct (existsb (fun u => u =? a) seen); [lia|].
  rewrite length_app in IH; cbn in IH; lia.
Qed.

Lemma set_length_eq (l seen : list float) :
  length (fold_left Py.set_add l seen) = (length seen + length l)%nat
  <-> Forall (fun v => existsb (fun u => u =? v) seen = false) l
      /\ ForallOrdPairs (fun a b => (a =? b) = false) l.
Proof.
  revert seen; induction l as [|a r IH]; intros seen; cbn [fold_left length].
  - split; [intros _; split; constructor|lia].
  - unfold Py.set_add at 2.
    destruct (existsb (fun u => u =? a) seen) eqn:E.
    + pose proof (set_length_le r seen). split; [lia|].
      intros [F _]. inversion F; congruence.
    + replace (length seen + S (length r))%nat
        with (length (seen ++ [a]) + length r)%nat
        by (rewrite length_app; cbn; lia).
      rewrite IH. split.
      * intros [F P]. split.
        -- constructor; [exact E|].
           eapply Forall_impl; [|exact F]. cbn; intros v Hv.
           rewrite existsb_app in Hv. now apply orb_false_iff in Hv.
        -- constructor; [|exact P].
           eapply Forall_impl; [|exact F]. cbn; intros v Hv.
           rewrite existsb_app in Hv. apply orb_false_iff in Hv.
           cbn in Hv. now rewrite orb_false_r in Hv.
      * intros [F P]. inversion F as [|? ? Ha Fr]; subst.
        inversion P as [|? ? Pa Pr]; subst. split; [|exact Pr].
        rewrite Forall_forall in *. intros v Hv.
        rewrite existsb_app, (Fr v Hv). cbn. now rewrite (Pa v Hv).
Qed.

Lemma set_size_distinct (l : list float) :
  length (Py.set l) = length l
  <-> ForallOrdPairs (fun a b => (a =? b) = false) l.
Proof.
  unfold Py.set. rewrite (set_length_eq l []). cbn. split; [tauto|].
  intros P; split; [|exact P]. now apply Forall_forall.
Qed.

End Construction.

Section SharedTimestamps.

Local Open Scope float_scope.

Lemma ordered_pairs_by_index {A : Type} (R : A -> A -> Prop) (l : list A) :
  ForallOrdPairs R l <->
  (forall i j a b, (i < j)%nat -> nth_error l i = Some a -> nth_error l j = Some b -> R a b).
Proof.
  induction l as [|c r IH]; split.
  - intros _ [|i] [|j] a b; cbn; intros; discriminate || lia.
  - constructor.
  - intros P. inversion P as [|? ? F Pr]; subst.
    intros [|i] [|j] a b Hij Ha Hb; cbn in *; try lia.
    + injection Ha as ->. rewrite Forall_forall in F.
      apply F. eapply nth_error_In; eassumption.
    + apply (proj1 IH Pr i j); [lia|assumption|assumption].
  - intros H. constructor.
    + apply Forall_forall. intros b Hb. apply In_nth_error in Hb as [j Hj].
      apply (H 0%nat (S j) c b); [lia|reflexivity|exact Hj].
    + apply IH. intros i j a b Hij Ha Hb. apply (H (S i) (S j)); [lia|assumption|assumption].
Qed.

Lemma share_not_distinct (ws : list Waypoint.t) :
  share_timestamp ws ->
  ~ ForallOrdPairs (fun a b => (a =? b) = false) (map Waypoint.timestamp ws).
Proof.
  intros (i & j & a & b & Hij & Ha & Hb & E) P.
  rewrite ordered_pairs_by_index in P.
  apply (map_nth_error Waypoint.timestamp) in Ha, Hb.
  destruct (Nat.lt_total i j) as [L|[L|L]]; [|contradiction|].
  - specialize (P i j _ _ L Ha Hb). congruence.
  - specialize (P j i _ _ L Hb Ha). rewrite eqb_sym in P. congruence.
Qed.

Lemma distinct_or_share (ws : list Waypoint.t) :
  ForallOrdPairs (fun a b => (a =? b) = false) (map Waypoint.timestamp ws)
  \/ share_timestamp ws.
Proof.
  induction ws as [|w r [P|(i & j & a & b & Hij & Ha & Hb & E)]].
  - left; constructor.
  - destruct (existsb (fun b => Waypoint.timestamp w =? Waypoint.timestamp b) r) eqn:X.
    + right. apply existsb_exists in X as (b & Hb & E).
      apply In_nth_error in Hb as [j Hj].
      exists 0%nat, (S j), w, b. repeat split; auto.
    + left. cbn. constructor; [|exact P].
      apply Forall_forall. intros t Ht. apply in_map_iff in Ht as (b & <- & Hb).
      destruct (Waypoint.timestamp w =? Waypoint.timestamp b) eqn:E; [|reflexivity].
      assert (existsb (fun b => Waypoint.timestamp w =? Waypoint.timestamp b) r = true)
        by (apply existsb_exists; eauto).
      congruence.
  - right. exists (S i), (S j), a, b. repeat split; auto.
Qed.

Lemma share_timestamp_perm (ws ws' : list Waypoint.t) :
  Permutation ws ws' -> share_timestamp ws' -> share_timestamp ws.
Proof.
  intros P (i & j & a & b & Hij & Ha & Hb & E).
  apply Permutation_nth_error in P as (_ & f & Inj & Hf).
  exists (f i), (f j), a, b. rewrite <- !Hf. repeat split; auto.
Qed.

Lemma validate_fails_iff (self : DroneTrajectory.t) :
  DroneTrajectory._validate_waypoints self = Raise ValueError
  <-> (length (DroneTrajectory.waypoints self) < 2)%nat
      \/ share_timestamp (DroneTrajectory.waypoints self).
Proof.
  unfold DroneTrajectory._validate_waypoints.
  destruct (Nat.ltb_spec (length (DroneTrajectory.waypoints self)) 2) as [L|L].
  - split; auto.
  - destruct (Nat.eqb_spec
                (length (Py.set (map Waypoint.timestamp (DroneTrajectory.waypoints self))))
                (length (map Waypoint.timestamp (DroneTrajectory.waypoints self)))) as [E|E];
      cbn.
    + apply set_size_distinct in E. split; [discriminate|].
      intros [?|S]; [lia|]. now apply share_not_distinct in S.
    + split; [intros _; right|reflexivity].
      destruct (distinct_or_share (DroneTrajectory.waypoints self)) as [P|S]; [|exact S].
      apply set_size_distinct in P. contradiction.
Qed.

Lemma validate_total (self : DroneTrajectory.t) :
  DroneTrajectory._validate_waypoints self = Ok tt
  \/ DroneTrajectory._validate_waypoints self = Raise ValueError.
Proof.
  unfold DroneTrajectory._validate_waypoints.
  destruct (_ <? 2)%nat; [now right|]. destruct (negb _); auto.
Qed.

Lemma init_fails_iff (drone_id : string) (ws : list Waypoint.t) :
  DroneTrajectory.__init__ drone_id ws = Raise ValueError
  <-> (length ws < 2)%nat \/ share_timestamp ws.
Proof.
  unfold DroneTrajectory.__init__.
  pose proof (sorted_by_timestamp_perm ws) as P.
  set (self := DroneTrajectory.Build drone_id (DroneTrajectory.sorted_by_timestamp ws)).
  pose proof (validate_fails_iff self) as V. cbn in V.
  rewrite <- (Permutation_length P) in V.
  destruct (validate_total self) as [E|E]; rewrite E; cbn.
  - split; [discriminate|]. intros H.
    assert (F : DroneTrajectory._validate_waypoints self = Raise ValueError);
      [|congruence].
    apply V. destruct H as [?|S]; [now left|right].
    eapply share_timestamp_perm; [symmetry; exact P|exact S].
  - split; [intros _|reflexivity].
    destruct (proj1 V E) as [?|S]; [now left|right].
    eapply share_timestamp_perm; [exact P|exact S].
Qed.

Lemma init_total (drone_id : string) (ws : list Waypoint.t) :
  DroneTrajectory.__init__ drone_id ws
  = Ok (DroneTrajectory.Build drone_id (DroneTrajectory.sorted_by_timestamp ws))
  \/ DroneTrajectory.__init__ drone_id ws = Raise ValueError.
Proof.
  unfold DroneTrajectory.__init__.
  destruct (validate_total
              (DroneTrajectory.Build drone_id (DroneTrajectory.sorted_by_timestamp ws)))
    as [E|E]; rewrite E; auto.
Qed.

End SharedTimestamps.

(* ================================================================== *)
(** * Facts: valid trajectories and interpolation *)
(* ================================================================== *)

Section Interpolation.

Local Open Scope float_scope.

Lemma leb_not_ltb (a b : float) : (a <=? b) = true -> (b <? a) = false.
Proof. intros; float_keys. Qed.

Lemma sorted_distinct_increasing (ws : list Waypoint.t) :
  Sorted not_after ws ->
  ForallOrdPairs (fun a b => (a =? b) = false) (map Waypoint.timestamp ws) ->
  Forall (fun w => is_time (Waypoint.timestamp w)) ws ->
  increasing ws.
Proof.
  intros S P T. apply Sorted_StronglySorted.
  { intros a b c. apply ltb_trans. }
  induction S as [|a l S IH Hd]; [constructor|].
  cbn in P. inversion P as [|? ? Pa Pl]; subst. inversion T as [|? ? Ta Tl]; subst.
  constructor; [now apply IH|].
  destruct Hd as [|b l' Hab]; constructor.
  inversion Pa as [|? ? Eab _]; subst. inversion Tl as [|? ? Tb _]; subst.
  apply not_ltb_neq; try assumption. now rewrite eqb_sym.
Qed.

(** What the constructor guarantees. *)
Lemma valid_waypoints (traj : DroneTrajectory.t) :
  valid_trajectory traj ->
  (2 <= length (DroneTrajectory.waypoints traj))%nat
  /\ Forall (fun w => is_time (Waypoint.timestamp w)) (DroneTrajectory.waypoints traj)
  /\ increasing (DroneTrajectory.waypoints traj).
Proof.
  intros (ws & T & E).
  destruct (init_total (DroneTrajectory.drone_id traj) ws) as [E'|E'];
    [|rewrite E' in E; discriminate].
  assert (N : ~ ((length ws < 2)%nat \/ share_timestamp ws)).
  { rewrite <- (init_fails_iff (DroneTrajectory.drone_id traj) ws), E'. discriminate. }
  rewrite E' in E. injection E as <-. cbn.
  pose proof (sorted_by_timestamp_perm ws) as P.
  assert (L : (2 <= length (DroneTrajectory.sorted_by_timestamp ws))%nat).
  { rewrite <- (Permutation_length P).
    destruct (Nat.lt_ge_cases (length ws) 2); [exfalso; apply N; now left|assumption]. }
  assert (D : ForallOrdPairs (fun a b => (a =? b) = false)
                (map Waypoint.timestamp (DroneTrajectory.sorted_by_timestamp ws))).
  { destruct (distinct_or_share (DroneTrajectory.sorted_by_timestamp ws)) as [D|S];
      [exact D|].
    exfalso; apply N; right. eapply share_timestamp_perm; [exact P|exact S]. }
  assert (T' : Forall (fun w => is_time (Waypoint.timestamp w))
                      (DroneTrajectory.sorted_by_timestamp ws)).
  { eapply Permutation_Forall; [apply sorted_by_timestamp_perm|exact T]. }
  repeat split; [exact L|exact T'|].
  apply sorted_distinct_increasing; auto using sorted_by_timestamp_sorted.
Qed.

Lemma valid_nonempty (traj : DroneTrajectory.t) :
  valid_trajectory traj ->
  exists w0 w1 r, DroneTrajectory.waypoints traj = w0 :: w1 :: r.
Proof.
  intros V. destruct (valid_waypoints V) as (L & _).
  destruct (DroneTrajectory.waypoints traj) as [|w0 [|w1 r]]; cbn in L; try lia; eauto.
Qed.

Lemma valid_bounds (traj : DroneTrajectory.t) :
  valid_trajectory traj ->
  DroneTrajectory.get_trajectory_bounds traj = Ok (start_time traj, end_time traj).
Proof.
  intros V. destruct (valid_nonempty V) as (w0 & w1 & r & E).
  unfold start_time, end_time, DroneTrajectory.get_trajectory_bounds. now rewrite E.
Qed.

Lemma last_default {A : Type} (l : list A) (a d d' : A) :
  last (a :: l) d = last (a :: l) d'.
Proof.
  revert a; induction l as [|b r IH]; intros a; [reflexivity|].
  change (last (b :: r) d = last (b :: r) d'). apply IH.
Qed.

Lemma last_cons2 {A : Type} (l : list A) (a b d : A) :
  last (a :: b :: l) d = last (b :: l) b.
Proof. change (last (b :: l) d = last (b :: l) b). apply last_default. Qed.

(** Inside the bounds some pair of neighbours brackets the timestamp. *)
Lemma scan_total (ws : list Waypoint.t) (w0 w1 : Waypoint.t) (t : float) :
  Forall (fun w => is_time (Waypoint.timestamp w)) (w0 :: w1 :: ws) ->
  is_time t ->
  (Waypoint.timestamp w0 <=? t) = true ->
  (t <=? Waypoint.timestamp (last (w1 :: ws) w1)) = true ->
  exists p, DroneTrajectory.scan (w0 :: w1 :: ws) t = Some p.
Proof.
  revert w0 w1. induction ws as [|w2 r IH]; intros w0 w1 T Tt L0 L1.
  - cbn in *. rewrite L0, L1. cbn. destruct (_ =? _); eauto.
  - cbn [DroneTrajectory.scan].
    destruct ((Waypoint.timestamp w0 <=? t) && (t <=? Waypoint.timestamp w1)) eqn:C.
    + destruct (_ =? _); eauto.
    + rewrite L0 in C. cbn [andb] in C.
      inversion T as [|? ? T0 T']; subst. inversion T' as [|? ? T1 _]; subst.
      apply IH; try assumption.
      * apply ltb_leb, leb_false_ltb; assumption.
      * rewrite last_cons2 in L1. exact L1.
Qed.

Lemma interpolate_cases (traj : DroneTrajectory.t) (t : float) :
  valid_trajectory traj -> is_time t ->
  (((t <? start_time traj) = true \/ (end_time traj <? t) = true)
   /\ DroneTrajectory.interpolate_position traj t = Ok None)
  \/ ((start_time traj <=? t) = true /\ (t <=? end_time traj) = true
      /\ exists p, DroneTrajectory.interpolate_position traj t = Ok (Some p)).
Proof.
  intros V Tt. destruct (valid_waypoints V) as (_ & T & _).
  destruct (valid_nonempty V) as (w0 & w1 & r & E).
  unfold start_time, end_time, DroneTrajectory.get_trajectory_bounds,
    DroneTrajectory.interpolate_position.
  rewrite E in *.
  assert (T0 : is_time (Waypoint.timestamp w0)) by now inversion T.
  assert (Tl : is_time (Waypoint.timestamp (last (w0 :: w1 :: r) w0))).
  { rewrite Forall_forall in T. apply T.
    destruct (exists_last (l := w0 :: w1 :: r)) as (l' & a & El); [discriminate|].
    rewrite El, last_last, <- El. rewrite El. apply in_or_app; right; now left. }
  destruct (t <? Waypoint.timestamp w0) eqn:A; [left; auto|].
  destruct (Waypoint.timestamp (last (w0 :: w1 :: r) w0) <? t) eqn:B; [left; auto|].
  right. cbn [orb].
  assert (L0 : (Waypoint.timestamp w0 <=? t) = true) by now apply ltb_false_leb.
  assert (L1 : (t <=? Waypoint.timestamp (last (w0 :: w1 :: r) w0)) = true)
    by now apply ltb_false_leb.
  split; [exact L0|]. split; [exact L1|].
  rewrite last_cons2 in L1.
  destruct (scan_total T Tt L0 L1) as [p Hp]. exists p. now rewrite Hp.
Qed.

End Interpolation.

Lemma increasing_perm_unique (l1 l2 : list Waypoint.t) :
  increasing l1 -> increasing l2 -> Permutation l1 l2 -> l1 = l2.
Proof.
  revert l2. induction l1 as [|a1 r1 IH]; intros l2 I1 I2 P.
  - now apply Permutation_nil in P.
  - destruct l2 as [|a2 r2]; [symmetry in P; now apply Permutation_nil in P|].
    inversion I1 as [|? ? I1' F1]; subst. inversion I2 as [|? ? I2' F2]; subst.
    rewrite Forall_forall in F1, F2.
    assert (E : a1 = a2).
    { assert (H1 : In a1 (a2 :: r2)) by (eapply Permutation_in; [exact P|now left]).
      assert (H2 : In a2 (a1 :: r1))
        by (eapply Permutation_in; [symmetry; exact P|now left]).
      destruct H1 as [H1|H1]; [now symmetry|]. destruct H2 as [H2|H2]; [assumption|].
      apply F2 in H1. apply F1 in H2. apply ltb_asym in H1. apply ltb_leb in H2.
      congruence. }
    subst a2. f_equal. apply IH; try assumption. now apply Permutation_cons_inv in P.
Qed.

(** C7.  Constructing a trajectory from waypoints with real timestamps
    raises the validation error exactly when there are fewer than two
    waypoints or two waypoints share a timestamp; otherwise it returns a
    trajectory, and the outcome is the same for every ordering of the
    waypoints. *)
Theorem construction_validates (drone_id : string) (ws : list Waypoint.t) :
  Forall (fun w => is_time (Waypoint.timestamp w)) ws ->
  (DroneTrajectory.__init__ drone_id ws = Raise ValueError
   <-> (length ws < 2)%nat \/ share_timestamp ws)
  /\ ((exists traj, DroneTrajectory.__init__ drone_id ws = Ok traj)
      <-> ~ ((length ws < 2)%nat \/ share_timestamp ws))
  /\ (forall ws', Permutation ws ws' ->
        DroneTrajectory.__init__ drone_id ws' = DroneTrajectory.__init__ drone_id ws).
Proof.
  intros T.
  assert (S : forall l,
             (exists traj, DroneTrajectory.__init__ drone_id l = Ok traj)
             <-> ~ ((length l < 2)%nat \/ share_timestamp l)).
  { intros l. rewrite <- (init_fails_iff drone_id l).
    destruct (init_total drone_id l) as [E|E]; rewrite E.
    - split; [intros _ H; discriminate H|eauto].
    - split; [intros [? ?]; discriminate|intros N; now contradiction N]. }
  split; [apply init_fails_iff|]. split; [apply S|].
  intros ws' P.
  assert (F : (length ws' < 2)%nat \/ share_timestamp ws'
              <-> (length ws < 2)%nat \/ share_timestamp ws).
  { rewrite (Permutation_length P). split; intros [L|Sh]; auto; right.
    - eapply share_timestamp_perm; [exact P|exact Sh].
    - eapply share_timestamp_perm; [symmetry; exact P|exact Sh]. }
  destruct (init_total drone_id ws) as [E|E]; rewrite E.
  - destruct (init_total drone_id ws') as [E'|E'].
    2:{ apply (proj1 (init_fails_iff drone_id ws')) in E'. apply (proj1 F) in E'.
        apply (proj2 (init_fails_iff drone_id ws)) in E'. congruence. }
    rewrite E'. do 2 f_equal.
    assert (V : valid_trajectory
                  (DroneTrajectory.Build drone_id (DroneTrajectory.sorted_by_timestamp ws)))
      by (exists ws; auto).
    assert (V' : valid_trajectory
                   (DroneTrajectory.Build drone_id (DroneTrajectory.sorted_by_timestamp ws'))).
    { exists ws'. split; [|exact E']. eapply Permutation_Forall; eassumption. }
    apply valid_waypoints in V as (_ & _ & I). apply valid_waypoints in V' as (_ & _ & I').
    apply increasing_perm_unique; try assumption.
    rewrite <- (sorted_by_timestamp_perm ws'), <- (sorted_by_timestamp_perm ws).
    now symmetry.
  - apply (proj2 (init_fails_iff drone_id ws')), (proj2 F),
      (proj1 (init_fails_iff drone_id ws)), E.
Qed.

Lemma construction_validates_witness :
  Forall (fun w => is_time (Waypoint.timestamp w)) Example.conflict_waypoints
  /\ (exists traj, DroneTrajectory.__init__ "drone2" Example.conflict_waypoints = Ok traj)
  /\ ~ ((length Example.conflict_waypoints < 2)%nat
        \/ share_timestamp Example.conflict_waypoints).
Proof.
  assert (T : Forall (fun w => is_time (Waypoint.timestamp w)) Example.conflict_waypoints)
    by (repeat constructor).
  assert (E : exists traj,
             DroneTrajectory.__init__ "drone2" Example.conflict_waypoints = Ok traj)
    by (eexists; reflexivity).
  split; [exact T|]. split; [exact E|].
  exact (proj1 (proj1 (proj2 (construction_validates "drone2" T))) E).
Defined.

(** C6.  On a valid trajectory with bounds [start, end], interpolating at a
    time [t] answers "no value" exactly when [t < start] or [t > end], and
    answers a position for every [t] with [start <= t <= end]. *)
Theorem interpolate_none_iff_outside (traj : DroneTrajectory.t) (t : float) :
  valid_trajectory traj -> is_time t ->
  DroneTrajectory.get_trajectory_bounds traj = Ok (start_time traj, end_time traj)
  /\ (DroneTrajectory.interpolate_position traj t = Ok None
      <-> ((t <? start_time traj)%float = true \/ (end_time traj <? t)%float = true))
  /\ ((start_time traj <=? t)%float = true -> (t <=? end_time traj)%float = true ->
      exists p, DroneTrajectory.interpolate_position traj t = Ok (Some p)).
Proof.
  intros V Tt. split; [now apply valid_bounds|].
  destruct (interpolate_cases V Tt) as [(O & E)|(L0 & L1 & p & E)].
  - split; [tauto|]. intros L0 L1. exfalso.
    destruct O as [O|O]; apply ltb_asym in O; congruence.
  - split; [|eauto]. rewrite E. split; [discriminate|].
    intros [O|O]; apply ltb_asym in O; congruence.
Qed.

Section AtWaypoints.

Local Open Scope float_scope.

Lemma scan_at_first (a b : Waypoint.t) (r : list Waypoint.t) :
  increasing (a :: b :: r) ->
  DroneTrajectory.scan (a :: b :: r) (Waypoint.timestamp a)
  = Some (DroneTrajectory.blend a b (Waypoint.timestamp a)).
Proof.
  intros I. inversion I as [|? ? _ F]; subst. inversion F as [|? ? Lab _]; subst.
  cbn [DroneTrajectory.scan].
  destruct (ltb_is_time Lab) as [Ta _].
  rewrite (leb_refl Ta), (ltb_leb Lab), (ltb_neq Lab). reflexivity.
Qed.

Lemma scan_at_later (ws : list Waypoint.t) (k : nat) (w1 w2 : Waypoint.t) :
  increasing ws ->
  nth_error ws k = Some w1 -> nth_error ws (S k) = Some w2 ->
  DroneTrajectory.scan ws (Waypoint.timestamp w2)
  = Some (DroneTrajectory.blend w1 w2 (Waypoint.timestamp w2)).
Proof.
  revert k. induction ws as [|a l IH]; intros k I H1 H2; [discriminate|].
  destruct l as [|b r]; [destruct k; discriminate|].
  inversion I as [|? ? I' F]; subst. cbn [DroneTrajectory.scan].
  destruct k as [|k'].
  - cbn in H1, H2. injection H1 as ->. injection H2 as ->.
    inversion F as [|? ? Lab _]; subst.
    destruct (ltb_is_time Lab) as [_ Tb].
    rewrite (leb_refl Tb), (ltb_leb Lab), (ltb_neq Lab). reflexivity.
  - cbn [nth_error] in H1, H2.
    assert (L : (Waypoint.timestamp b <? Waypoint.timestamp w2) = true).
    { inversion I' as [|? ? _ Fb]; subst. rewrite Forall_forall in Fb.
      apply Fb. eapply nth_error_In; exact H2. }
    rewrite (ltb_asym L), andb_false_r.
    apply (IH k'); assumption.
Qed.

Lemma increasing_last (l : list Waypoint.t) (w d : Waypoint.t) :
  increasing l -> Forall (fun w => is_time (Waypoint.timestamp w)) l -> In w l ->
  (Waypoint.timestamp w <=? Waypoint.timestamp (last l d)) = true.
Proof.
  induction l as [|a r IH]; intros I T H; [contradiction|].
  inversion I as [|? ? I' F]; subst. inversion T as [|? ? Ta T']; subst.
  destruct r as [|b r'].
  - destruct H as [<-|[]]. now apply leb_refl.
  - change (last (a :: b :: r') d) with (last (b :: r') d).
    destruct H as [<-|H]; [|now apply IH].
    apply ltb_leb. rewrite Forall_forall in F. apply F.
    destruct (exists_last (l := b :: r')) as (l' & z & El); [discriminate|].
    rewrite El, last_last. apply in_or_app; right; now left.
Qed.

Lemma interpolate_member (traj : DroneTrajectory.t) (w : Waypoint.t) :
  valid_trajectory traj -> In w (DroneTrajectory.waypoints traj) ->
  DroneTrajectory.interpolate_position traj (Waypoint.timestamp w)
  = Ok (DroneTrajectory.scan (DroneTrajectory.waypoints traj) (Waypoint.timestamp w)).
Proof.
  intros V H. destruct (valid_waypoints V) as (_ & T & I).
  destruct (valid_nonempty V) as (w0 & w1 & r & E).
  unfold DroneTrajectory.interpolate_position. rewrite E in *.
  assert (L0 : (Waypoint.timestamp w0 <=? Waypoint.timestamp w) = true).
  { inversion I as [|? ? _ F]; subst. inversion T as [|? ? T0 _]; subst.
    destruct H as [<-|H]; [now apply leb_refl|].
    apply ltb_leb. rewrite Forall_forall in F. now apply F. }
  rewrite (leb_not_ltb L0), (leb_not_ltb (@increasing_last _ w w0 I T H)).
  reflexivity.
Qed.

End AtWaypoints.

Section AtLaterWaypoints.

Local Open Scope float_scope.

Lemma increasing_neighbours (ws : list Waypoint.t) (k : nat) (w1 w2 : Waypoint.t) :
  increasing ws -> nth_error ws k = Some w1 -> nth_error ws (S k) = Some w2 ->
  (Waypoint.timestamp w1 <? Waypoint.timestamp w2) = true.
Proof.
  revert k. induction ws as [|a l IH]; intros k I H1 H2; [destruct k; discriminate|].
  inversion I as [|? ? I' F]; subst. destruct k as [|k'].
  - cbn [nth_error] in H1, H2. injection H1 as ->. rewrite Forall_forall in F.
    apply F. eapply (nth_error_In l 0); exact H2.
  - cbn [nth_error] in H1, H2. exact (IH k' I' H1 H2).
Qed.

(** At the start of a segment the fraction is zero. *)
Lemma start_fraction (t1 t2 : float) :
  is_finite t1 = true -> (t1 <? t2) = true -> (t1 - t1) / (t2 - t1) = 0.
Proof.
  intros F L. pose proof (sub_positive _ _ L) as P.
  apply Prim2SF_inj. rewrite div_spec, (sub_self t1 F).
  rewrite FloatAxioms.ltb_spec in P. change (Prim2SF 0) with (S754_zero false) in *.
  unfold SF64div. destruct (Prim2SF (t2 - t1)) as [[|]|[|]| |[|] m e];
    try discriminate; reflexivity.
Qed.

(** The blend at the end of a segment: with a finite duration the fraction
    is one and each coordinate is the rounded sum [c1 + (c2 - c1)]; when the
    duration overflows the fraction and the coordinates are NaN. *)
Lemma blend_at_end (w1 w2 : Waypoint.t) :
  (Waypoint.timestamp w1 <? Waypoint.timestamp w2) = true ->
  let duration := Waypoint.timestamp w2 - Waypoint.timestamp w1 in
  if is_finite duration
  then duration / duration = 1
       /\ DroneTrajectory.blend w1 w2 (Waypoint.timestamp w2)
          = Waypoint.Build (Waypoint.x w1 + (Waypoint.x w2 - Waypoint.x w1))
                           (Waypoint.y w1 + (Waypoint.y w2 - Waypoint.y w1))
                           (Waypoint.z w1 + (Waypoint.z w2 - Waypoint.z w1))
                           (Waypoint.timestamp w2)
  else duration / duration = nan
       /\ DroneTrajectory.blend w1 w2 (Waypoint.timestamp w2)
          = Waypoint.Build nan nan nan (Waypoint.timestamp w2).
Proof.
  intros L duration. pose proof (sub_positive _ _ L) as P. fold duration in P.
  unfold DroneTrajectory.blend. fold duration.
  destruct (is_finite duration) eqn:F.
  - rewrite (div_self duration F (positive_not_zero _ P)).
    split; [reflexivity|]. now rewrite !mul_1_l.
  - rewrite (div_self_not_finite duration F).
    split; [reflexivity|]. now rewrite !add_nan_mul.
Qed.

End AtLaterWaypoints.

(** C5, as the code has it.  At the timestamp of its [k]-th waypoint a valid
    trajectory answers the position stamped with that timestamp that blends
    the segment ending at the waypoint (the first segment for [k = 0]): the
    coordinates are [w1.c + f * (w2.c - w1.c)] with
    [f = (t - w1.t) / (w2.t - w1.t)].  At the first waypoint [f] is zero and
    the coordinates are [==] to the waypoint's when the arithmetic of the
    segment stays finite (a finite start time, start coordinates that are
    numbers, coordinate differences that do not overflow).  At every other
    waypoint, when the duration
    [w2.t - w1.t] of the segment is finite, [f] is one and each coordinate is
    the rounded sum [w1.c + (w2.c - w1.c)], the waypoint's coordinate only up
    to that rounding; when the duration overflows, [f] and the coordinates
    are NaN. *)
Theorem interpolate_at_waypoint (traj : DroneTrajectory.t) (k : nat) (w : Waypoint.t) :
  valid_trajectory traj ->
  nth_error (DroneTrajectory.waypoints traj) k = Some w ->
  exists w1 w2,
    nth_error (DroneTrajectory.waypoints traj) (Nat.pred k) = Some w1
    /\ nth_error (DroneTrajectory.waypoints traj) (S (Nat.pred k)) = Some w2
    /\ (w = if (k =? 0)%nat then w1 else w2)
    /\ DroneTrajectory.interpolate_position traj (Waypoint.timestamp w)
       = Ok (Some (DroneTrajectory.blend w1 w2 (Waypoint.timestamp w)))
    /\ (k = 0%nat -> tame_segment w1 w2 ->
        ((Waypoint.timestamp w - Waypoint.timestamp w1)
         / (Waypoint.timestamp w2 - Waypoint.timestamp w1) = 0)%float
        /\ same_place (DroneTrajectory.blend w1 w2 (Waypoint.timestamp w)) w)
    /\ (k <> 0%nat ->
        if is_finite (Waypoint.timestamp w2 - Waypoint.timestamp w1)%float
        then ((Waypoint.timestamp w - Waypoint.timestamp w1)
              / (Waypoint.timestamp w2 - Waypoint.timestamp w1) = 1)%float
             /\ DroneTrajectory.blend w1 w2 (Waypoint.timestamp w)
                = Waypoint.Build
                    (Waypoint.x w1 + (Waypoint.x w2 - Waypoint.x w1))%float
                    (Waypoint.y w1 + (Waypoint.y w2 - Waypoint.y w1))%float
                    (Waypoint.z w1 + (Waypoint.z w2 - Waypoint.z w1))%float
                    (Waypoint.timestamp w)
        else ((Waypoint.timestamp w - Waypoint.timestamp w1)
              / (Waypoint.timestamp w2 - Waypoint.timestamp w1) = nan)%float
             /\ DroneTrajectory.blend w1 w2 (Waypoint.timestamp w)
                = Waypoint.Build nan nan nan (Waypoint.timestamp w)).
Proof.
  intros V H. rewrite (interpolate_member w V (nth_error_In _ _ H)).
  destruct (valid_waypoints V) as (_ & _ & I).
  destruct (valid_nonempty V) as (a & b & r & E). rewrite E in *.
  destruct k as [|k'].
  - injection H as <-. exists a, b.
    split; [reflexivity|]. split; [reflexivity|]. split; [reflexivity|].
    split; [now rewrite scan_at_first|]. split; [|intros N; now contradiction N].
    intros _ (Ft & (Nx & Fx) & (Ny & Fy) & (Nz & Fz)).
    assert (L : (Waypoint.timestamp a <? Waypoint.timestamp b)%float = true)
      by exact (@increasing_neighbours (a :: b :: r) 0 a b I eq_refl eq_refl).
    pose proof (sub_positive _ _ L) as Pd. split.
    + now apply start_fraction.
    + repeat split; now apply blend_coordinate_at_start.
  - cbn [Nat.pred Nat.eqb].
    destruct (nth_error (a :: b :: r) k') as [w1|] eqn:H1.
    + exists w1, w.
      split; [reflexivity|]. split; [exact H|]. split; [reflexivity|].
      split; [now rewrite (scan_at_later k' I H1 H)|].
      split; [discriminate|]. intros _.
      exact (blend_at_end w1 w (increasing_neighbours k' I H1 H)).
    + apply nth_error_None in H1.
      assert (nth_error (a :: b :: r) (S k') <> None) by congruence.
      apply nth_error_Some in H0. lia.
Qed.

(** C5 fails as stated.  On the valid trajectory
    [(1e16,0,0)@0 -> (1,0,0)@1] the position at the last waypoint's timestamp
    has first coordinate [1e16 + 1.0 * (1 - 1e16) = 0], not the waypoint's
    [1].  On the valid trajectory [(-1e308,0,0)@0 -> (1e308,0,0)@1] the
    position at the first waypoint's timestamp has first coordinate
    [-1e308 + 0.0 * inf], which is NaN. *)
Lemma interpolate_at_waypoint_inexact :
  DroneTrajectory.__init__ "steep" Example.steep_waypoints = Ok Example.steep
  /\ nth_error (DroneTrajectory.waypoints Example.steep) 1
     = Some (Waypoint.Build 1 0 0 1)
  /\ DroneTrajectory.interpolate_position Example.steep 1
     = Ok (Some (Waypoint.Build 0 0 0 1))
  /\ (Waypoint.x (Waypoint.Build 0 0 0 1) =? Waypoint.x (Waypoint.Build 1 0 0 1))%float
     = false
  /\ DroneTrajectory.__init__ "leap" Example.leap_waypoints = Ok Example.leap
  /\ nth_error (DroneTrajectory.waypoints Example.leap) 0
     = Some (Waypoint.Build (-0x1.1ccf385ebc8a0p+1023) 0 0 0)
  /\ DroneTrajectory.interpolate_position Example.leap 0
     = Ok (Some (Waypoint.Build nan 0 0 0))
  /\ (nan =? -0x1.1ccf385ebc8a0p+1023)%float = false.
Proof. repeat split. Qed.

(** When the duration of the segment overflows, the position at the
    timestamp of its end holds no number. *)
Example interpolate_at_waypoint_overflow :
  DroneTrajectory.__init__ "wide" Example.wide_waypoints = Ok Example.wide
  /\ nth_error (DroneTrajectory.waypoints Example.wide) 1
     = Some (Waypoint.Build 1 1 1 0x1.1ccf385ebc8a0p+1023)
  /\ DroneTrajectory.interpolate_position Example.wide 0x1.1ccf385ebc8a0p+1023
     = Ok (Some (Waypoint.Build nan nan nan 0x1.1ccf385ebc8a0p+1023)).
Proof. repeat split. Qed.

(* ================================================================== *)
(** * Facts: sampling *)
(* ================================================================== *)

Section Sampling.

Local Open Scope float_scope.

Lemma set_last_length (y : list float) (stop : float) :
  length (Np.set_last y stop) = length y.
Proof.
  induction y as [|a [|b r] IH]; cbn in *; auto.
Qed.

Lemma set_last_snoc (y : list float) (stop : float) :
  y <> [] -> exists front, Np.set_last y stop = front ++ [stop].
Proof.
  induction y as [|a [|b r] IH]; intros N; [contradiction| |].
  - exists []. reflexivity.
  - destruct IH as [front E]; [discriminate|].
    exists (a :: front). cbn [Np.set_last] in *. now rewrite E.
Qed.

Lemma linspace_ok (start stop : float) (num : Z) :
  (0 <= num)%Z ->
  exists grid,
    Np.linspace start stop num = Ok grid /\ length grid = Z.to_nat num.
Proof.
  intros H. unfold Np.linspace.
  destruct (Z.ltb_spec num 0) as [L|_]; [lia|].
  eexists; split; [reflexivity|].
  destruct (1 <? num)%Z; rewrite ?set_last_length, length_map;
    destruct (0 <? num - 1)%Z; try destruct (_ =? 0);
    now rewrite !length_map, length_seq.
Qed.

Lemma linspace_last (start stop : float) (num : Z) (grid : list float) :
  (2 <= num)%Z -> Np.linspace start stop num = Ok grid ->
  exists front, grid = front ++ [stop].
Proof.
  intros H E. destruct (linspace_ok start stop (num := num)) as (g & Eg & Lg); [lia|].
  rewrite E in Eg. injection Eg as <-.
  unfold Np.linspace in E.
  destruct (Z.ltb_spec num 0) as [L|_]; [lia|].
  destruct (Z.ltb_spec 1 num) as [_|L]; [|lia].
  injection E as <-. apply set_last_snoc.
  intros N. apply (f_equal (@length float)) in N.
  rewrite set_last_length in Lg. rewrite Lg in N. cbn in N. lia.
Qed.

(** The grid starts at [start] when its step is finite. *)
Lemma linspace_head (start stop : float) (num : Z) (grid : list float) :
  (2 <= num)%Z -> Np.linspace start stop num = Ok grid ->
  is_nan start = false -> is_finite (grid_step start stop num) = true ->
  exists g rest, grid = g :: rest /\ (g =? start) = true.
Proof.
  intros H E Ns Fs. unfold Np.linspace in E. unfold grid_step in Fs.
  destruct (Z.ltb_spec num 0) as [L|_]; [lia|].
  destruct (Z.ltb_spec 0 (num - 1)) as [_|L]; [|lia].
  destruct (Z.ltb_spec 1 num) as [_|L]; [|lia].
  destruct (Z.to_nat num) as [|[|m]] eqn:En; [lia|lia|].
  cbn [seq map] in E. change (Py.float_of_Z (Z.of_nat 0)) with 0 in E.
  destruct ((stop - start) / Py.float_of_Z (num - 1) =? 0) eqn:Z0;
    cbn [map Np.set_last] in E; injection E as <-; eexists _, _;
    (split; [reflexivity|]).
  - destruct (zero_quotient Z0) as [s Es]. exact (@zero_add _ start s Es Ns).
  - assert (E0 : Prim2SF 0 = S754_zero false) by reflexivity.
    destruct (@zero_mul 0 _ false E0 Fs) as [s Es]. exact (@zero_add _ start s Es Ns).
Qed.

Lemma set_last_app (y : list float) (v stop : float) :
  Np.set_last (y ++ [v]) stop = y ++ [stop].
Proof.
  induction y as [|a r IH]; [reflexivity|].
  cbn [app]. destruct r as [|b r']; [reflexivity|].
  change (Np.set_last (a :: (b :: r') ++ [v]) stop)
    with (a :: Np.set_last ((b :: r') ++ [v]) stop).
  now rewrite IH.
Qed.

(** [np.linspace] returns the evenly spaced timestamps. *)
Lemma linspace_evenly_spaced (start stop : float) (num : Z) :
  Np.linspace start stop num
  = if (num <? 0)%Z then Raise ValueError else Ok (evenly_spaced start stop num).
Proof.
  unfold Np.linspace, evenly_spaced.
  destruct (Z.ltb_spec num 0) as [L|L]; [reflexivity|]. f_equal.
  assert (G : map (fun v => v + start)
                (if (0 <? num - 1)%Z
                 then
                   if (stop - start) / Py.float_of_Z (num - 1) =? 0
                   then map (fun v => v / Py.float_of_Z (num - 1) * (stop - start))
                          (map (fun i => Py.float_of_Z (Z.of_nat i)) (seq 0 (Z.to_nat num)))
                   else map (fun v => v * ((stop - start) / Py.float_of_Z (num - 1)))
                          (map (fun i => Py.float_of_Z (Z.of_nat i)) (seq 0 (Z.to_nat num)))
                 else map (fun v => v * (stop - start))
                        (map (fun i => Py.float_of_Z (Z.of_nat i)) (seq 0 (Z.to_nat num))))
              = map (grid_point start stop num) (seq 0 (Z.to_nat num))).
  { unfold grid_point.
    replace (0 <? num - 1)%Z with (1 <? num)%Z
      by (destruct (Z.ltb_spec 1 num), (Z.ltb_spec 0 (num - 1)); lia || reflexivity).
    destruct (1 <? num)%Z; [destruct (_ =? 0)|]; now rewrite !map_map. }
  rewrite G. destruct (Z.to_nat num) as [|k] eqn:En.
  - now destruct (1 <? num)%Z.
  - destruct (Z.ltb_spec 1 num) as [L1|L1].
    + rewrite seq_S, map_app. cbn [map]. apply set_last_app.
    + assert (k = 0%nat) by lia. subst k. reflexivity.
Qed.

Lemma sample_at_ok (traj : DroneTrajectory.t) (ts : list float) :
  DroneTrajectory.waypoints traj <> [] ->
  DroneTrajectory.sample_at traj ts
  = Ok (flat_map (fun t => match position_at traj t with
                           | Some w => [w]
                           | None => []
                           end) ts).
Proof.
  intros N. induction ts as [|t r IH]; [reflexivity|].
  cbn [DroneTrajectory.sample_at flat_map]. rewrite IH.
  unfold position_at, DroneTrajectory.interpolate_position.
  destruct (DroneTrajectory.waypoints traj) as [|w0 l]; [contradiction|].
  destruct (_ || _); [reflexivity|].
  destruct (DroneTrajectory.scan (w0 :: l) t); reflexivity.
Qed.

Lemma scan_timestamp (ws : list Waypoint.t) (t : float) (p : Waypoint.t) :
  increasing ws -> DroneTrajectory.scan ws t = Some p ->
  Waypoint.timestamp p = t
  /\ exists w1 w2, In w1 ws /\ In w2 ws
       /\ (Waypoint.timestamp w1 <=? t) = true /\ (t <=? Waypoint.timestamp w2) = true.
Proof.
  induction ws as [|a l IH]; intros I H; [discriminate|].
  destruct l as [|b r]; [discriminate|].
  inversion I as [|? ? I' F]; subst. inversion F as [|? ? Lab _]; subst.
  cbn [DroneTrajectory.scan] in H.
  destruct ((Waypoint.timestamp a <=? t) && (t <=? Waypoint.timestamp b)) eqn:C.
  - rewrite (ltb_neq Lab) in H. injection H as <-.
    apply andb_true_iff in C as [C1 C2].
    split; [reflexivity|]. exists a, b. cbn; auto.
  - destruct (IH I' H) as (E & w1 & w2 & H1 & H2 & L1 & L2).
    split; [exact E|]. exists w1, w2. cbn in *; auto.
Qed.

(** A position is defined exactly at the timestamps inside the bounds, and
    carries the timestamp it was asked for. *)
Lemma position_at_in_bounds (traj : DroneTrajectory.t) (t : float) :
  valid_trajectory traj ->
  match position_at traj t with
  | Some p => Waypoint.timestamp p = t
              /\ in_bounds (start_time traj) (end_time traj) t = true
  | None => in_bounds (start_time traj) (end_time traj) t = false
  end.
Proof.
  intros V. destruct (valid_waypoints V) as (_ & T & I).
  pose proof (valid_bounds V) as B.
  destruct (valid_nonempty V) as (w0 & w1 & r & E).
  destruct (is_nan t) eqn:Nt.
  - assert (G : forall a, (a <=? t) = false /\ (t <? a) = false /\ (a <? t) = false)
      by (intros a; repeat split; float_keys).
    unfold position_at, DroneTrajectory.interpolate_position, in_bounds.
    rewrite E. rewrite !(proj1 (proj2 (G _))), !(proj2 (proj2 (G _))). cbn [orb].
    assert (S : forall l, DroneTrajectory.scan l t = None).
    { induction l as [|a [|b l'] IH]; try reflexivity.
      cbn [DroneTrajectory.scan]. rewrite (proj1 (G _)). exact IH. }
    rewrite S. now rewrite (proj1 (G _)).
  - destruct (interpolate_cases V Nt) as [(O & Ei)|(L0 & L1 & p & Ei)];
      unfold position_at, in_bounds; rewrite Ei.
    + destruct O as [O|O]; apply ltb_asym in O; rewrite O; auto using andb_false_r.
    + rewrite L0, L1. split; [|reflexivity].
      unfold DroneTrajectory.interpolate_position in Ei. rewrite E in Ei.
      remember (DroneTrajectory.scan (w0 :: w1 :: r) t) as s eqn:Es.
      destruct (_ || _); [discriminate|]. injection Ei as ->. symmetry in Es.
      rewrite E in I. now destruct (scan_timestamp t I Es).
Qed.

Lemma samples_timestamps (traj : DroneTrajectory.t) (grid : list float) :
  valid_trajectory traj ->
  map Waypoint.timestamp
      (flat_map (fun t => match position_at traj t with
                          | Some w => [w]
                          | None => []
                          end) grid)
  = filter (in_bounds (start_time traj) (end_time traj)) grid.
Proof.
  intros V. induction grid as [|t r IH]; [reflexivity|].
  cbn [flat_map filter]. rewrite map_app, IH.
  pose proof (position_at_in_bounds t V) as P.
  destruct (position_at traj t) as [p|].
  - destruct P as [Ep Eb]. rewrite Eb. cbn. now rewrite Ep.
  - now rewrite P.
Qed.

Lemma nondecreasing_sorted (l : list float) :
  nondecreasing l = true <-> Sorted (fun a b => (a <=? b) = true) l.
Proof.
  induction l as [|a [|b r] IH]; split; intros H; try reflexivity;
    try (repeat constructor; fail).
  - cbn [nondecreasing] in H. apply andb_true_iff in H as [L H].
    constructor; [now apply IH|now constructor].
  - inversion H as [|? ? S Hd]; subst. inversion Hd; subst.
    cbn [nondecreasing]. apply andb_true_iff. split; [assumption|now apply IH].
Qed.

Lemma nondecreasing_filter (p : float -> bool) (l : list float) :
  nondecreasing l = true -> nondecreasing (filter p l) = true.
Proof.
  rewrite !nondecreasing_sorted. intros S.
  apply StronglySorted_Sorted.
  apply Sorted_StronglySorted in S; [|intros a b c; apply leb_trans].
  induction S as [|a r S IH F]; cbn; [constructor|].
  destruct (p a); [|exact IH]. constructor; [exact IH|].
  rewrite Forall_forall in *. intros b Hb. apply filter_In in Hb as [Hb _]. now apply F.
Qed.

Lemma valid_start_le_end (traj : DroneTrajectory.t) :
  valid_trajectory traj ->
  is_time (start_time traj) /\ is_time (end_time traj)
  /\ (start_time traj <? end_time traj) = true.
Proof.
  intros V. destruct (valid_waypoints V) as (_ & T & I).
  destruct (valid_nonempty V) as (w0 & w1 & r & E).
  unfold start_time, end_time, DroneTrajectory.get_trajectory_bounds. rewrite E in *.
  assert (L : (Waypoint.timestamp w0 <? Waypoint.timestamp (last (w0 :: w1 :: r) w0)) = true).
  { inversion I as [|? ? _ F]; subst. rewrite Forall_forall in F. apply F.
    rewrite last_cons2.
    destruct (exists_last (l := w1 :: r)) as (l' & z & El); [discriminate|].
    rewrite El, last_last. apply in_or_app; right; now left. }
  destruct (ltb_is_time L). auto.
Qed.

End Sampling.

Lemma filter_shorter {A : Type} (p : A -> bool) (l : list A) :
  (length (filter p l) <= length l)%nat.
Proof. induction l as [|a r IH]; cbn; [lia|]. destruct (p a); cbn; lia. Qed.

Lemma drone1_valid : valid_trajectory Example.drone1.
Proof. exists Example.simple_waypoints. split; [repeat constructor|reflexivity]. Qed.

Lemma drone2_valid : valid_trajectory Example.drone2.
Proof. exists Example.conflict_waypoints. split; [repeat constructor|reflexivity]. Qed.

Section Grid.

Local Open Scope float_scope.

Lemma filter_ordered (p : float -> bool) (l : list float) :
  ForallOrdPairs (fun a b => p a = true -> p b = true -> (a <=? b) = true) l ->
  nondecreasing (filter p l) = true.
Proof.
  intros H. apply nondecreasing_sorted, StronglySorted_Sorted.
  induction H as [|a l F _ IH]; cbn [filter]; [constructor|].
  destruct (p a) eqn:Pa; [|exact IH]. constructor; [exact IH|].
  rewrite Forall_forall in *. intros b Hb. apply filter_In in Hb as [Hb Pb].
  now apply F.
Qed.

Lemma grid_pairs (R : float -> float -> Prop) (g : nat -> float) (e : float) (a k : nat) :
  (forall i j, (i <= j)%nat -> R (g i) (g j)) -> (forall i, R (g i) e) ->
  ForallOrdPairs R (map g (seq a k) ++ [e]).
Proof.
  intros Hg He. revert a. induction k as [|k IH]; intros a.
  - repeat constructor.
  - cbn [seq map app]. constructor; [|apply IH].
    apply Forall_app. split; [|now constructor].
    apply Forall_forall. intros x Hx. apply in_map_iff in Hx as (j & <- & Hj).
    apply in_seq in Hj. apply Hg. lia.
Qed.

Lemma index_not_negative (i : nat) : (0 <=? Py.float_of_Z (Z.of_nat i)) = true.
Proof. apply (float_of_Z_monotone 0 (Z.of_nat i)). lia. Qed.

Lemma parts_positive (n : Z) : (1 < n)%Z -> (0 <? Py.float_of_Z (n - 1)) = true.
Proof.
  intros H. pose proof (float_of_Z_monotone 1 (n - 1) ltac:(lia)) as L.
  change (Py.float_of_Z 1) with 1 in L.
  assert (P : (0 <? 1) = true) by reflexivity.
  clear H. float_keys.
Qed.

(** The points of the grid never decrease, as far as they are numbers. *)
Lemma grid_point_monotone (start stop : float) (num : Z) (i j : nat) :
  (start <? stop) = true -> (i <= j)%nat ->
  is_nan (grid_point start stop num i) = false ->
  is_nan (grid_point start stop num j) = false ->
  (grid_point start stop num i <=? grid_point start stop num j) = true.
Proof.
  intros L H. unfold grid_point.
  pose proof (sub_positive start stop L) as Ps. apply ltb_leb in Ps.
  pose proof (index_not_negative i) as Pi.
  pose proof (float_of_Z_monotone (Z.of_nat i) (Z.of_nat j) ltac:(lia)) as Lij.
  set (span := stop - start) in *.
  set (a := Py.float_of_Z (Z.of_nat i)) in *.
  set (b := Py.float_of_Z (Z.of_nat j)) in *.
  destruct (Z.ltb_spec 1 num) as [Hn|Hn].
  - pose proof (parts_positive Hn) as Pp.
    set (parts := Py.float_of_Z (num - 1)) in *.
    destruct (span / parts =? 0) eqn:Z0; intros Ni Nj.
    + destruct (add_is_nan _ _ Ni) as [Mi _]. destruct (add_is_nan _ _ Nj) as [Mj _].
      destruct (mul_is_nan _ _ Mi) as [Qi _]. destruct (mul_is_nan _ _ Mj) as [Qj _].
      destruct (div_monotone a b parts Pi Lij Pp Qi Qj) as [Q0 Q].
      apply add_monotone; try assumption.
      apply mul_monotone; assumption.
    + destruct (add_is_nan _ _ Ni) as [Mi _]. destruct (add_is_nan _ _ Nj) as [Mj _].
      destruct (mul_is_nan _ _ Mi) as [_ Ns].
      assert (Ls : (span <=? span) = true) by (clear - Ps; float_keys).
      destruct (div_monotone span span parts Ps Ls Pp Ns Ns) as [S0 _].
      apply add_monotone; try assumption.
      apply mul_monotone; assumption.
  - intros Ni Nj.
    destruct (add_is_nan _ _ Ni) as [Mi _]. destruct (add_is_nan _ _ Nj) as [Mj _].
    apply add_monotone; try assumption.
    apply mul_monotone; assumption.
Qed.

Lemma in_bounds_is_time (start stop t : float) :
  in_bounds start stop t = true -> is_nan t = false /\ (t <=? stop) = true.
Proof.
  unfold in_bounds. intros H. apply andb_true_iff in H as [H1 H2].
  split; [clear H2; float_keys|exact H2].
Qed.

(** The timestamps of the grid that fall inside the bounds never decrease. *)
Lemma evenly_spaced_ordered (start stop : float) (num : Z) :
  (start <? stop) = true ->
  nondecreasing (filter (in_bounds start stop) (evenly_spaced start stop num)) = true.
Proof.
  intros L. unfold evenly_spaced.
  destruct (Z.to_nat num) as [|k]; [reflexivity|].
  destruct (1 <? num)%Z.
  - apply filter_ordered. apply grid_pairs.
    + intros i j H Bi Bj.
      apply in_bounds_is_time in Bi as [Ni _]. apply in_bounds_is_time in Bj as [Nj _].
      now apply grid_point_monotone.
    + intros i Bi _. now apply in_bounds_is_time in Bi as [_ Bi].
  - cbn [filter]. now destruct (in_bounds _ _ _).
Qed.


Lemma evenly_spaced_length (start stop : float) (num : Z) :
  length (evenly_spaced start stop num) = Z.to_nat num.
Proof.
  unfold evenly_spaced. destruct (Z.to_nat num) as [|k] eqn:E; [reflexivity|].
  destruct (Z.ltb_spec 1 num).
  - rewrite length_app, length_map, length_seq. cbn. lia.
  - cbn. lia.
Qed.

(** Over a step that is not finite the grid points are [index * step +
    start], and those that are numbers are the positive infinity. *)
Lemma grid_point_not_finite (start stop : float) (num : Z) (i : nat) :
  (start <? stop) = true ->
  is_finite (grid_step start stop num) = false ->
  is_nan (grid_point start stop num i) = false ->
  (grid_point start stop num i =? infinity) = true.
Proof.
  intros L F. unfold grid_point. unfold grid_step in F.
  pose proof (sub_positive start stop L) as Ps.
  pose proof (index_not_negative i) as Pi.
  destruct (Z.ltb_spec 1 num) as [Hn|Hn].
  - rewrite (not_finite_not_zero _ F). intros N.
    apply grid_not_finite; try assumption.
    destruct (is_nan ((stop - start) / Py.float_of_Z (num - 1))) eqn:Ns.
    + clear - Ns. float_keys.
    + apply ltb_leb in Ps.
      assert (Ls : (stop - start <=? stop - start) = true) by (clear - Ps; float_keys).
      destruct (div_monotone _ _ _ Ps Ls (parts_positive Hn) Ns Ns) as [S0 _].
      now apply leb_not_ltb.
  - intros N. apply grid_not_finite; try assumption.
    now apply leb_not_ltb, ltb_leb.
Qed.

(** The samples are the positions of the trajectory at their own
    timestamps. *)
Lemma sampled_positions (traj : DroneTrajectory.t) (grid : list float) :
  valid_trajectory traj ->
  Forall (fun p =>
            DroneTrajectory.interpolate_position traj (Waypoint.timestamp p)
            = Ok (Some p))
         (flat_map (fun t => match position_at traj t with
                             | Some w => [w]
                             | None => []
                             end) grid).
Proof.
  intros V. apply Forall_forall. intros p I.
  apply in_flat_map in I as (t & _ & I).
  pose proof (@position_at_in_bounds traj t V) as B.
  destruct (position_at traj t) as [q|] eqn:Eq; [|contradiction].
  destruct I as [<-|[]]. destruct B as [Tq _]. rewrite Tq.
  unfold position_at in Eq.
  destruct (DroneTrajectory.interpolate_position traj t) as [[q'|]|e];
    try discriminate.
  now injection Eq as ->.
Qed.

End Grid.

(** C8, as the code has it.  [sample_trajectory(n)] of a valid trajectory
    raises [ValueError] for a negative [n]; otherwise it returns the
    waypoints interpolated at those of the [n] evenly spaced timestamps
    [np.linspace(start, end, n)] that lie inside the bounds, in the order of
    the grid, each the position of the trajectory at its own timestamp: at
    most [n] of them, never decreasing in timestamp.  For
    [n >= 2] the last one is stamped [end].  For [n >= 1] the first one is
    stamped [start] when the step of the grid is finite; when it is not,
    because [end - start] overflows, every sample is later than [start]. *)
Theorem sample_trajectory_grid (traj : DroneTrajectory.t) (n : Z) :
  valid_trajectory traj ->
  ((n < 0)%Z -> DroneTrajectory.sample_trajectory traj n = Raise ValueError)
  /\ ((0 <= n)%Z ->
      exists samples,
        DroneTrajectory.sample_trajectory traj n = Ok samples
        /\ map Waypoint.timestamp samples
           = filter (in_bounds (start_time traj) (end_time traj))
               (evenly_spaced (start_time traj) (end_time traj) n)
        /\ Forall (fun p =>
                     DroneTrajectory.interpolate_position traj (Waypoint.timestamp p)
                     = Ok (Some p))
                  samples
        /\ (length samples <= Z.to_nat n)%nat
        /\ nondecreasing (map Waypoint.timestamp samples) = true
        /\ ((2 <= n)%Z ->
            exists front, map Waypoint.timestamp samples = front ++ [end_time traj])
        /\ ((1 <= n)%Z ->
            is_finite (grid_step (start_time traj) (end_time traj) n) = true ->
            exists first rest,
              samples = first :: rest
              /\ (Waypoint.timestamp first =? start_time traj)%float = true)
        /\ (is_finite (grid_step (start_time traj) (end_time traj) n) = false ->
            Forall (fun p => (start_time traj <? Waypoint.timestamp p)%float = true)
                   samples)).
Proof.
  intros V.
  destruct (valid_nonempty V) as (w0 & w1 & r & E).
  destruct (valid_start_le_end V) as (Ts & Te & Lse).
  pose proof (linspace_evenly_spaced (start_time traj) (end_time traj) n) as Eg.
  assert (Es : DroneTrajectory.sample_trajectory traj n
               = (timestamps <- Np.linspace (start_time traj) (end_time traj) n ;;
                  DroneTrajectory.sample_at traj timestamps)%py).
  { unfold DroneTrajectory.sample_trajectory. now rewrite (valid_bounds V). }
  split.
  { intros Hn. rewrite Es, Eg. destruct (Z.ltb_spec n 0); [reflexivity|lia]. }
  intros Hn. destruct (Z.ltb_spec n 0) as [?|_]; [lia|].
  set (grid := evenly_spaced (start_time traj) (end_time traj) n) in *.
  set (samples := flat_map (fun t => match position_at traj t with
                                     | Some w => [w]
                                     | None => []
                                     end) grid).
  assert (Em : map Waypoint.timestamp samples
               = filter (in_bounds (start_time traj) (end_time traj)) grid)
    by apply (samples_timestamps grid V).
  assert (Be : in_bounds (start_time traj) (end_time traj) (end_time traj) = true).
  { unfold in_bounds. now rewrite (ltb_leb Lse), (leb_refl Te). }
  exists samples. split; [|split; [exact Em|split; [now apply sampled_positions|]]].
  { rewrite Es, Eg. cbn [bind]. apply sample_at_ok. rewrite E. discriminate. }
  split; [|split; [|split; [|split]]].
  - rewrite <- (length_map Waypoint.timestamp), Em,
      <- (evenly_spaced_length (start_time traj) (end_time traj) n).
    apply filter_shorter.
  - rewrite Em. now apply evenly_spaced_ordered.
  - intros H2. rewrite Em. unfold grid, evenly_spaced.
    destruct (Z.to_nat n) as [|k] eqn:En; [lia|].
    destruct (Z.ltb_spec 1 n); [|lia].
    rewrite filter_app. cbn [filter]. rewrite Be. eauto.
  - intros H1 Fs.
    assert (G : exists g rest, grid = g :: rest /\ (g =? start_time traj)%float = true).
    { destruct (Z.le_gt_cases 2 n) as [H2|H2].
      - now apply (@linspace_head _ (end_time traj) n).
      - assert (n = 1%Z) by lia. subst n. unfold grid, evenly_spaced, grid_point.
        cbn [Z.to_nat Pos.to_nat Pos.iter_op Z.ltb Z.compare Pos.compare Pos.compare_cont].
        eexists _, _. split; [reflexivity|].
        change (Py.float_of_Z (Z.of_nat 0)) with 0%float.
        assert (E0 : Prim2SF 0 = S754_zero false) by reflexivity.
        destruct (@zero_mul 0%float _ false E0 Fs) as [s Ez].
        exact (@zero_add _ (start_time traj) s Ez Ts). }
    destruct G as (g & rest & Egr & Rg). rewrite Egr in Em. cbn [filter] in Em.
    assert (B : in_bounds (start_time traj) (end_time traj) g = true).
    { unfold in_bounds. apply andb_true_iff. split.
      - clear - Rg; float_keys.
      - clear - Rg Lse; float_keys. }
    rewrite B in Em. destruct samples as [|first others]; [discriminate|].
    injection Em as Ef _. exists first, others. now rewrite Ef.
  - intros Fs. rewrite <- Forall_map with (f := Waypoint.timestamp)
                 (P := fun t => (start_time traj <? t)%float = true).
    rewrite Em. apply Forall_forall. intros t Ht.
    apply filter_In in Ht as [Ht Bt]. apply in_bounds_is_time in Bt as [Nt _].
    assert (C : t = end_time traj
                \/ exists i, t = grid_point (start_time traj) (end_time traj) n i).
    { unfold grid, evenly_spaced in Ht.
      destruct (Z.to_nat n) as [|k]; [contradiction|].
      destruct (1 <? n)%Z.
      - apply in_app_iff in Ht as [Ht|[<-|[]]]; [|now left].
        apply in_map_iff in Ht as (i & <- & _). eauto.
      - destruct Ht as [<-|[]]. eauto. }
    destruct C as [->|(i & ->)]; [exact Lse|].
    apply (@below_infinity _ (end_time traj)); [exact Lse|].
    now apply grid_point_not_finite.
Qed.

Lemma sample_trajectory_grid_witness :
  valid_trajectory Example.drone1
  /\ exists samples,
       DroneTrajectory.sample_trajectory Example.drone1 5 = Ok samples
       /\ map Waypoint.timestamp samples
          = filter (in_bounds (start_time Example.drone1) (end_time Example.drone1))
              (evenly_spaced (start_time Example.drone1) (end_time Example.drone1) 5)
       /\ Forall (fun p =>
                    DroneTrajectory.interpolate_position Example.drone1
                      (Waypoint.timestamp p)
                    = Ok (Some p))
                 samples
       /\ (length samples <= 5)%nat
       /\ nondecreasing (map Waypoint.timestamp samples) = true
       /\ (exists front,
             map Waypoint.timestamp samples = front ++ [end_time Example.drone1])
       /\ (exists first rest,
             samples = first :: rest
             /\ (Waypoint.timestamp first =? start_time Example.drone1)%float = true).
Proof.
  split; [exact drone1_valid|].
  destruct (sample_trajectory_grid 5 drone1_valid) as [_ H].
  destruct (H ltac:(lia)) as (samples & Es & Em & Hp & Ll & Nd & Hl & Hf & _).
  exists samples. repeat split; try assumption.
  - apply Hl. lia.
  - apply Hf; [lia|reflexivity].
Defined.

(** On the test trajectory the five evenly spaced timestamps have the
    finite step [2.5], and the five samples are stamped with them. *)
Example sample_trajectory_on_test :
  grid_step (start_time Example.drone1) (end_time Example.drone1) 5 = 2.5%float
  /\ evenly_spaced (start_time Example.drone1) (end_time Example.drone1) 5
     = [0; 2.5; 5; 7.5; 10]%float
  /\ DroneTrajectory.sample_trajectory Example.drone1 5
     = Ok [Waypoint.Build 0 0 100 0; Waypoint.Build 25 0 100 2.5;
           Waypoint.Build 50 0 100 5; Waypoint.Build 75 0 100 7.5;
           Waypoint.Build 100 0 100 10]%float.
Proof. repeat split. Qed.

(** C8 fails as stated.  For [n = 1] the one sample is stamped [start], so
    the last timestamp is not the end bound; for [n = 0] there is no sample
    and so no first or last one; a negative [n] raises.  And on a valid
    trajectory from [-1e308] to [1e308], whose duration overflows, the five
    evenly spaced timestamps are [nan, inf, inf, inf, 1e308]: the only
    sample is stamped [end], none is stamped [start]. *)
Lemma sample_trajectory_misses_bounds :
  DroneTrajectory.__init__ "drone1" Example.simple_waypoints = Ok Example.drone1
  /\ DroneTrajectory.get_trajectory_bounds Example.drone1 = Ok (0, 10)%float
  /\ DroneTrajectory.sample_trajectory Example.drone1 1
     = Ok [Waypoint.Build 0 0 100 0]
  /\ (Waypoint.timestamp (Waypoint.Build 0 0 100 0) =? 10)%float = false
  /\ DroneTrajectory.sample_trajectory Example.drone1 0 = Ok []
  /\ DroneTrajectory.sample_trajectory Example.drone1 (-1) = Raise ValueError
  /\ DroneTrajectory.__init__ "wide" Example.wide_waypoints = Ok Example.wide
  /\ DroneTrajectory.get_trajectory_bounds Example.wide
     = Ok (-0x1.1ccf385ebc8a0p+1023, 0x1.1ccf385ebc8a0p+1023)%float
  /\ evenly_spaced (-0x1.1ccf385ebc8a0p+1023) 0x1.1ccf385ebc8a0p+1023 5
     = [nan; infinity; infinity; infinity; 0x1.1ccf385ebc8a0p+1023]%float
  /\ DroneTrajectory.sample_trajectory Example.wide 5
     = Ok [Waypoint.Build nan nan nan 0x1.1ccf385ebc8a0p+1023]
  /\ (0x1.1ccf385ebc8a0p+1023 =? -0x1.1ccf385ebc8a0p+1023)%float = false.
Proof. repeat split. Qed.

Lemma drone3_valid : valid_trajectory Example.drone3.
Proof. exists Example.curved_waypoints. split; [repeat constructor|reflexivity]. Qed.

Lemma interpolate_none_iff_outside_witness :
  valid_trajectory Example.drone3 /\ is_time 7.5
  /\ DroneTrajectory.get_trajectory_bounds Example.drone3 = Ok (0, 10)%float
  /\ (DroneTrajectory.interpolate_position Example.drone3 7.5 = Ok None
      <-> ((7.5 <? 0)%float = true \/ (10 <? 7.5)%float = true))
  /\ ((0 <=? 7.5)%float = true -> (7.5 <=? 10)%float = true ->
      exists p, DroneTrajectory.interpolate_position Example.drone3 7.5 = Ok (Some p)).
Proof.
  assert (T : is_time 7.5) by reflexivity.
  split; [exact drone3_valid|]. split; [exact T|].
  exact (interpolate_none_iff_outside drone3_valid T).
Defined.

(** A NaN argument passes the guard and no segment brackets it. *)
Example interpolate_at_nan :
  DroneTrajectory.interpolate_position Example.drone3 nan = Ok None
  /\ (nan <? start_time Example.drone3)%float = false
  /\ (end_time Example.drone3 <? nan)%float = false.
Proof. repeat split. Qed.

Lemma interpolate_at_waypoint_witness :
  valid_trajectory Example.drone3
  /\ nth_error (DroneTrajectory.waypoints Example.drone3) 1
     = Some (Waypoint.Build 50 25 75 5)
  /\ exists w1 w2,
       nth_error (DroneTrajectory.waypoints Example.drone3) (Nat.pred 1) = Some w1
       /\ nth_error (DroneTrajectory.waypoints Example.drone3) (S (Nat.pred 1)) = Some w2
       /\ DroneTrajectory.interpolate_position Example.drone3 5
          = Ok (Some (DroneTrajectory.blend w1 w2 5))
       /\ DroneTrajectory.blend w1 w2 5
          = Waypoint.Build (Waypoint.x w1 + (Waypoint.x w2 - Waypoint.x w1))%float
                           (Waypoint.y w1 + (Waypoint.y w2 - Waypoint.y w1))%float
                           (Waypoint.z w1 + (Waypoint.z w2 - Waypoint.z w1))%float
                           5.
Proof.
  split; [exact drone3_valid|].
  assert (H : nth_error (DroneTrajectory.waypoints Example.drone3) 1
              = Some (Waypoint.Build 50 25 75 5)) by reflexivity.
  split; [exact H|].
  destruct (interpolate_at_waypoint 1 drone3_valid H)
    as (w1 & w2 & H1 & H2 & _ & Hi & _ & Hk).
  exists w1, w2. split; [exact H1|]. split; [exact H2|]. split; [exact Hi|].
  specialize (Hk ltac:(discriminate)).
  cbn in H1, H2. injection H1 as <-. injection H2 as <-. exact (proj2 Hk).
Defined.

(** The first waypoint of the test trajectory: the segment is tame and the
    interpolated position is the waypoint. *)
Example interpolate_at_first_waypoint :
  tame_segment (Waypoint.Build 0 0 100 0) (Waypoint.Build 100 0 100 10)
  /\ DroneTrajectory.interpolate_position Example.drone1 0
     = Ok (Some (Waypoint.Build 0 0 100 0)).
Proof. repeat split. Qed.

Section Dictionaries.

Context {V : Type}.

Lemma dict_set_keys (d : list (string * V)) (k : string) (v : V) :
  Dict.keys (Dict.set d k v)
  = if existsb (String.eqb k) (Dict.keys d) then Dict.keys d else Dict.keys d ++ [k].
Proof.
  unfold Dict.keys. induction d as [|[k' v'] r IH]; [reflexivity|].
  cbn [Dict.set map fst existsb]. rewrite (String.eqb_sym k k').
  destruct (String.eqb k' k); cbn [orb map fst]; [reflexivity|].
  rewrite IH. now destruct (existsb _ _).
Qed.

(** An assignment keeps the keys of a dictionary distinct. *)
Lemma dict_set_nodup (d : list (string * V)) (k : string) (v : V) :
  NoDup (Dict.keys d) -> NoDup (Dict.keys (Dict.set d k v)).
Proof.
  intros N. rewrite dict_set_keys.
  destruct (existsb (String.eqb k) (Dict.keys d)) eqn:E; [exact N|].
  apply NoDup_app; [exact N|repeat constructor; intros []|].
  intros k' I [<-|[]].
  assert (X : existsb (String.eqb k) (Dict.keys d) = true); [|congruence].
  apply existsb_exists. exists k. split; [exact I|apply String.eqb_refl].
Qed.

Lemma dict_set_forall (P : string * V -> Prop) (d : list (string * V)) (k : string) (v : V) :
  Forall P d -> P (k, v) -> Forall P (Dict.set d k v).
Proof.
  intros F Pk. induction F as [|[k' v'] r Pa F IH]; cbn [Dict.set].
  - now constructor.
  - destruct (String.eqb_spec k' k) as [->|_]; now constructor.
Qed.

End Dictionaries.

(* ================================================================== *)
(** * Facts: the positions dictionary and the spatial detector *)
(* ================================================================== *)

Section SpatialFacts.

Context {libm : Libm}.

Local Open Scope float_scope.

Lemma dict_set_fresh {V : Type} (d : list (string * V)) (k : string) (v : V) :
  ~ In k (Dict.keys d) -> Dict.set d k v = d ++ [(k, v)].
Proof.
  induction d as [|[k' v'] r IH]; intros N; [reflexivity|].
  cbn in *. destruct (String.eqb_spec k' k) as [->|_]; [tauto|].
  rewrite IH; tauto.
Qed.

Lemma dict_get_member {V : Type} (d : list (string * V)) (k : string) (v : V) :
  NoDup (Dict.keys d) -> In (k, v) d -> Dict.get d k = Ok v.
Proof.
  induction d as [|[k' v'] r IH]; intros N H; [contradiction|].
  cbn in *. inversion N as [|? ? Nk Nr]; subst.
  destruct H as [H|H].
  - injection H as -> ->. now rewrite String.eqb_refl.
  - destruct (String.eqb_spec k' k) as [->|_]; [|now apply IH].
    exfalso. apply Nk. change k with (fst (k, v)). now apply in_map.
Qed.

Lemma flat_map_ext_in {A B : Type} (f g : A -> list B) (l : list A) :
  (forall a, In a l -> f a = g a) -> flat_map f l = flat_map g l.
Proof.
  induction l as [|a r IH]; intros H; [reflexivity|].
  cbn. rewrite (H a), IH; auto using in_eq, in_cons.
Qed.

Lemma flat_map_nil {A B : Type} (l : list A) :
  flat_map (fun _ : A => @nil B) l = [].
Proof. induction l; auto. Qed.

(** Pairs of the members that have a value are the pairs whose two members
    have one. *)
Lemma unordered_pairs_defined {A B C : Type} (f : A -> option B)
  (g : B * B -> list C) (l : list A) :
  flat_map g
    (unordered_pairs
       (flat_map (fun a => match f a with Some b => [b] | None => [] end) l))
  = flat_map
      (fun ab => match f (fst ab), f (snd ab) with
                 | Some b1, Some b2 => g (b1, b2)
                 | _, _ => []
                 end)
      (unordered_pairs l).
Proof.
  induction l as [|a r IH]; [reflexivity|].
  cbn [flat_map unordered_pairs]. rewrite flat_map_app, <- IH.
  rewrite (flat_map_concat_map _ (map (pair a) r)), map_map, <- flat_map_concat_map.
  cbn [fst snd]. destruct (f a) as [b|]; cbn [app].
  - cbn [unordered_pairs]. rewrite flat_map_app. f_equal.
    rewrite (flat_map_concat_map g), map_map, <- flat_map_concat_map.
    clear IH. induction r as [|a' r' IHr]; [reflexivity|].
    cbn [flat_map]. destruct (f a'); cbn; now rewrite IHr.
  - now rewrite flat_map_nil.
Qed.

(** On [float64] coordinates [distance_to] is the Euclidean distance and
    raises nothing. *)
Lemma distance_to_float64 (p q : Waypoint.t) :
  Waypoint.distance_to Py.numpy_float64 p q = Ok (euclidean p q).
Proof. reflexivity. Qed.

(** The positions dictionary after the loop over the trajectories: each
    located trajectory assigned in turn. *)
Lemma positions_at_located (trajectories : list DroneTrajectory.t) (t : float)
  (positions : list (string * Waypoint.t)) :
  Forall valid_trajectory trajectories ->
  positions_at trajectories t positions
  = Ok (fold_left (fun d e => Dict.set d (fst e) (snd e))
                  (located trajectories t) positions).
Proof.
  revert positions. induction trajectories as [|traj r IH]; intros positions V;
    [reflexivity|].
  inversion V as [|? ? Vt Vr]; subst.
  destruct (valid_nonempty Vt) as (w0 & w1 & l & E).
  assert (Ei : exists o, DroneTrajectory.interpolate_position traj t = Ok o).
  { unfold DroneTrajectory.interpolate_position. rewrite E.
    destruct (_ || _); eauto. }
  destruct Ei as [o Ei].
  assert (Ep : position_at traj t = o) by (unfold position_at; rewrite Ei; now destruct o).
  unfold located. cbn [positions_at flat_map]. rewrite fold_left_app, Ei, Ep.
  cbn [bind]. fold (located r t).
  destruct o as [p|]; cbn [fold_left fst snd]; now apply IH.
Qed.

Lemma latest_cons (id k : string) (p : Waypoint.t) (entries : list (string * Waypoint.t)) :
  latest id ((k, p) :: entries)
  = match latest id entries with
    | Some q => Some q
    | None => if String.eqb k id then Some p else None
    end.
Proof.
  unfold latest. cbn [fold_left fst snd].
  generalize (if String.eqb k id then Some p else None) as init.
  induction entries as [|[k' p'] r IH]; intros init; cbn [fold_left fst snd].
  - now destruct init.
  - rewrite IH. rewrite (IH (if String.eqb k' id then Some p' else None)).
    destruct (fold_left _ r None); [reflexivity|].
    now destruct (String.eqb k' id).
Qed.

Lemma first_ids_seen (seen seen' : list string) (entries : list (string * Waypoint.t)) :
  (forall id, In id seen <-> In id seen') ->
  first_ids seen entries = first_ids seen' entries.
Proof.
  revert seen seen'. induction entries as [|[k p] r IH]; intros seen seen' H;
    [reflexivity|].
  cbn [first_ids].
  assert (E : existsb (String.eqb k) seen = existsb (String.eqb k) seen').
  { apply eq_true_iff_eq. rewrite !existsb_exists. split.
    - intros (x & Hx & Ex). exists x. split; [now apply H|exact Ex].
    - intros (x & Hx & Ex). exists x. split; [now apply H|exact Ex]. }
  rewrite E. destruct (existsb _ seen').
  - now apply IH.
  - f_equal. apply IH. intros id. cbn. now rewrite H.
Qed.

Lemma first_ids_fresh (seen : list string) (entries : list (string * Waypoint.t)) (id : string) :
  In id (first_ids seen entries) -> ~ In id seen.
Proof.
  revert seen. induction entries as [|[k p] r IH]; intros seen H; [contradiction|].
  cbn [first_ids] in H. destruct (existsb (String.eqb k) seen) eqn:E.
  - now apply IH.
  - destruct H as [<-|H].
    + intros I. assert (X : existsb (String.eqb k) seen = true); [|congruence].
      apply existsb_exists. exists k. split; [exact I|apply String.eqb_refl].
    + intros I. apply (IH _ H). now right.
Qed.

Lemma existsb_eqb_in (k : string) (l : list string) :
  existsb (String.eqb k) l = true <-> In k l.
Proof.
  rewrite existsb_exists. split.
  - intros (x & Hx & E). apply String.eqb_eq in E. now subst.
  - intros H. exists k. split; [exact H|apply String.eqb_refl].
Qed.

(** Assigning entries in turn to a dictionary: the keys it had keep their
    places and take the position listed last, the new IDs follow in the
    order of their first occurrence. *)
Lemma assigned_entries (entries d : list (string * Waypoint.t)) :
  NoDup (Dict.keys d) ->
  fold_left (fun d e => Dict.set d (fst e) (snd e)) entries d
  = map (fun kv => (fst kv, match latest (fst kv) entries with
                            | Some p => p
                            | None => snd kv
                            end)) d
    ++ flat_map (fun id => match latest id entries with
                           | Some p => [(id, p)]
                           | None => []
                           end)
                (first_ids (Dict.keys d) entries).
Proof.
  revert d. induction entries as [|[k v] r IH]; intros d N.
  - cbn [fold_left first_ids flat_map]. rewrite app_nil_r.
    rewrite <- (map_id d) at 1. apply map_ext. now intros [a b].
  - cbn [fold_left fst snd]. rewrite (IH _ (@dict_set_nodup _ d k v N)).
    cbn [first_ids]. rewrite dict_set_keys.
    destruct (existsb (String.eqb k) (Dict.keys d)) eqn:Ek.
    + f_equal.
      * clear IH. apply existsb_eqb_in in Ek.
        induction d as [|[k0 v0] d' IHd]; [contradiction|].
        cbn [Dict.set]. cbn [Dict.keys map fst] in N, Ek.
        inversion N as [|? ? Nk Nd]; subst.
        destruct (String.eqb_spec k0 k) as [->|Nk0]; cbn [map fst snd].
        -- rewrite latest_cons, String.eqb_refl. f_equal.
           ++ now destruct (latest k r).
           ++ apply map_ext_in. intros [a b] Hab. cbn [fst snd].
              rewrite latest_cons.
              destruct (String.eqb_spec k a) as [<-|_]; [|now destruct (latest a r)].
              exfalso. apply Nk. change k with (fst (k, b)). now apply in_map.
        -- rewrite latest_cons.
           destruct (String.eqb_spec k k0) as [->|_]; [contradiction|].
           f_equal; [now destruct (latest k0 r)|].
           destruct Ek as [->|Ek]; [contradiction|]. now apply IHd.
      * apply flat_map_ext_in. intros id Hid. rewrite latest_cons.
        destruct (String.eqb_spec k id) as [<-|_]; [|now destruct (latest id r)].
        exfalso. apply (first_ids_fresh _ _ _ Hid). now apply existsb_eqb_in.
    + assert (Nk : ~ In k (Dict.keys d)).
      { intros I. apply existsb_eqb_in in I. congruence. }
      rewrite (@dict_set_fresh _ d k v Nk), map_app, <- app_assoc. f_equal.
      * apply map_ext_in. intros [a b] Hab. cbn [fst snd]. rewrite latest_cons.
        destruct (String.eqb_spec k a) as [<-|_]; [|now destruct (latest a r)].
        exfalso. apply Nk. change k with (fst (k, b)). now apply in_map.
      * cbn [map fst snd flat_map app]. rewrite latest_cons, String.eqb_refl.
        rewrite (@first_ids_seen (Dict.keys d ++ [k]) (k :: Dict.keys d)).
        2:{ intros id. rewrite in_app_iff. cbn. tauto. }
        destruct (latest k r) as [q|]; cbn [app]; f_equal;
          apply flat_map_ext_in; intros id Hid; rewrite latest_cons;
          (destruct (String.eqb_spec k id) as [<-|_]; [|now destruct (latest id r)]);
          exfalso; apply (first_ids_fresh _ _ _ Hid); now left.
Qed.

(** The positions dictionary that the detector fills at a timestamp holds
    the drones of that timestamp. *)
Lemma positions_at_drones (trajectories : list DroneTrajectory.t) (t : float) :
  Forall valid_trajectory trajectories ->
  positions_at trajectories t [] = Ok (drones_at trajectories t).
Proof.
  intros V. rewrite (positions_at_located t [] V). f_equal.
  rewrite assigned_entries by constructor. reflexivity.
Qed.

Lemma fold_set_nodup (entries d : list (string * Waypoint.t)) :
  NoDup (Dict.keys d) ->
  NoDup (Dict.keys (fold_left (fun d e => Dict.set d (fst e) (snd e)) entries d)).
Proof.
  revert d. induction entries as [|e r IH]; intros d N; [exact N|].
  cbn [fold_left]. apply IH. now apply dict_set_nodup.
Qed.

Lemma drones_at_nodup (trajectories : list DroneTrajectory.t) (t : float) :
  NoDup (Dict.keys (drones_at trajectories t)).
Proof.
  pose proof (@fold_set_nodup (located trajectories t) [] (NoDup_nil _)) as N.
  rewrite assigned_entries in N by constructor. exact N.
Qed.


Lemma check_pairs_spec (positions : list (string * Waypoint.t)) (t m : float) :
  NoDup (Dict.keys positions) ->
  check_pairs positions t m
  = Ok (flat_map (spec_spatial_pair m t) (unordered_pairs positions)).
Proof.
  intros N. unfold check_pairs.
  rewrite (pair_loops (Dict.keys positions) _
             (fun ids =>
                match Dict.get positions (fst ids), Dict.get positions (snd ids) with
                | Ok pos1, Ok pos2 =>
                    spec_spatial_pair m t ((fst ids, pos1), (snd ids, pos2))
                | _, _ => []
                end)).
  - f_equal. unfold Dict.keys. rewrite unordered_pairs_map.
    rewrite flat_map_concat_map, map_map, <- flat_map_concat_map.
    apply flat_map_ext_in. intros [[k1 p1] [k2 p2]] H.
    apply in_unordered_pairs in H as [H1 H2]. cbn [fst snd].
    now rewrite (@dict_get_member _ positions k1 p1 N H1),
      (@dict_get_member _ positions k2 p2 N H2).
  - intros a b Ha Hb. unfold Dict.keys in Ha, Hb.
    apply in_map_iff in Ha as ([ka pa] & <- & Ha).
    apply in_map_iff in Hb as ([kb pb] & <- & Hb). cbn [fst snd].
    rewrite (@dict_get_member _ positions ka pa N Ha),
      (@dict_get_member _ positions kb pb N Hb). cbn [bind].
    rewrite distance_to_float64. cbn [bind]. unfold spec_spatial_pair, spatial_severity.
    now destruct (_ <? m).
Qed.

(** One round of the detector is the specification's round. *)
Lemma spatial_round (trajectories : list DroneTrajectory.t) (t m : float) :
  Forall valid_trajectory trajectories ->
  (positions <- positions_at trajectories t [] ;; check_pairs positions t m)
  = Ok (spec_spatial_at trajectories m t).
Proof.
  intros V. rewrite (positions_at_drones t V). cbn [bind].
  now rewrite check_pairs_spec by apply drones_at_nodup.
Qed.

(** The trajectories with a position at a timestamp, when no ID is shared. *)
Lemma positions_at_defined (trajectories : list DroneTrajectory.t) (t : float)
  (positions : list (string * Waypoint.t)) :
  Forall valid_trajectory trajectories ->
  NoDup (Dict.keys positions ++ map DroneTrajectory.drone_id trajectories) ->
  positions_at trajectories t positions
  = Ok (positions
        ++ flat_map (fun traj => match position_at traj t with
                                 | Some p => [(DroneTrajectory.drone_id traj, p)]
                                 | None => []
                                 end) trajectories).
Proof.
  revert positions. induction trajectories as [|traj r IH]; intros positions V N.
  - cbn. now rewrite app_nil_r.
  - inversion V as [|? ? Vt Vr]; subst.
    destruct (valid_nonempty Vt) as (w0 & w1 & l & E).
    cbn [positions_at flat_map]. unfold position_at at 1.
    assert (Ei : exists o, DroneTrajectory.interpolate_position traj t = Ok o).
    { unfold DroneTrajectory.interpolate_position. rewrite E.
      destruct (_ || _); eauto. }
    destruct Ei as [o Ei]. rewrite Ei. cbn [bind].
    cbn [map] in N.
    assert (Nk : ~ In (DroneTrajectory.drone_id traj) (Dict.keys positions)).
    { apply NoDup_remove_2 in N. intros H. apply N, in_or_app. now left. }
    destruct o as [p|].
    + rewrite (@dict_set_fresh _ positions _ p Nk), IH; [now rewrite <- app_assoc|exact Vr|].
      unfold Dict.keys in *. rewrite map_app. cbn [map fst].
      rewrite <- app_assoc. exact N.
    + apply IH; [exact Vr|]. now apply NoDup_remove_1 in N.
Qed.

(** An ID with a latest position is among the first occurrences. *)
Lemma latest_listed (id : string) (p : Waypoint.t) (entries : list (string * Waypoint.t)) :
  latest id entries = Some p -> In id (first_ids [] entries).
Proof.
  assert (G : forall seen, latest id entries = Some p -> ~ In id seen ->
                           In id (first_ids seen entries)).
  { induction entries as [|[k v] r IH]; intros seen E N; [discriminate|].
    rewrite latest_cons in E. cbn [first_ids].
    destruct (String.eqb_spec k id) as [->|Nk].
    - destruct (existsb (String.eqb id) seen) eqn:Ex; [|now left].
      apply existsb_eqb_in in Ex. contradiction.
    - assert (E' : latest id r = Some p) by (now destruct (latest id r)).
      destruct (existsb (String.eqb k) seen); [now apply IH|].
      right. apply IH; [exact E'|]. intros [->|I]; [now apply Nk|now apply N]. }
  intros E. apply G; [exact E|intros []].
Qed.

(** With distinct drone IDs the drones are the trajectories that have a
    position. *)
Lemma drones_at_distinct (trajectories : list DroneTrajectory.t) (t : float) :
  Forall valid_trajectory trajectories ->
  NoDup (map DroneTrajectory.drone_id trajectories) ->
  drones_at trajectories t = located trajectories t.
Proof.
  intros V N. pose proof (positions_at_drones t V) as E.
  rewrite (@positions_at_defined trajectories t [] V) in E by exact N.
  injection E as E. symmetry. exact E.
Qed.

(** The time samples of the detector are the evenly spaced timestamps of the
    window, as many as the resolution asks for. *)
Lemma time_samples_spec (global_start global_end time_resolution : float) :
  time_samples global_start global_end time_resolution
  = (num <- sample_count global_start global_end time_resolution ;;
     if (num <? 0)%Z then Raise ValueError
     else Ok (evenly_spaced global_start global_end num)).
Proof.
  unfold time_samples, sample_count.
  destruct (Py.truediv _ _) as [q|e]; [|reflexivity]. cbn [bind].
  destruct (Py.int q) as [n|e]; [|reflexivity]. cbn [bind].
  apply linspace_evenly_spaced.
Qed.

(** [max] returns a greatest member and [min] a least one. *)
Lemma py_max_greatest (l : list float) (a : float) :
  Forall is_time (a :: l) ->
  exists m,
    Py.max (a :: l) = Ok m /\ In m (a :: l)
    /\ Forall (fun v => (v <=? m) = true) (a :: l).
Proof.
  intros T. eexists. split; [reflexivity|]. cbn [Py.max].
  revert a T. induction l as [|b r IH]; intros a T.
  - cbn. inversion T; subst. split; [now left|]. constructor; [now apply leb_refl|constructor].
  - cbn [fold_left]. inversion T as [|? ? Ta T']; subst. inversion T' as [|? ? Tb Tr]; subst.
    set (a' := if a <? b then b else a).
    assert (Ta' : is_time a') by (unfold a'; now destruct (a <? b)).
    destruct (IH a' (Forall_cons _ Ta' Tr)) as [Hin Hle].
    inversion Hle as [|? ? La' Lr]; subst.
    assert (La : (a <=? a') = true).
    { unfold a'. destruct (a <? b) eqn:C; [now apply ltb_leb|now apply leb_refl]. }
    assert (Lb : (b <=? a') = true).
    { unfold a'. destruct (a <? b) eqn:C; [now apply leb_refl|now apply ltb_false_leb]. }
    split.
    + destruct Hin as [<-|Hin]; [|now right; right].
      unfold a'. destruct (a <? b); [right; now left|now left].
    + constructor; [eapply leb_trans; eassumption|].
      constructor; [eapply leb_trans; eassumption|exact Lr].
Qed.

Lemma py_min_least (l : list float) (a : float) :
  Forall is_time (a :: l) ->
  exists m,
    Py.min (a :: l) = Ok m /\ In m (a :: l)
    /\ Forall (fun v => (m <=? v) = true) (a :: l).
Proof.
  intros T. eexists. split; [reflexivity|]. cbn [Py.min].
  revert a T. induction l as [|b r IH]; intros a T.
  - cbn. inversion T; subst. split; [now left|]. constructor; [now apply leb_refl|constructor].
  - cbn [fold_left]. inversion T as [|? ? Ta T']; subst. inversion T' as [|? ? Tb Tr]; subst.
    set (a' := if b <? a then b else a).
    assert (Ta' : is_time a') by (unfold a'; now destruct (b <? a)).
    destruct (IH a' (Forall_cons _ Ta' Tr)) as [Hin Hle].
    inversion Hle as [|? ? La' Lr]; subst.
    assert (La : (a' <=? a) = true).
    { unfold a'. destruct (b <? a) eqn:C; [now apply ltb_leb|now apply leb_refl]. }
    assert (Lb : (a' <=? b) = true).
    { unfold a'. destruct (b <? a) eqn:C; [now apply leb_refl|now apply ltb_false_leb]. }
    split.
    + destruct Hin as [<-|Hin]; [|now right; right].
      unfold a'. destruct (b <? a); [right; now left|now left].
    + constructor; [eapply leb_trans; eassumption|].
      constructor; [eapply leb_trans; eassumption|exact Lr].
Qed.

Lemma bounds_of_valid (trajectories : list DroneTrajectory.t) :
  Forall valid_trajectory trajectories ->
  map_result (fun traj => ' (s, _) <- DroneTrajectory.get_trajectory_bounds traj ;; Ok s)
             trajectories
  = Ok (map start_time trajectories)
  /\ map_result (fun traj => ' (_, e) <- DroneTrajectory.get_trajectory_bounds traj ;; Ok e)
                trajectories
     = Ok (map end_time trajectories).
Proof.
  induction 1 as [|traj r V _ [IHs IHe]]; [split; reflexivity|].
  cbn [map_result map]. rewrite (valid_bounds V), IHs, IHe. split; reflexivity.
Qed.

End SpatialFacts.

(** C1, as the code has it.  For at least two valid trajectories the
    spatial detector returns the empty list when the common window is empty
    (max of starts >= min of ends).  Otherwise it takes
    [int((end - start) / time_resolution) + 1] evenly spaced timestamps from
    the start to the end of the window and emits, at each of them in turn,
    one conflict of type 'spatial' for exactly the unordered pairs of drones
    whose Euclidean distance is below [min_separation], with severity 'high'
    below [0.3 * min_separation], 'medium' below [0.6 * min_separation] and
    'low' otherwise.  A drone is a drone ID: trajectories that share an ID
    are one drone, at the position of the last of them that has one; with
    distinct IDs the drones are the trajectories, each at its interpolated
    position.  A zero resolution and a count that is no number raise. *)
Theorem spatial_detection {libm : Libm} (trajectories : list DroneTrajectory.t)
  (min_separation time_resolution : float) :
  (2 <= length trajectories)%nat ->
  Forall valid_trajectory trajectories ->
  exists global_start global_end,
    (Py.max (map start_time trajectories) = Ok global_start
     /\ In global_start (map start_time trajectories)
     /\ Forall (fun s => (s <=? global_start)%float = true)
               (map start_time trajectories))
    /\ (Py.min (map end_time trajectories) = Ok global_end
        /\ In global_end (map end_time trajectories)
        /\ Forall (fun e => (global_end <=? e)%float = true)
                  (map end_time trajectories))
    /\ detect_spatial_conflicts trajectories min_separation time_resolution
       = (if (global_end <=? global_start)%float then Ok []
          else
            num <- sample_count global_start global_end time_resolution ;;
            if (num <? 0)%Z then Raise ValueError
            else Ok (flat_map (spec_spatial_at trajectories min_separation)
                              (evenly_spaced global_start global_end num)))
    /\ (forall t c,
          In c (spec_spatial_at trajectories min_separation t)
          <-> exists id1 p1 id2 p2,
                In ((id1, p1), (id2, p2)) (unordered_pairs (drones_at trajectories t))
                /\ (euclidean p1 p2 <? min_separation)%float = true
                /\ c = Conflict.Build id1 id2 t (euclidean p1 p2) p1 p2
                         (if (euclidean p1 p2 <? min_separation * lit_0_3)%float
                          then "high"%string
                          else if (euclidean p1 p2 <? min_separation * lit_0_6)%float
                               then "medium"%string else "low"%string)
                         "spatial")
    /\ (forall t,
          NoDup (Dict.keys (drones_at trajectories t))
          /\ (forall id p,
                In (id, p) (drones_at trajectories t)
                <-> latest id (located trajectories t) = Some p)
          /\ (NoDup (map DroneTrajectory.drone_id trajectories) ->
              drones_at trajectories t = located trajectories t)).
Proof.
  intros L V.
  assert (M : forall t c,
             In c (spec_spatial_at trajectories min_separation t)
             <-> exists id1 p1 id2 p2,
                   In ((id1, p1), (id2, p2)) (unordered_pairs (drones_at trajectories t))
                   /\ (euclidean p1 p2 <? min_separation)%float = true
                   /\ c = Conflict.Build id1 id2 t (euclidean p1 p2) p1 p2
                            (if (euclidean p1 p2 <? min_separation * lit_0_3)%float
                             then "high"%string
                             else if (euclidean p1 p2 <? min_separation * lit_0_6)%float
                                  then "medium"%string else "low"%string)
                            "spatial").
  { intros t c. unfold spec_spatial_at. rewrite in_flat_map. split.
    - intros ([[id1 p1] [id2 p2]] & Hab & H). unfold spec_spatial_pair in H.
      cbn zeta in H.
      destruct (euclidean p1 p2 <? min_separation)%float eqn:D; [|contradiction].
      destruct H as [<-|[]]. exists id1, p1, id2, p2. auto.
    - intros (id1 & p1 & id2 & p2 & Hab & D & ->).
      exists ((id1, p1), (id2, p2)). split; [exact Hab|]. unfold spec_spatial_pair.
      cbn zeta. rewrite D. now left. }
  assert (D : forall t,
             NoDup (Dict.keys (drones_at trajectories t))
             /\ (forall id p,
                   In (id, p) (drones_at trajectories t)
                   <-> latest id (located trajectories t) = Some p)
             /\ (NoDup (map DroneTrajectory.drone_id trajectories) ->
                 drones_at trajectories t = located trajectories t)).
  { intros t. split; [apply drones_at_nodup|]. split; [|now apply drones_at_distinct].
    intros id p. unfold drones_at. rewrite in_flat_map. split.
    - intros (k & _ & H). destruct (latest k (located trajectories t)) as [q|] eqn:E;
        [|contradiction].
      destruct H as [H|[]]. injection H as <- <-. exact E.
    - intros E. exists id. rewrite E. split; [|now left].
      apply latest_listed in E. exact E. }
  unfold detect_spatial_conflicts.
  destruct (Nat.ltb_spec (length trajectories) 2) as [L'|_]; [lia|].
  destruct (bounds_of_valid V) as [-> ->]. cbn [bind].
  assert (Ts : Forall is_time (map start_time trajectories)).
  { apply Forall_map. eapply Forall_impl; [|exact V].
    intros traj Vt. now destruct (valid_start_le_end Vt). }
  assert (Te : Forall is_time (map end_time trajectories)).
  { apply Forall_map. eapply Forall_impl; [|exact V].
    intros traj Vt. now destruct (valid_start_le_end Vt) as (_ & ? & _). }
  destruct trajectories as [|traj r]; [cbn in L; lia|]. cbn [map] in *.
  destruct (py_max_greatest Ts) as (gs & Es & Is & Gs).
  destruct (py_min_least Te) as (ge & Ee & Ie & Ge).
  exists gs, ge. split; [auto|]. split; [auto|]. split; [|split; [exact M|exact D]].
  rewrite Es, Ee. cbn [bind]. destruct (_ <=? _)%float; [reflexivity|].
  rewrite time_samples_spec.
  destruct (sample_count _ _ time_resolution) as [num|e]; [|reflexivity].
  cbn [bind]. destruct (num <? 0)%Z; [reflexivity|]. cbn [bind].
  apply for_each_ok. intros t _. now apply spatial_round.
Qed.

Lemma spatial_detection_witness :
  (2 <= length [Example.drone1; Example.drone2])%nat
  /\ Forall valid_trajectory [Example.drone1; Example.drone2]
  /\ exists global_start global_end,
       Py.max (map start_time [Example.drone1; Example.drone2]) = Ok global_start
       /\ Py.min (map end_time [Example.drone1; Example.drone2]) = Ok global_end
       /\ detect_spatial_conflicts (libm := Example.products)
            [Example.drone1; Example.drone2] 100 1
          = (if (global_end <=? global_start)%float then Ok []
             else
               num <- sample_count global_start global_end 1 ;;
               if (num <? 0)%Z then Raise ValueError
               else Ok (flat_map (spec_spatial_at (libm := Example.products)
                                    [Example.drone1; Example.drone2] 100)
                                 (evenly_spaced global_start global_end num))).
Proof.
  assert (L : (2 <= length [Example.drone1; Example.drone2])%nat) by (cbn; lia).
  assert (V : Forall valid_trajectory [Example.drone1; Example.drone2])
    by (repeat constructor; [exact drone1_valid|exact drone2_valid]).
  split; [exact L|]. split; [exact V|].
  destruct (@spatial_detection Example.products _ 100 1 L V)
    as (gs & ge & (Es & _) & (Ee & _) & Ed & _).
  exists gs, ge. auto.
Defined.

(** C1 fails as stated when trajectories share a drone ID.  Two valid
    trajectories under one ID that are 53.9 apart at [t = 2], a timestamp of
    the window, are one entry of the positions dictionary: no pair is
    compared and nothing is reported.  With a third trajectory, the drone
    'drone2' is compared with the last trajectory of 'drone1' only, which is
    far away, and its conflict with the first one goes unreported. *)
Lemma spatial_detection_shared_id :
  DroneTrajectory.__init__ "drone1" Example.simple_waypoints = Ok Example.drone1
  /\ DroneTrajectory.__init__ "drone1" Example.conflict_waypoints = Ok Example.drone1_twin
  /\ DroneTrajectory.__init__ "drone1" Example.far_waypoints = Ok Example.drone1_far
  /\ DroneTrajectory.__init__ "drone2" Example.conflict_waypoints = Ok Example.drone2
  /\ sample_count 2 10 1 = Ok 9%Z
  /\ In 2%float (evenly_spaced 2 10 9)
  /\ (exists p1 p2,
        position_at Example.drone1 2 = Some p1
        /\ position_at Example.drone1_twin 2 = Some p2
        /\ position_at Example.drone2 2 = Some p2
        /\ (euclidean (libm := Example.products) p1 p2 <? 100)%float = true)
  /\ detect_spatial_conflicts (libm := Example.products)
       [Example.drone1; Example.drone1_twin] 100 1 = Ok []
  /\ detect_spatial_conflicts (libm := Example.products)
       [Example.drone1; Example.drone1_far; Example.drone2] 100 1 = Ok [].
Proof.
  repeat split; try (vm_compute; reflexivity).
  - now left.
  - eexists _, _. repeat split; vm_compute; reflexivity.
Qed.

(** The scenario of [test_spatial_conflict_detection], the squares taken as
    correctly rounded products: nine conflicts, the first at [t = 2]. *)
Example spatial_detection_on_test :
  exists first rest,
    detect_spatial_conflicts (libm := Example.products)
      [Example.drone1; Example.drone2] 100 1 = Ok (first :: rest)
    /\ length rest = 8%nat
    /\ Conflict.timestamp first = 2%float
    /\ Conflict.conflict_type first = "spatial"%string
    /\ Conflict.severity first = "medium"%string.
Proof. eexists _, _. split; [vm_compute; reflexivity|]. repeat split. Qed.

(** Two trajectories under one drone ID are one entry of the positions
    dictionary: no pair is compared, whatever the library. *)
Example spatial_detection_same_id {libm : Libm} :
  detect_spatial_conflicts [Example.drone1; Example.drone1_twin] 100 1 = Ok [].
Proof. vm_compute. reflexivity. Qed.

(** Trajectories with disjoint time bounds have no common window. *)
Example spatial_detection_disjoint {libm : Libm} :
  detect_spatial_conflicts
    [DroneTrajectory.Build "a" [Waypoint.Build 0 0 100 0; Waypoint.Build 100 0 100 5];
     DroneTrajectory.Build "b" [Waypoint.Build 0 0 100 10; Waypoint.Build 100 0 100 15]]
    100 1
  = Ok [].
Proof. vm_compute. reflexivity. Qed.

(** A zero time resolution is a division by zero. *)
Example spatial_detection_zero_resolution {libm : Libm} :
  detect_spatial_conflicts [Example.drone1; Example.drone2] 100 0
  = Raise ZeroDivisionError.
Proof. vm_compute. reflexivity. Qed.

(* ================================================================== *)
(** * Facts: the temporal detector *)
(* ================================================================== *)

Section TemporalFacts.

Context {libm : Libm}.

Local Open Scope float_scope.

(** The fifty samples of a valid trajectory are those of the
    specification. *)
Lemma sample_trajectory_valid (traj : DroneTrajectory.t) :
  valid_trajectory traj ->
  DroneTrajectory.sample_trajectory traj 50 = Ok (spec_samples traj).
Proof.
  intros V. destruct (valid_nonempty V) as (w0 & w1 & r & E).
  unfold DroneTrajectory.sample_trajectory. rewrite (valid_bounds V). cbn [bind].
  rewrite linspace_evenly_spaced. cbn [Z.ltb Z.compare bind].
  rewrite sample_at_ok by (rewrite E; discriminate). reflexivity.
Qed.

Lemma temporal_check_hit (a b : DroneTrajectory.t) (w m : float) (p1 p2 : Waypoint.t) :
  temporal_check (DroneTrajectory.drone_id a) (DroneTrajectory.drone_id b) w m p1 p2
  = Ok (if temporal_hit w m (p1, p2) then [spec_temporal_conflict a b w (p1, p2)] else []).
Proof.
  unfold temporal_check. rewrite distance_to_float64. cbn [bind].
  unfold temporal_hit, spec_temporal_conflict, time_diff, Py.min2.
  destruct (euclidean p1 p2 <? m); [|reflexivity].
  cbn [andb]. destruct (_ && _); reflexivity.
Qed.

Lemma temporal_loops (a b : DroneTrajectory.t) (w m : float) (s1 s2 : list Waypoint.t) :
  for_each s1 (fun wp1 =>
    for_each s2 (fun wp2 =>
      temporal_check (DroneTrajectory.drone_id a) (DroneTrajectory.drone_id b) w m wp1 wp2))
  = Ok (map (spec_temporal_conflict a b w) (filter (temporal_hit w m) (list_prod s1 s2))).
Proof.
  rewrite (for_each_ok s1 _
             (fun p1 => map (spec_temporal_conflict a b w)
                            (filter (temporal_hit w m) (map (pair p1) s2)))).
  - f_equal. induction s1 as [|p1 r1 IH]; [reflexivity|].
    cbn [flat_map list_prod]. now rewrite filter_app, map_app, IH.
  - intros p1 _.
    rewrite (for_each_ok s2 _
               (fun p2 => if temporal_hit w m (p1, p2)
                          then [spec_temporal_conflict a b w (p1, p2)] else []))
      by (intros p2 _; apply temporal_check_hit).
    f_equal. induction s2 as [|p2 r2 IH]; [reflexivity|].
    cbn [flat_map map filter]. rewrite IH.
    destruct (temporal_hit w m (p1, p2)); reflexivity.
Qed.

End TemporalFacts.

(** C2.  For valid trajectories the temporal detector samples each
    trajectory at fifty evenly spaced timestamps across its own bounds and
    emits, for every unordered pair of trajectories, a conflict of type
    'temporal' for exactly the cross pairs of their samples whose Euclidean
    distance is below [min_separation] and whose absolute time difference is
    greater than zero and at most [time_window]; the conflict is stamped
    with the earlier of the two sample timestamps and its severity is 'high'
    when the time difference is below [0.3 * time_window] and 'medium'
    otherwise, never 'low'. *)
Theorem temporal_detection {libm : Libm} (trajectories : list DroneTrajectory.t)
  (time_window min_separation : float) :
  Forall valid_trajectory trajectories ->
  detect_temporal_conflicts trajectories time_window min_separation
  = Ok (spec_temporal trajectories time_window min_separation)
  /\ (forall c,
        In c (spec_temporal trajectories time_window min_separation)
        <-> exists a b p1 p2,
              In (a, b) (unordered_pairs trajectories)
              /\ In p1 (spec_samples a) /\ In p2 (spec_samples b)
              /\ (euclidean p1 p2 <? min_separation)%float = true
              /\ (0 <? abs (Waypoint.timestamp p1 - Waypoint.timestamp p2))%float = true
              /\ (abs (Waypoint.timestamp p1 - Waypoint.timestamp p2) <=? time_window)%float
                 = true
              /\ c = Conflict.Build
                       (DroneTrajectory.drone_id a) (DroneTrajectory.drone_id b)
                       (if (Waypoint.timestamp p2 <? Waypoint.timestamp p1)%float
                        then Waypoint.timestamp p2 else Waypoint.timestamp p1)
                       (euclidean p1 p2) p1 p2
                       (if (abs (Waypoint.timestamp p1 - Waypoint.timestamp p2)
                            <? time_window * lit_0_3)%float
                        then "high"%string else "medium"%string)
                       "temporal")
  /\ (forall a p,
        In a trajectories ->
        (In p (spec_samples a)
         <-> exists t,
               In t (evenly_spaced (start_time a) (end_time a) 50)
               /\ DroneTrajectory.interpolate_position a t = Ok (Some p)))
  /\ (forall c,
        In c (spec_temporal trajectories time_window min_separation) ->
        Conflict.conflict_type c = "temporal"%string
        /\ (Conflict.severity c = "high"%string \/ Conflict.severity c = "medium"%string)
        /\ Conflict.severity c <> "low"%string).
Proof.
  intros V.
  assert (M : forall c,
             In c (spec_temporal trajectories time_window min_separation)
             <-> exists a b p1 p2,
                   In (a, b) (unordered_pairs trajectories)
                   /\ In p1 (spec_samples a) /\ In p2 (spec_samples b)
                   /\ temporal_hit time_window min_separation (p1, p2) = true
                   /\ c = spec_temporal_conflict a b time_window (p1, p2)).
  { intros c. unfold spec_temporal. rewrite in_flat_map. split.
    - intros ([a b] & Hab & H). unfold spec_temporal_pair in H.
      apply in_map_iff in H as ([p1 p2] & <- & H).
      apply filter_In in H as [H Hit]. apply in_prod_iff in H as [H1 H2].
      exists a, b, p1, p2. auto.
    - intros (a & b & p1 & p2 & Hab & H1 & H2 & Hit & ->).
      exists (a, b). split; [exact Hab|]. unfold spec_temporal_pair.
      apply in_map, filter_In. split; [now apply in_prod|exact Hit]. }
  split; [|split; [|split]].
  - unfold detect_temporal_conflicts, spec_temporal.
    apply pair_loops. intros a b Ha Hb.
    rewrite Forall_forall in V.
    rewrite (sample_trajectory_valid (V a Ha)), (sample_trajectory_valid (V b Hb)).
    cbn [bind]. unfold spec_temporal_pair. now rewrite temporal_loops.
  - intros c. rewrite M. unfold temporal_hit, spec_temporal_conflict, time_diff.
    split.
    + intros (a & b & p1 & p2 & Hab & H1 & H2 & Hit & ->).
      apply andb_true_iff in Hit as [Hit Hw]. apply andb_true_iff in Hit as [Hd H0].
      exists a, b, p1, p2. auto 10.
    + intros (a & b & p1 & p2 & Hab & H1 & H2 & Hd & H0 & Hw & ->).
      exists a, b, p1, p2. rewrite Hd, H0, Hw. auto 10.
  - intros a p Ha. unfold spec_samples. rewrite in_flat_map.
    split.
    + intros (t & Ht & H). exists t. split; [exact Ht|].
      unfold position_at in H.
      destruct (DroneTrajectory.interpolate_position a t) as [[q|]|e]; try contradiction.
      destruct H as [->|[]]. reflexivity.
    + intros (t & Ht & H). exists t. split; [exact Ht|].
      unfold position_at. rewrite H. now left.
  - intros c H. apply M in H as (a & b & p1 & p2 & _ & _ & _ & _ & ->).
    unfold spec_temporal_conflict. cbn.
    destruct (_ <? _)%float; repeat split; auto; discriminate.
Qed.

Lemma temporal_detection_witness :
  Forall valid_trajectory [Example.drone1; Example.drone2]
  /\ detect_temporal_conflicts (libm := Example.products)
       [Example.drone1; Example.drone2] 10 50
     = Ok (spec_temporal (libm := Example.products)
             [Example.drone1; Example.drone2] 10 50).
Proof.
  assert (V : Forall valid_trajectory [Example.drone1; Example.drone2])
    by (repeat constructor; [exact drone1_valid|exact drone2_valid]).
  split; [exact V|]. exact (proj1 (@temporal_detection Example.products _ 10 50 V)).
Defined.

(** The scenario of [test_temporal_conflict_detection], the squares taken as
    correctly rounded products: the same path flown five seconds later is
    reported with a window of ten seconds and not with a window of zero. *)
Example temporal_detection_on_test :
  (exists first rest,
      detect_temporal_conflicts (libm := Example.products)
        [Example.drone1; Example.drone_offset] 10 50
      = Ok (first :: rest)
      /\ Conflict.conflict_type first = "temporal"%string)
  /\ detect_temporal_conflicts (libm := Example.products)
       [Example.drone1; Example.drone_offset] 0 50 = Ok [].
Proof.
  split; [|vm_compute; reflexivity].
  eexists _, _. split; [vm_compute; reflexivity|reflexivity].
Qed.

(** C10.  With fewer than two trajectories both detectors return the empty
    list and raise nothing. *)
Theorem detectors_need_two {libm : Libm} (trajectories : list DroneTrajectory.t)
  (min_separation time_resolution time_window : float) :
  (length trajectories < 2)%nat ->
  detect_spatial_conflicts trajectories min_separation time_resolution = Ok []
  /\ detect_temporal_conflicts trajectories time_window min_separation = Ok [].
Proof.
  intros L. split.
  - unfold detect_spatial_conflicts.
    destruct (Nat.ltb_spec (length trajectories) 2); [reflexivity|lia].
  - destruct trajectories as [|a [|b r]]; [reflexivity|reflexivity|cbn in L; lia].
Qed.

Lemma detectors_need_two_witness :
  (length [Example.drone1] < 2)%nat
  /\ detect_spatial_conflicts (libm := Example.products) [Example.drone1] 50 1 = Ok []
  /\ detect_temporal_conflicts (libm := Example.products) [Example.drone1] 10 50 = Ok [].
Proof.
  assert (L : (length [Example.drone1] < 2)%nat) by (cbn; lia).
  split; [exact L|].
  exact (@detectors_need_two Example.products [Example.drone1] 50%float 1%float 10%float L).
Defined.

(* ================================================================== *)
(** * Facts: conflict sets *)
(* ================================================================== *)

Section ConflictSets.

Local Open Scope float_scope.

Lemma key_eqb_sym (k1 k2 : string * string * float) : key_eqb k1 k2 = key_eqb k2 k1.
Proof.
  destruct k1 as [[a1 b1] r1], k2 as [[a2 b2] r2]. unfold key_eqb.
  now rewrite (String.eqb_sym a1), (String.eqb_sym b1), (eqb_sym r1).
Qed.

Lemma key_eqb_trans (k1 k2 k3 : string * string * float) :
  key_eqb k1 k2 = true -> key_eqb k2 k3 = true -> key_eqb k1 k3 = true.
Proof.
  destruct k1 as [[a1 b1] r1], k2 as [[a2 b2] r2], k3 as [[a3 b3] r3]. unfold key_eqb.
  rewrite !andb_true_iff, !String.eqb_eq.
  intros [[-> ->] E12] [[-> ->] E23]. repeat split; auto. eapply eqb_trans; eassumption.
Qed.

(** Equal keys are members of the same sets. *)
Lemma key_eqb_same (k k1 k2 : string * string * float) :
  key_eqb k1 k2 = true -> key_eqb k k1 = key_eqb k k2.
Proof.
  intros E. destruct (key_eqb k k1) eqn:E1, (key_eqb k k2) eqn:E2; try reflexivity.
  - rewrite (key_eqb_trans _ _ _ E1 E) in E2. discriminate.
  - rewrite key_eqb_sym in E. rewrite (key_eqb_trans _ _ _ E2 E) in E1. discriminate.
Qed.

Lemma unique_from_invariant (l : list Conflict.t) (seen : list (string * string * float)) :
  Forall (fun c => existsb (key_eqb (conflict_key c)) seen = false) (unique_from l seen)
  /\ ForallOrdPairs (fun c c' => key_eqb (conflict_key c') (conflict_key c) = false)
                    (unique_from l seen).
Proof.
  revert seen. induction l as [|c r IH]; intros seen; [split; constructor|].
  cbn [unique_from]. destruct (existsb (key_eqb (conflict_key c)) seen) eqn:M; [apply IH|].
  destruct (IH (conflict_key c :: seen)) as [F P]. split.
  - constructor; [exact M|]. eapply Forall_impl; [|exact F].
    cbn [existsb]. intros c' H. now apply orb_false_iff in H.
  - constructor; [|exact P]. eapply Forall_impl; [|exact F].
    cbn [existsb]. intros c' H. now apply orb_false_iff in H.
Qed.

Lemma unique_from_fixed (u : list Conflict.t) (seen : list (string * string * float)) :
  Forall (fun c => existsb (key_eqb (conflict_key c)) seen = false) u ->
  ForallOrdPairs (fun c c' => key_eqb (conflict_key c') (conflict_key c) = false) u ->
  unique_from u seen = u.
Proof.
  revert seen. induction u as [|c r IH]; intros seen F P; [reflexivity|].
  inversion F as [|? ? M Fr]; subst. inversion P as [|? ? Pc Pr]; subst.
  cbn [unique_from]. rewrite M. f_equal. apply IH; [|exact Pr].
  rewrite Forall_forall in *. intros c' H. cbn [existsb]. now rewrite (Pc c' H), (Fr c' H).
Qed.

Lemma unique_from_first (l before : list Conflict.t) (seen : list (string * string * float)) :
  (forall k, existsb (key_eqb k) seen
             = existsb (fun b => key_eqb k (conflict_key b)) before) ->
  unique_from l seen = first_occurrences before l.
Proof.
  revert before seen. induction l as [|c r IH]; intros before seen H; [reflexivity|].
  cbn [unique_from first_occurrences]. rewrite <- H.
  destruct (existsb (key_eqb (conflict_key c)) seen) eqn:M; cbn [app].
  - apply IH. intros k. rewrite existsb_app, <- H. cbn [existsb].
    rewrite orb_false_r.
    destruct (key_eqb k (conflict_key c)) eqn:E; [|now rewrite orb_false_r].
    rewrite orb_true_r. apply existsb_exists in M as (s & Hs & Es).
    apply existsb_exists. exists s. split; [exact Hs|].
    eapply key_eqb_trans; eassumption.
  - f_equal. apply IH. intros k. rewrite existsb_app, <- H. cbn [existsb].
    now rewrite orb_false_r, orb_comm.
Qed.

Lemma unique_from_incl (l : list Conflict.t) (seen : list (string * string * float))
  (c : Conflict.t) :
  In c (unique_from l seen) -> In c l.
Proof.
  revert seen. induction l as [|a r IH]; intros seen H; [contradiction|].
  cbn [unique_from] in H. destruct (existsb _ seen).
  - right. eapply IH; eassumption.
  - destruct H as [H|H]; [now left|right; eapply IH; eassumption].
Qed.

Lemma unique_from_covers (l : list Conflict.t) (seen : list (string * string * float))
  (c : Conflict.t) :
  In c l ->
  existsb (key_eqb (conflict_key c)) seen = true
  \/ exists c', In c' (unique_from l seen) /\ same_key c c'.
Proof.
  revert seen. induction l as [|a r IH]; intros seen H; [contradiction|].
  cbn [unique_from]. destruct (existsb (key_eqb (conflict_key a)) seen) eqn:M.
  - destruct H as [<-|H]; [now left|now apply IH].
  - destruct H as [<-|H].
    + right. exists a. split; [now left|now left].
    + destruct (IH (conflict_key a :: seen) H) as [E|(c' & Hc' & S)].
      * cbn [existsb] in E. apply orb_true_iff in E as [E|E]; [|now left].
        right. exists a. split; [now left|now right].
      * right. exists c'. split; [now right|exact S].
Qed.

Lemma unique_from_length_ext (l : list Conflict.t) (s1 s2 : list (string * string * float)) :
  (forall k, existsb (key_eqb k) s1 = existsb (key_eqb k) s2) ->
  length (unique_from l s1) = length (unique_from l s2).
Proof.
  revert s1 s2. induction l as [|c r IH]; intros s1 s2 H; [reflexivity|].
  cbn [unique_from]. rewrite <- H.
  destruct (existsb (key_eqb (conflict_key c)) s1); [now apply IH|].
  cbn [length]. f_equal. apply IH. intros k. cbn [existsb]. now rewrite H.
Qed.

Lemma unique_from_length_perm (l l' : list Conflict.t) :
  Permutation l l' ->
  forall s1 s2,
    (forall k, existsb (key_eqb k) s1 = existsb (key_eqb k) s2) ->
    length (unique_from l s1) = length (unique_from l' s2).
Proof.
  induction 1 as [|x l l' P IH|x y l|l l' l'' P1 IH1 P2 IH2]; intros s1 s2 H.
  - reflexivity.
  - cbn [unique_from]. rewrite <- H.
    destruct (existsb (key_eqb (conflict_key x)) s1); [now apply IH|].
    cbn [length]. f_equal. apply IH. intros k. cbn [existsb]. now rewrite H.
  - cbn [unique_from existsb]. rewrite <- !H.
    rewrite (key_eqb_sym (conflict_key x) (conflict_key y)).
    destruct (existsb (key_eqb (conflict_key y)) s1) eqn:My,
             (existsb (key_eqb (conflict_key x)) s1) eqn:Mx;
      cbn [orb]; rewrite ?orb_true_r, ?orb_false_r; cbn [length].
    + now apply unique_from_length_ext.
    + f_equal. apply unique_from_length_ext. intros k. cbn [existsb]. now rewrite H.
    + f_equal. apply unique_from_length_ext. intros k. cbn [existsb]. now rewrite H.
    + destruct (key_eqb (conflict_key y) (conflict_key x)) eqn:E; cbn [length]; f_equal.
      * apply unique_from_length_ext. intros k. cbn [existsb].
        now rewrite H, (@key_eqb_same k _ _ E).
      * f_equal. apply unique_from_length_ext. intros k. cbn [existsb].
        rewrite H. now destruct (key_eqb k (conflict_key x)), (key_eqb k (conflict_key y)).
  - rewrite (IH1 s1 s1) by reflexivity. now apply IH2.
Qed.

End ConflictSets.

(** C3, as the code has it.  Merging is idempotent, and it keeps for every
    key its first occurrence in the concatenated input.  Permuting the input
    changes neither the number of survivors nor the keys they stand for, but
    it can change which conflict survives under a key. *)
Theorem merge_conflicts_laws :
  (forall conflict_lists,
      merge_conflicts [merge_conflicts conflict_lists] = merge_conflicts conflict_lists)
  /\ (forall conflict_lists,
        merge_conflicts conflict_lists = first_occurrences [] (concat conflict_lists))
  /\ (forall X Y,
        Permutation (concat X) (concat Y) ->
        length (merge_conflicts X) = length (merge_conflicts Y)
        /\ forall c, In c (merge_conflicts X) ->
                     exists c', In c' (merge_conflicts Y) /\ same_key c c').
Proof.
  unfold merge_conflicts. split; [|split].
  - intros X. cbn [concat]. rewrite app_nil_r.
    destruct (unique_from_invariant (concat X) []) as [F P].
    now apply unique_from_fixed.
  - intros X. now apply unique_from_first.
  - intros X Y P. split; [now apply unique_from_length_perm|].
    intros c H. apply unique_from_incl in H.
    apply (Permutation_in _ P) in H.
    destruct (unique_from_covers (concat Y) [] c H) as [E|E]; [discriminate|exact E].
Qed.

(** C3 fails as stated: two conflicts with the same key (the same pair of
    drones at [t = 5]) and unlike severities; either survives when its list
    comes first. *)
Lemma merge_conflicts_depends_on_order :
  key_eqb (conflict_key Example.conflict_a) (conflict_key Example.conflict_a') = true
  /\ merge_conflicts [[Example.conflict_a]; [Example.conflict_a']] = [Example.conflict_a]
  /\ merge_conflicts [[Example.conflict_a']; [Example.conflict_a]] = [Example.conflict_a']
  /\ Conflict.severity Example.conflict_a <> Conflict.severity Example.conflict_a'.
Proof. repeat split. discriminate. Qed.

(* ================================================================== *)
(** * Facts: severity filter and dictionaries *)
(* ================================================================== *)

Section Filtering.

Lemma severity_order_rank (s : string) :
  Dict.get severity_order s
  = match severity_rank s with Some r => Ok r | None => Raise KeyError end.
Proof.
  unfold severity_order, severity_rank. cbn [Dict.get].
  rewrite (String.eqb_sym "low" s), (String.eqb_sym "medium" s), (String.eqb_sym "high" s).
  destruct (String.eqb s "low"), (String.eqb s "medium"), (String.eqb s "high");
    reflexivity.
Qed.

Lemma recognized_rank (s : string) :
  recognized s <-> exists r, severity_rank s = Some r.
Proof.
  unfold recognized, severity_rank. split.
  - intros [-> | [-> | ->]]; cbn; eauto.
  - intros [r H].
    destruct (String.eqb_spec s "low"); [auto|].
    destruct (String.eqb_spec s "medium"); [auto|].
    destruct (String.eqb_spec s "high"); [auto|discriminate].
Qed.

Lemma select_ok {A : Type} (cond : A -> result bool) (p : A -> bool) (l : list A) :
  Forall (fun a => cond a = Ok (p a)) l -> select cond l = Ok (filter p l).
Proof.
  induction 1 as [|a r Ha _ IH]; [reflexivity|].
  cbn [select filter]. rewrite Ha, IH. reflexivity.
Qed.

End Filtering.

(** C9.  On conflicts whose severities are among the three levels, the
    filter returns exactly the conflicts whose rank (low = 0, medium = 1,
    high = 2) is at least the rank of [min_severity], and the call fails,
    with a KeyError, exactly when [min_severity] is not one of the three
    levels. *)
Theorem filter_by_severity (conflicts : list Conflict.t) (min_severity : string) :
  Forall (fun c => recognized (Conflict.severity c)) conflicts ->
  (recognized min_severity ->
   filter_conflicts_by_severity conflicts min_severity
   = Ok (filter (at_least min_severity) conflicts))
  /\ (~ recognized min_severity ->
      filter_conflicts_by_severity conflicts min_severity = Raise KeyError)
  /\ ((exists e, filter_conflicts_by_severity conflicts min_severity = Raise e)
      <-> ~ recognized min_severity).
Proof.
  intros F. unfold filter_conflicts_by_severity.
  rewrite severity_order_rank, recognized_rank.
  destruct (severity_rank min_severity) as [m|] eqn:Em; cbn [bind].
  - assert (S : select
                  (fun c => level <- Dict.get severity_order (Conflict.severity c) ;;
                            Ok (m <=? level)%Z) conflicts
                = Ok (filter (at_least min_severity) conflicts)).
    { apply select_ok. eapply Forall_impl; [|exact F]. cbn beta. intros c R.
      apply recognized_rank in R as [r Er].
      unfold at_least. now rewrite severity_order_rank, Em, Er. }
    rewrite S. split; [reflexivity|]. split.
    + intros N. exfalso. apply N. eauto.
    + split; [intros [e H]; discriminate|]. intros N. exfalso. apply N. eauto.
  - split; [intros [r H]; discriminate|]. split; [reflexivity|].
    split; [intros _ [r H]; discriminate|eauto].
Qed.

Lemma filter_by_severity_witness :
  Forall (fun c => recognized (Conflict.severity c))
         [Example.conflict_a; Example.conflict_b]
  /\ filter_conflicts_by_severity [Example.conflict_a; Example.conflict_b] "high"
     = Ok [Example.conflict_a]
  /\ filter_conflicts_by_severity [Example.conflict_a; Example.conflict_b] "severe"
     = Raise KeyError.
Proof.
  assert (F : Forall (fun c => recognized (Conflict.severity c))
                     [Example.conflict_a; Example.conflict_b]).
  { constructor; [right; right; reflexivity|].
    constructor; [left; reflexivity|constructor]. }
  split; [exact F|]. split.
  - apply (proj1 (filter_by_severity "high" F)). right; right; reflexivity.
  - apply (proj1 (proj2 (filter_by_severity "severe" F))).
    unfold recognized. intros [H|[H|H]]; discriminate H.
Defined.

(** A conflict whose severity is none of the three levels makes the lookup
    inside the comprehension fail. *)
Example filter_by_severity_odd_conflict :
  filter_conflicts_by_severity [Example.conflict_a; Example.conflict_odd] "low"
  = Raise KeyError.
Proof. reflexivity. Qed.

(** C4, as the code has it.  A waypoint is rebuilt from its dictionary; a
    conflict has a dictionary that determines it, and no function that
    rebuilds it: [Conflict.from_dict] is not defined. *)
Theorem representation_round_trip :
  (forall w, Waypoint.from_dict (Waypoint.to_dict w) = Ok w)
  /\ (forall c c', Conflict.to_dict c = Conflict.to_dict c' -> c = c')
  /\ (forall data, Conflict.from_dict data = Raise AttributeError).
Proof.
  split; [|split].
  - intros [x y z t]. reflexivity.
  - intros [a1 b1 t1 d1 [x1 y1 z1 s1] [x1' y1' z1' s1'] v1 k1]
           [a2 b2 t2 d2 [x2 y2 z2 s2] [x2' y2' z2' s2'] v2 k2].
    unfold Conflict.to_dict, Waypoint.to_dict. cbn. intros H. congruence.
  - reflexivity.
Qed.

(** C4 fails as stated for Conflict: reading back the dictionary of a
    conflict does not return the conflict. *)
Lemma conflict_not_rebuilt :
  Conflict.from_dict (Conflict.to_dict Example.conflict_a) <> Ok Example.conflict_a.
Proof. discriminate. Qed.

(* ================================================================== *)
(** * Further facts: distances *)
(* ================================================================== *)

Section Distances.

Context {libm : Libm}.

Local Open Scope float_scope.

Lemma round_aux_opp (s : bool) (m e : Z) (l : location) :
  binary_round_aux prec emax (negb s) m e l = SFopp (binary_round_aux prec emax s m e l).
Proof.
  unfold binary_round_aux.
  destruct (shr_fexp prec emax m e l) as [mrs' e'].
  destruct (shr_fexp prec emax _ e' loc_Exact) as [mrs'' e''].
  destruct (shr_m mrs''); [reflexivity| |reflexivity].
  destruct (_ <=? _)%Z; reflexivity.
Qed.

Lemma normalize_opp (m e : Z) :
  mirrored (binary_normalize prec emax m e false) (binary_normalize prec emax (- m) e false).
Proof.
  destruct m as [|p|p]; cbn [Z.opp binary_normalize]; [right; eauto|left..].
  - unfold binary_round. destruct (shl_align _ _ _) as [mz ez].
    apply (round_aux_opp false).
  - unfold binary_round. destruct (shl_align _ _ _) as [mz ez].
    change true with (negb false). rewrite (round_aux_opp false).
    now destruct (binary_round_aux _ _ _ _ _ _) as [[]|[]| |[] ? ?].
Qed.

Lemma sub_mirrored (a b : spec_float) :
  mirrored (SFsub prec emax a b) (SFsub prec emax b a).
Proof.
  destruct a as [sa|sa| |sa ma ea], b as [sb|sb| |sb mb eb]; cbn [SFsub].
  16: { rewrite (Z.min_comm eb ea).
        set (ez := Z.min ea eb).
        set (A := cond_Zopp sa _). set (B := cond_Zopp sb _).
        replace (B - A)%Z with (- (A - B))%Z by lia.
        apply normalize_opp. }
  all: try (left; reflexivity).
  all: try (left; cbn; now rewrite negb_involutive).
  all: destruct sa, sb; (left; reflexivity) || (right; do 2 eexists; split; reflexivity).
Qed.

Lemma square_mirrored (v w : spec_float) :
  mirrored v w -> SFmul prec emax v v = SFmul prec emax w w.
Proof.
  intros [->|(s & s' & -> & ->)].
  - destruct v as [[]|[]| |[] m e]; reflexivity.
  - destruct s, s'; reflexivity.
Qed.

(** The product of a difference with itself does not depend on its
    direction. *)
Lemma square_diff_sym (a b : float) : (a - b) * (a - b) = (b - a) * (b - a).
Proof.
  apply Prim2SF_inj. rewrite !mul_spec, !sub_spec.
  apply square_mirrored, sub_mirrored.
Qed.

(** The two differences of a pair of floats are opposite, or both are
    zeros. *)
Lemma sub_swapped (a b : float) :
  b - a = - (a - b)
  \/ (exists s s', Prim2SF (a - b) = S754_zero s /\ Prim2SF (b - a) = S754_zero s').
Proof.
  destruct (sub_mirrored (Prim2SF a) (Prim2SF b)) as [E|(s & s' & E & E')].
  - left. apply Prim2SF_inj. rewrite opp_spec, !sub_spec. exact E.
  - right. exists s, s'. now rewrite !sub_spec.
Qed.

Lemma is_zero_spec (v : float) (s : bool) :
  Prim2SF v = S754_zero s -> (v =? 0) = true.
Proof.
  intros E. rewrite FloatAxioms.eqb_spec, E. now destruct s.
Qed.

(** On Python floats the square of a float and of its opposite are the same
    outcome, whatever the library: it is called on the absolute value. *)
Lemma python_square_opp (v : float) :
  Py.square Py.python_float (- v) = Py.square Py.python_float v.
Proof.
  unfold Py.square.
  assert (A : abs (- v) = abs v).
  { apply Prim2SF_inj. rewrite !abs_spec, opp_spec.
    now destruct (Prim2SF v) as [[]|[]| |[] m e]. }
  assert (N : is_nan (- v) = is_nan v).
  { unfold is_nan. rewrite !FloatAxioms.eqb_spec, opp_spec.
    destruct (Prim2SF v) as [[]|[]| |[] m e]; cbn; try reflexivity;
      rewrite ?Z.compare_refl, ?Pos.compare_cont_refl; reflexivity. }
  assert (Z0 : (- v =? 0) = (v =? 0)).
  { rewrite !FloatAxioms.eqb_spec, opp_spec.
    now destruct (Prim2SF v) as [[]|[]| |[] m e]. }
  unfold is_infinity. rewrite A, N, Z0.
  destruct (is_nan v) eqn:Nv; [|reflexivity].
  f_equal. apply Prim2SF_inj. rewrite opp_spec.
  unfold is_nan in Nv. rewrite FloatAxioms.eqb_spec in Nv.
  destruct (Prim2SF v) as [[]|[]| |[] m e]; try reflexivity; cbn in Nv;
    rewrite ?Z.compare_refl, ?Pos.compare_cont_refl in Nv; discriminate.
Qed.

Lemma python_square_diff_sym (a b : float) :
  Py.square Py.python_float (a - b) = Py.square Py.python_float (b - a).
Proof.
  destruct (sub_swapped a b) as [->|(s & s' & E & E')].
  - now rewrite python_square_opp.
  - unfold Py.square.
    assert (N : forall v s0, Prim2SF v = S754_zero s0 ->
                             is_nan v = false /\ is_infinity v = false).
    { intros v s0 Ev. unfold is_infinity, is_nan.
      rewrite !FloatAxioms.eqb_spec, abs_spec, Ev. now destruct s0. }
    destruct (N _ _ E) as [-> ->]. destruct (N _ _ E') as [-> ->].
    now rewrite (is_zero_spec _ E), (is_zero_spec _ E').
Qed.

(** On NumPy floats the same holds for a library whose [pow] is even. *)
Lemma numpy_square_diff_sym (a b : float) :
  (forall v, pow2 (- v) = pow2 v) -> pow2 (a - b) = pow2 (b - a).
Proof.
  intros Even. destruct (sub_swapped a b) as [->|(s & s' & E & E')].
  - now rewrite Even.
  - destruct s, s'.
    + f_equal. apply Prim2SF_inj. now rewrite E, E'.
    + rewrite <- (Even (b - a)). f_equal. apply Prim2SF_inj.
      now rewrite opp_spec, E, E'.
    + rewrite <- (Even (b - a)). f_equal. apply Prim2SF_inj.
      now rewrite opp_spec, E, E'.
    + f_equal. apply Prim2SF_inj. now rewrite E, E'.
Qed.

(** A square root is NaN, a zero or positive. *)
Lemma sqrt_not_negative (v : float) : (Np.sqrt v <? 0) = false.
Proof.
  unfold Np.sqrt. rewrite FloatAxioms.ltb_spec, sqrt_spec.
  unfold SF64sqrt, SFsqrt.
  destruct (Prim2SF v) as [[]|[]| |[] m e]; try reflexivity.
  destruct (SFsqrt_core_binary prec emax (Z.pos m) e) as [[mz ez] lz].
  unfold binary_round_aux.
  destruct (shr_fexp prec emax mz ez lz) as [mrs' e'].
  destruct (shr_fexp prec emax _ e' loc_Exact) as [mrs'' e''].
  destruct (shr_m mrs''); try reflexivity.
  destruct (_ <=? _)%Z; reflexivity.
Qed.

(** Every distance that is returned is a square root. *)
Lemma distance_is_sqrt (type : Py.number) (a b : Waypoint.t) (d : float) :
  Waypoint.distance_to type a b = Ok d -> exists v, d = Np.sqrt v.
Proof.
  unfold Waypoint.distance_to. intros E.
  destruct (Py.square type (Waypoint.x a - Waypoint.x b)) as [dx|]; [|discriminate].
  destruct (Py.square type (Waypoint.y a - Waypoint.y b)) as [dy|]; [|discriminate].
  destruct (Py.square type (Waypoint.z a - Waypoint.z b)) as [dz|]; [|discriminate].
  cbn [bind] in E. injection E as <-. eauto.
Qed.

Lemma distance_not_negative (type : Py.number) (a b : Waypoint.t) (d : float) :
  Waypoint.distance_to type a b = Ok d -> (d <? 0) = false.
Proof.
  intros E. destruct (distance_is_sqrt _ _ _ E) as [v ->]. apply sqrt_not_negative.
Qed.

Lemma python_square_raises (v : float) (e : exn) :
  Py.square Py.python_float v = Raise e -> e = OverflowError.
Proof.
  unfold Py.square.
  destruct (is_nan v); [discriminate|]. destruct (is_infinity v); [discriminate|].
  destruct (v =? 0); [discriminate|]. destruct (abs v =? 1); [discriminate|].
  destruct (is_infinity _); [|discriminate]. now intros [= <-].
Qed.

Lemma python_square_of_self_difference (t : float) :
  is_finite t = true -> Py.square Py.python_float (t - t) = Ok 0.
Proof.
  intros F. pose proof (sub_self t F) as E. unfold Py.square.
  assert (N : is_nan (t - t) = false /\ is_infinity (t - t) = false).
  { unfold is_infinity, is_nan. now rewrite !FloatAxioms.eqb_spec, abs_spec, E. }
  destruct N as [-> ->]. now rewrite (is_zero_spec _ E).
Qed.

End Distances.

(** X2.  [distance_to] on the Python floats that waypoints hold: it is the
    same outcome in both directions, bit for bit or exception for exception,
    whatever the library's [pow] (CPython calls it on absolute values); the
    only exception is the OverflowError of a square that overflows; and the
    distance from a position with finite coordinates to itself is [0.0],
    without the library being asked.  On NumPy floats nothing is raised: the
    distance is the square root of the sum of the library's squares of the
    three coordinate differences, and the two directions agree for a library
    whose [pow] is even.  For both types a returned distance is never
    negative: it is NaN, a zero or a positive float. *)
Theorem distance_to_laws {libm : Libm} :
  (forall a b,
      Waypoint.distance_to Py.python_float a b = Waypoint.distance_to Py.python_float b a)
  /\ (forall a b e,
        Waypoint.distance_to Py.python_float a b = Raise e -> e = OverflowError)
  /\ (forall w,
        is_finite (Waypoint.x w) = true -> is_finite (Waypoint.y w) = true ->
        is_finite (Waypoint.z w) = true ->
        Waypoint.distance_to Py.python_float w w = Ok 0%float)
  /\ (forall a b,
        Waypoint.distance_to Py.numpy_float64 a b
        = Ok (Np.sqrt (pow2 (Waypoint.x a - Waypoint.x b)
                       + pow2 (Waypoint.y a - Waypoint.y b)
                       + pow2 (Waypoint.z a - Waypoint.z b)))%float)
  /\ ((forall v, pow2 (- v) = pow2 v) ->
      forall a b,
        Waypoint.distance_to Py.numpy_float64 a b
        = Waypoint.distance_to Py.numpy_float64 b a)
  /\ (forall type a b d,
        Waypoint.distance_to type a b = Ok d -> (d <? 0)%float = false).
Proof.
  split; [|split; [|split; [|split; [|split]]]].
  - intros a b. unfold Waypoint.distance_to.
    now rewrite (python_square_diff_sym (Waypoint.x a)),
      (python_square_diff_sym (Waypoint.y a)), (python_square_diff_sym (Waypoint.z a)).
  - intros a b e. unfold Waypoint.distance_to.
    destruct (Py.square _ (Waypoint.x a - Waypoint.x b)) as [dx|ex] eqn:Ex;
      [|cbn [bind]; intros [= <-]; exact (python_square_raises _ Ex)].
    destruct (Py.square _ (Waypoint.y a - Waypoint.y b)) as [dy|ey] eqn:Ey;
      [|cbn [bind]; intros [= <-]; exact (python_square_raises _ Ey)].
    destruct (Py.square _ (Waypoint.z a - Waypoint.z b)) as [dz|ez] eqn:Ez;
      [|cbn [bind]; intros [= <-]; exact (python_square_raises _ Ez)].
    discriminate.
  - intros w Fx Fy Fz. unfold Waypoint.distance_to.
    rewrite (python_square_of_self_difference _ Fx),
      (python_square_of_self_difference _ Fy), (python_square_of_self_difference _ Fz).
    reflexivity.
  - intros a b. reflexivity.
  - intros Even a b. unfold Waypoint.distance_to, Py.square. cbn [bind].
    now rewrite (numpy_square_diff_sym (Waypoint.x a) _ Even),
      (numpy_square_diff_sym (Waypoint.y a) _ Even),
      (numpy_square_diff_sym (Waypoint.z a) _ Even).
  - intros type a b d. apply distance_not_negative.
Qed.

(** The library of the examples has an even [pow]. *)
Example products_even (v : float) :
  pow2 (Libm := Example.products) (- v) = pow2 (Libm := Example.products) v.
Proof.
  cbn. apply Prim2SF_inj. rewrite !mul_spec, opp_spec.
  now destruct (Prim2SF v) as [[]|[]| |[] m e].
Qed.

(** With the correctly rounded products for squares: a 3-4-5 triangle, and
    two positions [1e200] apart, where the square overflows: an exception on
    Python floats, an infinity on NumPy's. *)
Example distance_to_on_test :
  Waypoint.distance_to (libm := Example.products) Py.python_float
    (Waypoint.Build 0 0 0 0) (Waypoint.Build 3 4 0 0) = Ok 5%float
  /\ Waypoint.distance_to (libm := Example.products) Py.python_float
       (Waypoint.Build 0 0 0 0) (Waypoint.Build 0x1.4e718d7d7625ap+664 0 0 0)
     = Raise OverflowError
  /\ Waypoint.distance_to (libm := Example.products) Py.numpy_float64
       (Waypoint.Build 0 0 0 0) (Waypoint.Build 0x1.4e718d7d7625ap+664 0 0 0)
     = Ok infinity.
Proof. repeat split. Qed.

(* ================================================================== *)
(** * Further facts: decoding waypoints and missions *)
(* ================================================================== *)

Section Decoding.

Lemma dict_get_in {V : Type} (d : list (string * V)) (k : string) :
  In k (Dict.keys d) -> exists v, Dict.get d k = Ok v /\ In (k, v) d.
Proof.
  unfold Dict.keys. induction d as [|[k' v'] r IH]; [intros []|].
  cbn [map fst Dict.get In]. intros I.
  destruct (String.eqb_spec k' k) as [->|N]; [eauto|].
  destruct I as [E|I]; [contradiction|].
  destruct (IH I) as (v & E & Iv). eauto.
Qed.

Lemma dict_get_missing {V : Type} (d : list (string * V)) (k : string) :
  ~ In k (Dict.keys d) -> Dict.get d k = Raise KeyError.
Proof.
  unfold Dict.keys. induction d as [|[k' v'] r IH]; [reflexivity|].
  cbn [map fst Dict.get In]. intros N.
  destruct (String.eqb_spec k' k) as [->|_]; [exfalso; auto|auto].
Qed.

Lemma get_float_cases (data : list (string * pyval)) (k : string) :
  holds_floats data ->
  (In k (Dict.keys data)
   /\ exists f, get_float data k = Ok f /\ Dict.get data k = Ok (PFloat f))
  \/ (~ In k (Dict.keys data) /\ get_float data k = Raise KeyError).
Proof.
  intros F. unfold get_float.
  destruct (in_dec string_dec k (Dict.keys data)) as [I|N].
  - left. split; [exact I|]. destruct (dict_get_in _ _ I) as (v & E & Iv).
    unfold holds_floats in F. rewrite Forall_forall in F.
    destruct (F _ Iv) as [f Ef]. cbn [snd] in Ef. subst v.
    exists f. now rewrite E.
  - right. split; [exact N|]. now rewrite dict_get_missing.
Qed.

Lemma get_float_ok (data : list (string * pyval)) (k : string) (f : float) :
  get_float data k = Ok f -> Dict.get data k = Ok (PFloat f).
Proof.
  unfold get_float. destruct (Dict.get data k) as [[g|s|d]|e]; cbn [bind]; try discriminate.
  now intros [= ->].
Qed.

Lemma from_dict_cases (data : list (string * pyval)) :
  holds_floats data ->
  (incl waypoint_keys (Dict.keys data) /\ exists w, Waypoint.from_dict data = Ok w)
  \/ (~ incl waypoint_keys (Dict.keys data)
      /\ Waypoint.from_dict data = Raise KeyError).
Proof.
  intros F. unfold Waypoint.from_dict, waypoint_keys.
  destruct (get_float_cases "x" F) as [(Ix & fx & -> & _)|(N & ->)];
    [|right; split; [intros I; apply N, I; cbn; auto|reflexivity]].
  destruct (get_float_cases "y" F) as [(Iy & fy & -> & _)|(N & ->)];
    [|right; split; [intros I; apply N, I; cbn; auto|reflexivity]].
  destruct (get_float_cases "z" F) as [(Iz & fz & -> & _)|(N & ->)];
    [|right; split; [intros I; apply N, I; cbn; auto|reflexivity]].
  destruct (get_float_cases "timestamp" F) as [(It & ft & -> & _)|(N & ->)];
    [|right; split; [intros I; apply N, I; cbn; auto 6|reflexivity]].
  left. split; [|cbn [bind]; eauto].
  intros k [<-|[<-|[<-|[<-|[]]]]]; assumption.
Qed.

Lemma from_dict_timestamp (data : list (string * pyval)) (w : Waypoint.t) :
  Waypoint.from_dict data = Ok w -> get_float data "timestamp" = Ok (Waypoint.timestamp w).
Proof.
  unfold Waypoint.from_dict.
  destruct (get_float data "x"); [|discriminate].
  destruct (get_float data "y"); [|discriminate].
  destruct (get_float data "z"); [|discriminate].
  destruct (get_float data "timestamp"); [|discriminate].
  cbn [bind]. now intros [= <-].
Qed.

Lemma decode_encoded (ws : list Waypoint.t) :
  map_result Waypoint.from_dict (map Waypoint.to_dict ws) = Ok ws.
Proof.
  induction ws as [|[x y z t] r IH]; [reflexivity|].
  cbn [map map_result]. rewrite IH. reflexivity.
Qed.

Lemma map_result_app {A B : Type} (f : A -> result B) (l1 l2 : list A) :
  map_result f (l1 ++ l2)
  = (o1 <- map_result f l1 ;; o2 <- map_result f l2 ;; Ok (o1 ++ o2)).
Proof.
  induction l1 as [|a r IH]; cbn [app map_result bind].
  - now destruct (map_result f l2).
  - destruct (f a); [|reflexivity]. cbn [bind]. rewrite IH.
    destruct (map_result f r); [|reflexivity]. cbn [bind].
    now destruct (map_result f l2).
Qed.

Lemma map_result_ok {A B : Type} (f : A -> result B) (l : list A) (out : list B) :
  map_result f l = Ok out -> Forall2 (fun a b => f a = Ok b) l out.
Proof.
  revert out. induction l as [|a r IH]; intros out E; cbn [map_result] in E.
  - injection E as <-. constructor.
  - destruct (f a) as [b|e] eqn:Eb; [|discriminate]. cbn [bind] in E.
    destruct (map_result f r) as [rest|e]; [|discriminate]. cbn [bind] in E.
    injection E as <-. constructor; auto.
Qed.

Lemma map_result_fails {A B : Type} (f : A -> result B) (l : list A) (a : A) (e : exn) :
  In a l -> f a = Raise e -> exists e', map_result f l = Raise e'.
Proof.
  induction l as [|h r IH]; [intros []|]. intros [->|I] E; cbn [map_result].
  - rewrite E. cbn [bind]. eauto.
  - destruct (f h); cbn [bind]; [|eauto]. destruct (IH I E) as [e' ->]. cbn [bind]. eauto.
Qed.

Lemma forall2_in_l {A B : Type} (R : A -> B -> Prop) (l : list A) (l' : list B) (a : A) :
  Forall2 R l l' -> In a l -> exists b, In b l' /\ R a b.
Proof.
  induction 1 as [|x y r r' Rxy _ IH]; [intros []|].
  intros [<-|I]; [exists y; cbn; auto|].
  destruct (IH I) as (b & Ib & Rb). exists b. cbn; auto.
Qed.

End Decoding.

(** X1.  On a dictionary whose values are floats, [Waypoint.from_dict]
    returns a waypoint exactly when the four keys x, y, z and timestamp are
    present and raises KeyError exactly when one of them is missing; keys
    beyond the four are ignored, and the dictionary of the waypoint returned
    agrees with the input on the four keys. *)
Theorem from_dict_keys (data : list (string * pyval)) :
  holds_floats data ->
  ((exists w, Waypoint.from_dict data = Ok w) <-> incl waypoint_keys (Dict.keys data))
  /\ (Waypoint.from_dict data = Raise KeyError <-> ~ incl waypoint_keys (Dict.keys data))
  /\ (forall w, Waypoint.from_dict data = Ok w ->
        forall k, In k waypoint_keys -> Dict.get (Waypoint.to_dict w) k = Dict.get data k).
Proof.
  intros F.
  assert (R : forall w, Waypoint.from_dict data = Ok w ->
                forall k, In k waypoint_keys ->
                  Dict.get (Waypoint.to_dict w) k = Dict.get data k).
  { intros w. unfold Waypoint.from_dict.
    destruct (get_float data "x") as [vx|e] eqn:Ex; [|discriminate].
    destruct (get_float data "y") as [vy|e] eqn:Ey; [|discriminate].
    destruct (get_float data "z") as [vz|e] eqn:Ez; [|discriminate].
    destruct (get_float data "timestamp") as [vt|e] eqn:Et; [|discriminate].
    cbn [bind]. intros [= <-] k [<-|[<-|[<-|[<-|[]]]]];
      symmetry; now apply get_float_ok. }
  pose proof (from_dict_cases F) as C.
  split; [|split; [|exact R]].
  - destruct C as [[I E]|[N E]]; [tauto|]. rewrite E.
    split; [intros [w H]; discriminate|tauto].
  - destruct C as [[I [w E]]|[N E]]; rewrite E; [|tauto].
    split; [discriminate|tauto].
Qed.

Lemma from_dict_keys_witness :
  holds_floats [("timestamp", PFloat 5); ("z", PFloat 100); ("x", PFloat 1);
                ("speed", PFloat 3); ("y", PFloat 2)]%string
  /\ exists w, Waypoint.from_dict
                 [("timestamp", PFloat 5); ("z", PFloat 100); ("x", PFloat 1);
                  ("speed", PFloat 3); ("y", PFloat 2)]%string = Ok w.
Proof.
  assert (F : holds_floats [("timestamp", PFloat 5); ("z", PFloat 100); ("x", PFloat 1);
                            ("speed", PFloat 3); ("y", PFloat 2)]%string).
  { unfold holds_floats. repeat constructor; cbn [snd]; eauto. }
  split; [exact F|].
  apply (proj1 (from_dict_keys F)).
  intros k [<-|[<-|[<-|[<-|[]]]]]; cbn; auto 10.
Defined.

(** X3.  [from_mission_data] composes decoding with construction: on the
    dictionaries of a list of waypoints it returns what the constructor
    returns on those waypoints; the first dictionary that cannot be decoded
    decides the exception, before the constructor validates anything; an
    empty mission is rejected with a ValueError. *)
Theorem from_mission_data_decodes (drone_id : string) :
  (forall ws,
      DroneTrajectory.from_mission_data drone_id (map Waypoint.to_dict ws)
      = DroneTrajectory.__init__ drone_id ws)
  /\ (forall ws bad rest e,
        Waypoint.from_dict bad = Raise e ->
        DroneTrajectory.from_mission_data drone_id
          (map Waypoint.to_dict ws ++ bad :: rest)
        = Raise e)
  /\ DroneTrajectory.from_mission_data drone_id [] = Raise ValueError.
Proof.
  unfold DroneTrajectory.from_mission_data. split; [|split; [|reflexivity]].
  - intros ws. now rewrite decode_encoded.
  - intros ws bad rest e E. rewrite map_result_app, decode_encoded. cbn [bind map_result].
    now rewrite E.
Qed.

(* ================================================================== *)
(** * Further facts: constructed trajectories *)
(* ================================================================== *)

Section Rebuilding.

Lemma increasing_distinct (ws : list Waypoint.t) :
  increasing ws ->
  ForallOrdPairs (fun a b => (a =? b)%float = false) (map Waypoint.timestamp ws).
Proof.
  unfold increasing. induction 1 as [|a r Sr IH Ha]; cbn [map]; constructor.
  - apply Forall_map. eapply Forall_impl; [|exact Ha]. cbn beta. intros b L.
    rewrite eqb_sym. now apply ltb_neq.
  - exact IH.
Qed.

Lemma init_result (drone_id : string) (ws : list Waypoint.t) (traj : DroneTrajectory.t) :
  DroneTrajectory.__init__ drone_id ws = Ok traj ->
  traj = DroneTrajectory.Build drone_id (DroneTrajectory.sorted_by_timestamp ws)
  /\ (2 <= length ws)%nat.
Proof.
  intros E. destruct (init_total drone_id ws) as [E'|E']; [|congruence].
  split; [congruence|].
  destruct (Nat.lt_ge_cases (length ws) 2) as [L|L]; [|exact L].
  assert (X : DroneTrajectory.__init__ drone_id ws = Raise ValueError)
    by (apply init_fails_iff; now left).
  congruence.
Qed.

(** Waypoints already in increasing order are stored as they are. *)
Lemma init_increasing (drone_id : string) (ws : list Waypoint.t) :
  (2 <= length ws)%nat -> increasing ws ->
  Forall (fun w => is_time (Waypoint.timestamp w)) ws ->
  DroneTrajectory.__init__ drone_id ws = Ok (DroneTrajectory.Build drone_id ws).
Proof.
  intros L Inc T.
  destruct (init_total drone_id ws) as [E|E].
  - rewrite E. do 2 f_equal. symmetry.
    apply increasing_perm_unique; [exact Inc| |apply sorted_by_timestamp_perm].
    assert (V : valid_trajectory
                  (DroneTrajectory.Build drone_id (DroneTrajectory.sorted_by_timestamp ws)))
      by (exists ws; auto).
    apply (valid_waypoints V).
  - apply init_fails_iff in E as [E|E]; [lia|].
    apply share_not_distinct in E. exfalso. apply E. now apply increasing_distinct.
Qed.

Lemma constructed_nonempty (traj : DroneTrajectory.t) :
  constructed traj -> exists w0 r, DroneTrajectory.waypoints traj = w0 :: r.
Proof.
  intros (drone_id & ws & E). destruct (init_result _ _ E) as [-> L].
  pose proof (Permutation_length (sorted_by_timestamp_perm ws)) as P.
  cbn [DroneTrajectory.waypoints].
  destruct (DroneTrajectory.sorted_by_timestamp ws) as [|w0 r]; [cbn in P; lia|eauto].
Qed.

Lemma constructed_bounds (traj : DroneTrajectory.t) :
  constructed traj ->
  DroneTrajectory.get_trajectory_bounds traj = Ok (start_time traj, end_time traj).
Proof.
  intros C. destruct (constructed_nonempty C) as (w0 & r & E).
  unfold start_time, end_time, DroneTrajectory.get_trajectory_bounds. now rewrite E.
Qed.

Lemma constructed_position (traj : DroneTrajectory.t) (t : float) :
  constructed traj ->
  exists p, DroneTrajectory.interpolate_position traj t = Ok p.
Proof.
  intros C. destruct (constructed_nonempty C) as (w0 & r & E).
  unfold DroneTrajectory.interpolate_position. rewrite E. destruct (_ || _); eauto.
Qed.

Lemma last_member {A : Type} (l : list A) (a d : A) : In (last (a :: l) d) (a :: l).
Proof.
  revert a. induction l as [|b r IH]; intros a; [now left|].
  change (last (a :: b :: r) d) with (last (b :: r) d). right. apply IH.
Qed.

Lemma samples_shorter (traj : DroneTrajectory.t) (grid : list float) :
  (length (flat_map (fun t => match position_at traj t with
                              | Some w => [w]
                              | None => []
                              end) grid)
   <= length grid)%nat.
Proof.
  induction grid as [|t g IH]; [constructor|].
  cbn [flat_map]. rewrite length_app. destruct (position_at traj t); cbn; lia.
Qed.

Lemma constructed_samples (traj : DroneTrajectory.t) (n : Z) :
  constructed traj -> (0 <= n)%Z ->
  exists samples,
    DroneTrajectory.sample_trajectory traj n = Ok samples
    /\ (length samples <= Z.to_nat n)%nat.
Proof.
  intros C Hn. destruct (constructed_nonempty C) as (w0 & r & E).
  unfold DroneTrajectory.sample_trajectory. rewrite (constructed_bounds C). cbn [bind].
  destruct (linspace_ok (start_time traj) (end_time traj) Hn) as (grid & -> & Lg).
  cbn [bind]. rewrite sample_at_ok by (rewrite E; discriminate).
  eexists. split; [reflexivity|]. rewrite <- Lg. apply samples_shorter.
Qed.

End Rebuilding.

(** X4.  A valid trajectory is a fixed point of construction: the
    constructor applied to its own ID and waypoints, and
    [from_mission_data] applied to the dictionaries of its waypoints, both
    return the trajectory itself. *)
Theorem trajectory_rebuilt (traj : DroneTrajectory.t) :
  valid_trajectory traj ->
  DroneTrajectory.__init__ (DroneTrajectory.drone_id traj) (DroneTrajectory.waypoints traj)
  = Ok traj
  /\ DroneTrajectory.from_mission_data (DroneTrajectory.drone_id traj)
       (map Waypoint.to_dict (DroneTrajectory.waypoints traj))
     = Ok traj.
Proof.
  intros V. destruct (valid_waypoints V) as (L & T & Inc).
  assert (E : DroneTrajectory.__init__ (DroneTrajectory.drone_id traj)
                (DroneTrajectory.waypoints traj) = Ok traj).
  { rewrite (init_increasing _ L Inc T). now destruct traj. }
  split; [exact E|]. unfold DroneTrajectory.from_mission_data. now rewrite decode_encoded.
Qed.

Lemma trajectory_rebuilt_witness :
  valid_trajectory Example.drone3
  /\ DroneTrajectory.from_mission_data "drone3"
       (map Waypoint.to_dict Example.curved_waypoints)
     = Ok Example.drone3.
Proof.
  split; [exact drone3_valid|]. exact (proj2 (trajectory_rebuilt drone3_valid)).
Defined.

(** X5.  For waypoints whose timestamps are real numbers, a trajectory
    returned by the constructor carries the drone ID it was given and the
    given waypoints, all of them and no other, with timestamps that strictly
    increase along the stored list, so that no waypoint is later than its
    successor; and it is the only such arrangement of the given waypoints,
    whatever the sorting algorithm. *)
Theorem init_sorts (drone_id : string) (ws : list Waypoint.t) (traj : DroneTrajectory.t) :
  Forall (fun w => is_time (Waypoint.timestamp w)) ws ->
  DroneTrajectory.__init__ drone_id ws = Ok traj ->
  DroneTrajectory.drone_id traj = drone_id
  /\ Permutation ws (DroneTrajectory.waypoints traj)
  /\ Sorted not_after (DroneTrajectory.waypoints traj)
  /\ increasing (DroneTrajectory.waypoints traj)
  /\ (forall sorted,
        Permutation ws sorted -> increasing sorted ->
        sorted = DroneTrajectory.waypoints traj).
Proof.
  intros T E. destruct (init_result _ _ E) as [-> L]. cbn.
  assert (V : valid_trajectory
                (DroneTrajectory.Build drone_id (DroneTrajectory.sorted_by_timestamp ws)))
    by (exists ws; auto).
  pose proof (proj2 (proj2 (valid_waypoints V))) as I. cbn in I.
  split; [reflexivity|]. split; [apply sorted_by_timestamp_perm|].
  split; [apply sorted_by_timestamp_sorted|]. split; [exact I|].
  intros sorted P Is. apply increasing_perm_unique; [exact Is|exact I|].
  eapply Permutation_trans; [symmetry; exact P|apply sorted_by_timestamp_perm].
Qed.

Lemma init_sorts_witness :
  Forall (fun w => is_time (Waypoint.timestamp w)) (rev Example.curved_waypoints)
  /\ DroneTrajectory.__init__ "drone3" (rev Example.curved_waypoints) = Ok Example.drone3
  /\ Permutation (rev Example.curved_waypoints) (DroneTrajectory.waypoints Example.drone3)
  /\ increasing (DroneTrajectory.waypoints Example.drone3).
Proof.
  assert (T : Forall (fun w => is_time (Waypoint.timestamp w))
                     (rev Example.curved_waypoints)) by (repeat constructor).
  assert (E : DroneTrajectory.__init__ "drone3" (rev Example.curved_waypoints)
              = Ok Example.drone3) by reflexivity.
  split; [exact T|]. split; [exact E|].
  split; [exact (proj1 (proj2 (@init_sorts _ _ _ T E)))|].
  exact (proj1 (proj2 (proj2 (proj2 (@init_sorts _ _ _ T E))))).
Defined.

(** X6.  The queries of a trajectory that the constructor returned never
    fail on an index: [get_trajectory_bounds] and [interpolate_position]
    return for every argument, [sample_trajectory] returns at most
    [num_points] samples for every [num_points >= 0], and a negative
    [num_points] raises ValueError. *)
Theorem constructed_is_safe (drone_id : string) (ws : list Waypoint.t)
  (traj : DroneTrajectory.t) :
  DroneTrajectory.__init__ drone_id ws = Ok traj ->
  (exists s e, DroneTrajectory.get_trajectory_bounds traj = Ok (s, e))
  /\ (forall t, exists p, DroneTrajectory.interpolate_position traj t = Ok p)
  /\ (forall n, (0 <= n)%Z ->
        exists samples,
          DroneTrajectory.sample_trajectory traj n = Ok samples
          /\ (length samples <= Z.to_nat n)%nat)
  /\ (forall n, (n < 0)%Z ->
        DroneTrajectory.sample_trajectory traj n = Raise ValueError).
Proof.
  intros E.
  assert (C : constructed traj) by (exists drone_id, ws; exact E).
  split; [rewrite (constructed_bounds C); eauto|].
  split; [intros t; now apply constructed_position|].
  split; [intros n Hn; now apply constructed_samples|].
  intros n Hn. unfold DroneTrajectory.sample_trajectory.
  rewrite (constructed_bounds C). cbn [bind]. unfold Np.linspace.
  apply Z.ltb_lt in Hn. now rewrite Hn.
Qed.

Lemma constructed_is_safe_witness :
  DroneTrajectory.__init__ "drone1" Example.simple_waypoints = Ok Example.drone1
  /\ exists p, DroneTrajectory.interpolate_position Example.drone1 4 = Ok p.
Proof.
  assert (E : DroneTrajectory.__init__ "drone1" Example.simple_waypoints = Ok Example.drone1)
    by reflexivity.
  split; [exact E|]. exact (proj1 (proj2 (constructed_is_safe _ _ E)) 4%float).
Defined.

(** X26.  The bounds of a trajectory built from waypoints with real
    timestamps are the least and the greatest of the given timestamps,
    whatever the order the waypoints were given in, and the start is
    strictly before the end. *)
Theorem bounds_are_extremes (drone_id : string) (ws : list Waypoint.t)
  (traj : DroneTrajectory.t) :
  Forall (fun w => is_time (Waypoint.timestamp w)) ws ->
  DroneTrajectory.__init__ drone_id ws = Ok traj ->
  exists s e,
    DroneTrajectory.get_trajectory_bounds traj = Ok (s, e)
    /\ (s <? e)%float = true
    /\ In s (map Waypoint.timestamp ws) /\ In e (map Waypoint.timestamp ws)
    /\ Forall (fun w => (s <=? Waypoint.timestamp w)%float = true
                        /\ (Waypoint.timestamp w <=? e)%float = true) ws.
Proof.
  intros T E. destruct (init_result _ _ E) as [Et _].
  assert (V : valid_trajectory traj).
  { exists ws. split; [exact T|]. subst traj. exact E. }
  destruct (valid_waypoints V) as (_ & Tw & Inc).
  destruct (valid_start_le_end V) as (_ & _ & L).
  pose proof (valid_bounds V) as B.
  assert (P : Permutation ws (DroneTrajectory.waypoints traj))
    by (subst traj; apply sorted_by_timestamp_perm).
  destruct (valid_nonempty V) as (w0 & w1 & r & Ew).
  assert (Es : start_time traj = Waypoint.timestamp w0).
  { unfold start_time, DroneTrajectory.get_trajectory_bounds. now rewrite Ew. }
  assert (Ee : end_time traj = Waypoint.timestamp (last (DroneTrajectory.waypoints traj) w0)).
  { unfold end_time, DroneTrajectory.get_trajectory_bounds. now rewrite Ew. }
  exists (start_time traj), (end_time traj).
  split; [exact B|]. split; [exact L|]. split; [|split].
  - rewrite Es. apply in_map. apply (Permutation_in _ (Permutation_sym P)).
    rewrite Ew. now left.
  - rewrite Ee. apply in_map. apply (Permutation_in _ (Permutation_sym P)).
    rewrite Ew. apply last_member.
  - apply Forall_forall. intros w I. apply (Permutation_in _ P) in I.
    split.
    + rewrite Es. rewrite Ew in I, Inc, Tw.
      destruct I as [<-|I].
      * apply leb_refl. now inversion Tw.
      * inversion Inc as [|? ? _ H]; subst. rewrite Forall_forall in H.
        apply ltb_leb. now apply H.
    + rewrite Ee. now apply increasing_last.
Qed.

Lemma bounds_are_extremes_witness :
  Forall (fun w => is_time (Waypoint.timestamp w)) (rev Example.curved_waypoints)
  /\ DroneTrajectory.__init__ "drone3" (rev Example.curved_waypoints) = Ok Example.drone3
  /\ exists s e,
       DroneTrajectory.get_trajectory_bounds Example.drone3 = Ok (s, e)
       /\ (s <? e)%float = true.
Proof.
  assert (T : Forall (fun w => is_time (Waypoint.timestamp w))
                     (rev Example.curved_waypoints))
    by (repeat constructor).
  assert (E : DroneTrajectory.__init__ "drone3" (rev Example.curved_waypoints)
              = Ok Example.drone3) by reflexivity.
  split; [exact T|]. split; [exact E|].
  destruct (@bounds_are_extremes _ _ _ T E) as (s & e & B & L & _).
  exists s, e. auto.
Defined.

(* ================================================================== *)
(** * Further facts: interpolated positions and samples *)
(* ================================================================== *)

Section Segments.

Local Open Scope float_scope.

(** The scan answers with the blend over the first pair of neighbours that
    brackets the timestamp. *)
Lemma scan_segment (ws : list Waypoint.t) (t : float) (p : Waypoint.t) :
  increasing ws -> DroneTrajectory.scan ws t = Some p ->
  exists k w1 w2,
    nth_error ws k = Some w1 /\ nth_error ws (S k) = Some w2
    /\ (Waypoint.timestamp w1 <=? t) = true /\ (t <=? Waypoint.timestamp w2) = true
    /\ p = DroneTrajectory.blend w1 w2 t.
Proof.
  induction ws as [|a l IH]; intros I H; [discriminate|].
  destruct l as [|b r]; [discriminate|].
  inversion I as [|? ? I' F]; subst. inversion F as [|? ? Lab _]; subst.
  cbn [DroneTrajectory.scan] in H.
  destruct ((Waypoint.timestamp a <=? t) && (t <=? Waypoint.timestamp b)) eqn:C.
  - rewrite (ltb_neq Lab) in H. injection H as <-.
    apply andb_true_iff in C as [C1 C2]. exists 0%nat, a, b. auto.
  - destruct (IH I' H) as (k & w1 & w2 & H1 & H2 & L1 & L2 & E).
    exists (S k), w1, w2. auto.
Qed.

(** The position that [interpolate_position] returns for a valid
    trajectory is the answer of the scan. *)
Lemma interpolate_segment (traj : DroneTrajectory.t) (t : float) (p : Waypoint.t) :
  valid_trajectory traj ->
  DroneTrajectory.interpolate_position traj t = Ok (Some p) ->
  exists k w1 w2,
    nth_error (DroneTrajectory.waypoints traj) k = Some w1
    /\ nth_error (DroneTrajectory.waypoints traj) (S k) = Some w2
    /\ (Waypoint.timestamp w1 <=? t) = true /\ (t <=? Waypoint.timestamp w2) = true
    /\ p = DroneTrajectory.blend w1 w2 t.
Proof.
  intros V E. destruct (valid_waypoints V) as (_ & _ & I).
  unfold DroneTrajectory.interpolate_position in E.
  destruct (DroneTrajectory.waypoints traj) as [|w0 r] eqn:Ew; [discriminate|].
  remember (DroneTrajectory.scan (w0 :: r) t) as s eqn:Es.
  destruct (_ || _); [discriminate|]. injection E as ->. symmetry in Es.
  exact (scan_segment t I Es).
Qed.

(** A coordinate that does not change over a segment: the blend returns it,
    or NaN when the fraction is not finite. *)
Lemma level_coordinate (c f : float) :
  is_finite c = true ->
  (c + f * (c - c) =? c) = true \/ is_nan (c + f * (c - c)) = true.
Proof.
  intros F. pose proof (sub_self c F) as Z.
  rewrite is_finite_spec in F.
  rewrite is_nan_key. unfold FloatKey.key.
  rewrite FloatAxioms.eqb_spec, add_spec, mul_spec, Z.
  destruct (Prim2SF c) as [sc|sc| |sc mc ec]; try discriminate;
    destruct (Prim2SF f) as [sf|sf| |sf mf ef]; cbn; auto.
  - destruct sc, sf; cbn; auto.
  - destruct sc, sf; cbn; auto.
  - left. rewrite Z.compare_refl.
    change (PosDef.Pos.compare_cont Eq mc mc) with (Pos.compare mc mc).
    rewrite Pos.compare_refl. now destruct sc.
  - left. rewrite Z.compare_refl.
    change (PosDef.Pos.compare_cont Eq mc mc) with (Pos.compare mc mc).
    rewrite Pos.compare_refl. now destruct sc.
Qed.

Lemma level_coordinate_finite (c f : float) :
  is_finite c = true -> is_finite f = true -> (c + f * (c - c) =? c) = true.
Proof.
  intros Fc Ff. pose proof (sub_self c Fc) as Z.
  rewrite is_finite_spec in Fc, Ff.
  rewrite FloatAxioms.eqb_spec, add_spec, mul_spec, Z.
  destruct (Prim2SF c) as [sc|sc| |sc mc ec]; try discriminate;
    destruct (Prim2SF f) as [sf|sf| |sf mf ef]; try discriminate; cbn.
  - now destruct sc, sf.
  - now destruct sc, sf.
  - rewrite Z.compare_refl.
    change (PosDef.Pos.compare_cont Eq mc mc) with (Pos.compare mc mc).
    rewrite Pos.compare_refl. now destruct sc.
  - rewrite Z.compare_refl.
    change (PosDef.Pos.compare_cont Eq mc mc) with (Pos.compare mc mc).
    rewrite Pos.compare_refl. now destruct sc.
Qed.

End Segments.

(** X7.  For a valid trajectory, a position returned by
    [interpolate_position] is stamped with exactly the time asked for, that
    time lies within the trajectory's bounds, and the position is the
    linear blend over two neighbouring waypoints, the first strictly
    earlier than the second, whose timestamps bracket the time. *)
Theorem interpolate_is_blend (traj : DroneTrajectory.t) (t : float) (p : Waypoint.t) :
  valid_trajectory traj ->
  DroneTrajectory.interpolate_position traj t = Ok (Some p) ->
  Waypoint.timestamp p = t
  /\ in_bounds (start_time traj) (end_time traj) t = true
  /\ exists k w1 w2,
       nth_error (DroneTrajectory.waypoints traj) k = Some w1
       /\ nth_error (DroneTrajectory.waypoints traj) (S k) = Some w2
       /\ (Waypoint.timestamp w1 <=? t)%float = true
       /\ (t <=? Waypoint.timestamp w2)%float = true
       /\ (Waypoint.timestamp w1 <? Waypoint.timestamp w2)%float = true
       /\ p = DroneTrajectory.blend w1 w2 t.
Proof.
  intros V E. destruct (valid_waypoints V) as (_ & _ & I).
  pose proof (@position_at_in_bounds traj t V) as B.
  unfold position_at in B. rewrite E in B. destruct B as [Ts B].
  split; [exact Ts|]. split; [exact B|].
  destruct (@interpolate_segment _ _ _ V E) as (k & w1 & w2 & H1 & H2 & L1 & L2 & Ep).
  exists k, w1, w2. repeat split; try assumption.
  exact (increasing_neighbours k I H1 H2).
Qed.

Lemma interpolate_is_blend_witness :
  valid_trajectory Example.drone3
  /\ DroneTrajectory.interpolate_position Example.drone3 7.5
     = Ok (Some (Waypoint.Build 75 37.5 87.5 7.5))
  /\ Waypoint.timestamp (Waypoint.Build 75 37.5 87.5 7.5) = 7.5%float.
Proof.
  assert (E : DroneTrajectory.interpolate_position Example.drone3 7.5
              = Ok (Some (Waypoint.Build 75 37.5 87.5 7.5))) by reflexivity.
  split; [exact drone3_valid|]. split; [exact E|].
  exact (proj1 (@interpolate_is_blend _ _ _ drone3_valid E)).
Defined.

(** X8.  Level flight: when all waypoints of a valid trajectory have the
    same finite altitude, every interpolated position has an altitude [==]
    to it, or NaN; it is [==] to it whenever the fraction of the segment the
    position is blended over is a finite float. *)
Theorem level_flight (traj : DroneTrajectory.t) (t altitude : float) (p : Waypoint.t) :
  valid_trajectory traj ->
  is_finite altitude = true ->
  Forall (fun w => Waypoint.z w = altitude) (DroneTrajectory.waypoints traj) ->
  DroneTrajectory.interpolate_position traj t = Ok (Some p) ->
  ((Waypoint.z p =? altitude)%float = true \/ is_nan (Waypoint.z p) = true)
  /\ (forall k w1 w2,
        nth_error (DroneTrajectory.waypoints traj) k = Some w1 ->
        nth_error (DroneTrajectory.waypoints traj) (S k) = Some w2 ->
        p = DroneTrajectory.blend w1 w2 t ->
        is_finite ((t - Waypoint.timestamp w1)
                   / (Waypoint.timestamp w2 - Waypoint.timestamp w1))%float = true ->
        (Waypoint.z p =? altitude)%float = true).
Proof.
  intros V F A E. rewrite Forall_forall in A.
  assert (Z : forall k w, nth_error (DroneTrajectory.waypoints traj) k = Some w ->
                Waypoint.z w = altitude)
    by (intros k w H; apply A; eapply nth_error_In; exact H).
  split.
  - destruct (@interpolate_segment _ _ _ V E) as (k & w1 & w2 & H1 & H2 & _ & _ & ->).
    cbn. rewrite (Z _ _ H1), (Z _ _ H2). now apply level_coordinate.
  - intros k w1 w2 H1 H2 -> Ff. cbn. rewrite (Z _ _ H1), (Z _ _ H2).
    now apply level_coordinate_finite.
Qed.

Lemma level_flight_witness :
  valid_trajectory Example.drone1
  /\ is_finite 100 = true
  /\ Forall (fun w => Waypoint.z w = 100%float) (DroneTrajectory.waypoints Example.drone1)
  /\ exists p,
       DroneTrajectory.interpolate_position Example.drone1 0x1.d99999999999ap+1
       = Ok (Some p)
       /\ ((Waypoint.z p =? 100)%float = true \/ is_nan (Waypoint.z p) = true).
Proof.
  assert (F : is_finite 100 = true) by reflexivity.
  assert (A : Forall (fun w => Waypoint.z w = 100%float)
                     (DroneTrajectory.waypoints Example.drone1))
    by (repeat constructor).
  split; [exact drone1_valid|]. split; [exact F|]. split; [exact A|].
  destruct (DroneTrajectory.interpolate_position Example.drone1 0x1.d99999999999ap+1)
    as [[p|]|e] eqn:E; [|vm_compute in E; discriminate E..].
  exists p. split; [reflexivity|].
  exact (proj1 (@level_flight Example.drone1 0x1.d99999999999ap+1 100 p
                  drone1_valid F A E)).
Defined.

(** X9.  Every sample that [sample_trajectory] returns for a valid
    trajectory is the position of the trajectory at the sample's own
    timestamp, and that timestamp lies within the trajectory's bounds. *)
Theorem samples_on_trajectory (traj : DroneTrajectory.t) (num_points : Z)
  (samples : list Waypoint.t) :
  valid_trajectory traj ->
  DroneTrajectory.sample_trajectory traj num_points = Ok samples ->
  Forall (fun p =>
            DroneTrajectory.interpolate_position traj (Waypoint.timestamp p) = Ok (Some p)
            /\ in_bounds (start_time traj) (end_time traj) (Waypoint.timestamp p) = true)
         samples.
Proof.
  intros V. destruct (valid_nonempty V) as (w0 & w1 & r & Ew).
  unfold DroneTrajectory.sample_trajectory. rewrite (valid_bounds V). cbn [bind].
  destruct (Np.linspace (start_time traj) (end_time traj) num_points) as [grid|e];
    [|discriminate].
  cbn [bind]. rewrite sample_at_ok by (rewrite Ew; discriminate).
  intros [= <-]. apply Forall_forall. intros p I.
  apply in_flat_map in I as (t & _ & I).
  pose proof (@position_at_in_bounds traj t V) as B.
  destruct (position_at traj t) as [q|] eqn:Eq; [|contradiction].
  destruct I as [<-|[]]. destruct B as [Tq B]. rewrite Tq. split; [|exact B].
  unfold position_at in Eq.
  destruct (DroneTrajectory.interpolate_position traj t) as [[q'|]|e];
    try discriminate.
  now injection Eq as ->.
Qed.

Lemma samples_on_trajectory_witness :
  valid_trajectory Example.drone3
  /\ exists samples,
       DroneTrajectory.sample_trajectory Example.drone3 5 = Ok samples
       /\ Forall (fun p =>
                    DroneTrajectory.interpolate_position Example.drone3
                      (Waypoint.timestamp p) = Ok (Some p)
                    /\ in_bounds (start_time Example.drone3) (end_time Example.drone3)
                         (Waypoint.timestamp p) = true)
                 samples.
Proof.
  split; [exact drone3_valid|].
  destruct (DroneTrajectory.sample_trajectory Example.drone3 5) as [samples|e] eqn:E;
    [|vm_compute in E; discriminate E].
  exists samples. split; [reflexivity|].
  exact (@samples_on_trajectory Example.drone3 5 samples drone3_valid E).
Defined.

(* ================================================================== *)
(** * Further facts: what the detectors emit *)
(* ================================================================== *)

Lemma for_each_Forall {A B : Type} (P : B -> Prop) (l : list A)
  (body : A -> result (list B)) (out : list B) :
  (forall a o, In a l -> body a = Ok o -> Forall P o) ->
  for_each l body = Ok out -> Forall P out.
Proof.
  revert out. induction l as [|a r IH]; intros out H E; cbn [for_each] in E.
  - injection E as <-. constructor.
  - destruct (body a) as [o|e] eqn:Eo; [|discriminate]. cbn [bind] in E.
    destruct (for_each r body) as [rest|e] eqn:Er; [|discriminate]. cbn [bind] in E.
    injection E as <-. apply Forall_app. split.
    + apply (H a); [now left|exact Eo].
    + apply IH; [|reflexivity]. intros a' o' I. apply H. now right.
Qed.

Lemma unordered_pairs_distinct {A B : Type} (f : A -> B) (l : list A) (a b : A) :
  NoDup (map f l) -> In (a, b) (unordered_pairs l) -> f a <> f b.
Proof.
  induction l as [|h r IH]; [intros _ []|].
  cbn [map unordered_pairs]. intros N I. apply NoDup_cons_iff in N as [Nh Nr].
  apply in_app_or in I as [I|I]; [|now apply IH].
  apply in_map_iff in I as (b' & E & I). injection E as <- <-.
  intros E. apply Nh. rewrite E. now apply in_map.
Qed.

Section DetectorOutput.

Context {libm : Libm}.

Local Open Scope float_scope.

(** What the positions dictionary holds at a timestamp: each drone ID once,
    with a position interpolated from a trajectory of that ID. *)
Lemma positions_at_invariant (trajectories all : list DroneTrajectory.t) (t : float)
  (positions out : list (string * Waypoint.t)) :
  incl trajectories all ->
  NoDup (Dict.keys positions) ->
  Forall (fun kp => exists traj, In traj all /\ DroneTrajectory.drone_id traj = fst kp
                    /\ DroneTrajectory.interpolate_position traj t = Ok (Some (snd kp)))
         positions ->
  positions_at trajectories t positions = Ok out ->
  NoDup (Dict.keys out)
  /\ Forall (fun kp => exists traj, In traj all /\ DroneTrajectory.drone_id traj = fst kp
                       /\ DroneTrajectory.interpolate_position traj t = Ok (Some (snd kp)))
            out.
Proof.
  revert positions. induction trajectories as [|traj r IH]; intros positions I N F E;
    cbn [positions_at] in E.
  - injection E as <-. auto.
  - destruct (DroneTrajectory.interpolate_position traj t) as [pos|e] eqn:Ep; [|discriminate].
    cbn [bind] in E. apply IH in E; [exact E|..].
    + intros x Hx. apply I. now right.
    + destruct pos; [now apply dict_set_nodup|exact N].
    + destruct pos as [p|]; [|exact F]. apply dict_set_forall; [exact F|].
      exists traj. cbn [fst snd]. split; [apply I; now left|auto].
Qed.

Lemma spatial_conflicts_sound (trajectories : list DroneTrajectory.t)
  (min_separation time_resolution : float) (conflicts : list Conflict.t) :
  detect_spatial_conflicts trajectories min_separation time_resolution = Ok conflicts ->
  Forall (spatial_sound trajectories min_separation) conflicts.
Proof.
  unfold detect_spatial_conflicts.
  destruct (length trajectories <? 2)%nat; [intros E; injection E as <-; constructor|].
  destruct (map_result _ trajectories) as [starts|e]; [|discriminate]. cbn [bind].
  destruct (map_result _ trajectories) as [ends|e]; [|discriminate]. cbn [bind].
  destruct (Py.max starts) as [gs|e]; [|discriminate]. cbn [bind].
  destruct (Py.min ends) as [ge|e]; [|discriminate]. cbn [bind].
  destruct (ge <=? gs); [intros E; injection E as <-; constructor|].
  destruct (time_samples gs ge time_resolution) as [samples|e]; [|discriminate].
  cbn [bind]. apply for_each_Forall. intros t o _.
  destruct (positions_at trajectories t []) as [positions|e] eqn:Ep; [|discriminate].
  cbn [bind]. apply positions_at_invariant with (all := trajectories) in Ep as [N F];
    [|apply incl_refl|constructor|constructor].
  rewrite (@check_pairs_spec _ positions t min_separation N). intros E. injection E as <-.
  apply Forall_forall. intros c I. apply in_flat_map in I as ([[k1 p1] [k2 p2]] & I & Hc).
  unfold spec_spatial_pair in Hc. cbn zeta in Hc.
  destruct (euclidean p1 p2 <? min_separation) eqn:D; [|contradiction].
  destruct Hc as [<-|[]].
  pose proof (@unordered_pairs_distinct _ _ fst _ _ _ N I) as Nk.
  apply in_unordered_pairs in I as [I1 I2].
  rewrite Forall_forall in F.
  unfold spatial_sound. cbn [Conflict.conflict_type Conflict.drone1_id Conflict.drone2_id
    Conflict.timestamp Conflict.position1 Conflict.position2 Conflict.distance
    Conflict.severity].
  split; [reflexivity|]. split; [exact Nk|].
  split; [exact (F _ I1)|]. split; [exact (F _ I2)|].
  split; [apply distance_to_float64|]. split; [exact D|reflexivity].
Qed.

Lemma temporal_conflicts_sound (trajectories : list DroneTrajectory.t)
  (time_window min_separation : float) (conflicts : list Conflict.t) :
  detect_temporal_conflicts trajectories time_window min_separation = Ok conflicts ->
  Forall (temporal_sound trajectories time_window min_separation) conflicts.
Proof.
  unfold detect_temporal_conflicts. apply for_each_Forall. intros i o _.
  apply for_each_Forall. intros j o' Ij.
  unfold range in Ij. apply in_seq in Ij.
  unfold getitem.
  destruct (nth_error trajectories i) as [a|] eqn:Ea; [|discriminate]. cbn [bind].
  destruct (nth_error trajectories j) as [b|] eqn:Eb; [|discriminate]. cbn [bind].
  destruct (DroneTrajectory.sample_trajectory a 50) as [s1|e] eqn:E1; [|discriminate].
  cbn [bind].
  destruct (DroneTrajectory.sample_trajectory b 50) as [s2|e] eqn:E2; [|discriminate].
  cbn [bind]. apply for_each_Forall. intros p1 o1 I1.
  apply for_each_Forall. intros p2 o2 I2.
  unfold temporal_check. rewrite distance_to_float64. cbn [bind].
  destruct (euclidean p1 p2 <? min_separation) eqn:D;
    [|intros [= <-]; constructor].
  destruct (0 <? abs (Waypoint.timestamp p1 - Waypoint.timestamp p2)) eqn:P;
    [|intros [= <-]; constructor].
  destruct (abs (Waypoint.timestamp p1 - Waypoint.timestamp p2) <=? time_window) eqn:W;
    [|intros [= <-]; constructor].
  cbn [andb]. intros [= <-]. constructor; [|constructor].
  unfold temporal_sound, time_diff.
  cbn [Conflict.conflict_type Conflict.drone1_id Conflict.drone2_id
    Conflict.timestamp Conflict.position1 Conflict.position2 Conflict.distance
    Conflict.severity].
  split; [reflexivity|]. split; [|split; [apply distance_to_float64|auto 10]].
  exists i, j, a, b, s1, s2. repeat split; auto. lia.
Qed.

Lemma finite_eqb (s1 s2 : bool) (m1 m2 : positive) (e1 e2 : Z) :
  SFeqb (S754_finite s1 m1 e1) (S754_finite s2 m2 e2) = true ->
  s1 = s2 /\ m1 = m2 /\ e1 = e2.
Proof.
  unfold SFeqb, SFcompare.
  destruct s1, s2; try discriminate;
    destruct (e1 ?= e2)%Z eqn:Ee; try discriminate;
    destruct (Pos.compare_cont Eq m1 m2) eqn:Em; try discriminate;
    intros _; apply Z.compare_eq in Ee; apply Pos.compare_eq in Em; auto.
Qed.

(** A difference with a positive absolute value is a difference of two
    numbers that are not [==]. *)
Lemma abs_sub_positive (a b : float) :
  (0 <? abs (a - b)) = true -> is_time a /\ is_time b /\ (a =? b) = false.
Proof.
  unfold is_time. rewrite !is_nan_key. unfold FloatKey.key.
  rewrite FloatAxioms.ltb_spec, abs_spec, sub_spec, FloatAxioms.eqb_spec.
  unfold SF64sub. change (Prim2SF 0) with (S754_zero false).
  destruct (Prim2SF a) as [sa|sa| |sa ma ea], (Prim2SF b) as [sb|sb| |sb mb eb];
    cbn [SFsub SFabs FloatKey.of_spec].
  16: { intros H. split; [destruct sa; reflexivity|]. split; [destruct sb; reflexivity|].
        destruct (SFeqb (S754_finite sa ma ea) (S754_finite sb mb eb)) eqn:E; [|reflexivity].
        apply finite_eqb in E as (-> & -> & ->). exfalso. revert H.
        rewrite Z.sub_diag. discriminate. }
  all: try destruct sa; try destruct sb; try discriminate;
    intros _; repeat split; reflexivity.
Qed.

Lemma min2_least (a b : float) :
  is_time a -> is_time b ->
  (Py.min2 a b <=? a) = true /\ (Py.min2 a b <=? b) = true /\ is_time (Py.min2 a b).
Proof.
  intros Ta Tb. unfold Py.min2. destruct (b <? a) eqn:L.
  - repeat split; [now apply ltb_leb|now apply leb_refl|exact Tb].
  - repeat split; [now apply leb_refl|now apply ltb_false_leb|exact Ta].
Qed.

Lemma ltb_below (d m z : float) :
  is_time z -> (d <? m) = true -> (z <? m) = false -> (d <? z) = true.
Proof. intros Z A B. float_keys. Qed.

Lemma ltb_leb_trans (a b c : float) :
  (a <? b) = true -> (b <=? c) = true -> (a <? c) = true.
Proof. intros A B. float_keys. Qed.

Lemma below_nonpositive (d m : float) :
  (d <? m) = true -> (0 <? m) = false -> (d <? 0) = true.
Proof. now apply ltb_below. Qed.

Lemma spatial_severity_recognized (d m : float) : recognized (spatial_severity d m).
Proof.
  unfold spatial_severity, recognized.
  destruct (d <? m * lit_0_3); [auto|]. destruct (d <? m * lit_0_6); auto.
Qed.

Lemma detectors_recognized (trajectories : list DroneTrajectory.t)
  (min_separation time_resolution time_window temporal_separation : float)
  (spatial temporal : list Conflict.t) :
  detect_spatial_conflicts trajectories min_separation time_resolution = Ok spatial ->
  detect_temporal_conflicts trajectories time_window temporal_separation = Ok temporal ->
  Forall (fun c => recognized (Conflict.severity c)) (spatial ++ temporal).
Proof.
  intros Es Et. apply Forall_app. split.
  - apply spatial_conflicts_sound in Es. eapply Forall_impl; [|exact Es].
    intros c (_ & _ & _ & _ & _ & _ & ->). apply spatial_severity_recognized.
  - apply temporal_conflicts_sound in Et. eapply Forall_impl; [|exact Et].
    intros c (_ & _ & _ & _ & _ & _ & _ & ->). unfold recognized.
    destruct (_ <? _); auto.
Qed.

Lemma constructed_all_bounds (trajectories : list DroneTrajectory.t) :
  Forall constructed trajectories ->
  map_result (fun traj => ' (s, _) <- DroneTrajectory.get_trajectory_bounds traj ;; Ok s)
             trajectories
  = Ok (map start_time trajectories)
  /\ map_result (fun traj => ' (_, e) <- DroneTrajectory.get_trajectory_bounds traj ;; Ok e)
                trajectories
     = Ok (map end_time trajectories).
Proof.
  induction 1 as [|traj r C _ [IH1 IH2]]; [split; reflexivity|].
  cbn [map_result map]. rewrite (constructed_bounds C), IH1, IH2. split; reflexivity.
Qed.

Lemma positions_at_total (trajectories : list DroneTrajectory.t) (t : float)
  (positions : list (string * Waypoint.t)) :
  Forall constructed trajectories ->
  exists out, positions_at trajectories t positions = Ok out.
Proof.
  intros F. revert positions. induction F as [|traj r C _ IH]; intros positions;
    cbn [positions_at]; [eauto|].
  destruct (constructed_position t C) as [p ->]. cbn [bind]. apply IH.
Qed.

Lemma time_samples_failure (global_start global_end time_resolution : float) (e : exn) :
  time_samples global_start global_end time_resolution = Raise e ->
  (e = ZeroDivisionError /\ (time_resolution =? 0) = true)
  \/ (e = ValueError /\ (time_resolution =? 0) = false)
  \/ (e = OverflowError /\ (time_resolution =? 0) = false).
Proof.
  unfold time_samples, Py.truediv.
  destruct (time_resolution =? 0) eqn:Z; cbn [bind]; [intros [= <-]; auto|].
  destruct (Py.int ((global_end - global_start) / time_resolution)) as [n|e'] eqn:En;
    cbn [bind].
  - unfold Np.linspace. destruct (n + 1 <? 0)%Z; [|discriminate]. intros [= <-]. auto.
  - intros [= <-]. unfold Py.int in En.
    destruct (Prim2SF _); try discriminate; injection En as <-; auto.
Qed.

End DetectorOutput.

(** X10.  Whatever the trajectories, every conflict that the spatial
    detector returns has type 'spatial', names two different drone IDs,
    holds for each of them the position that a trajectory of that ID has at
    the conflict's timestamp, records the distance between these two
    positions, which is below [min_separation] and not negative, and has
    the severity that the thresholds give to this distance, one of the
    three levels. *)
Theorem spatial_output_sound {libm : Libm} (trajectories : list DroneTrajectory.t)
  (min_separation time_resolution : float) (conflicts : list Conflict.t) (c : Conflict.t) :
  detect_spatial_conflicts trajectories min_separation time_resolution = Ok conflicts ->
  In c conflicts ->
  Conflict.conflict_type c = "spatial"%string
  /\ Conflict.drone1_id c <> Conflict.drone2_id c
  /\ (exists a b,
        In a trajectories /\ In b trajectories
        /\ DroneTrajectory.drone_id a = Conflict.drone1_id c
        /\ DroneTrajectory.drone_id b = Conflict.drone2_id c
        /\ DroneTrajectory.interpolate_position a (Conflict.timestamp c)
           = Ok (Some (Conflict.position1 c))
        /\ DroneTrajectory.interpolate_position b (Conflict.timestamp c)
           = Ok (Some (Conflict.position2 c)))
  /\ Waypoint.distance_to Py.numpy_float64 (Conflict.position1 c) (Conflict.position2 c)
     = Ok (Conflict.distance c)
  /\ (Conflict.distance c <? min_separation)%float = true
  /\ (Conflict.distance c <? 0)%float = false
  /\ Conflict.severity c = spatial_severity (Conflict.distance c) min_separation
  /\ recognized (Conflict.severity c).
Proof.
  intros E I. apply spatial_conflicts_sound in E. rewrite Forall_forall in E.
  destruct (E c I) as (Ht & Hn & (a & Ia & Ea & Pa) & (b & Ib & Eb & Pb) & Hd & Hm & Hs).
  split; [exact Ht|]. split; [exact Hn|]. split; [exists a, b; auto 10|].
  split; [exact Hd|]. split; [exact Hm|].
  split; [exact (distance_not_negative _ _ _ Hd)|].
  split; [exact Hs|]. rewrite Hs. apply spatial_severity_recognized.
Qed.

Lemma spatial_output_sound_witness :
  exists conflicts c,
    detect_spatial_conflicts (libm := Example.products)
      [Example.drone1; Example.drone2] 100 1 = Ok conflicts
    /\ In c conflicts
    /\ Conflict.drone1_id c <> Conflict.drone2_id c
    /\ (Conflict.distance c <? 100)%float = true.
Proof.
  destruct (detect_spatial_conflicts (libm := Example.products)
    [Example.drone1; Example.drone2] 100 1)
    as [[|c r]|e] eqn:E; [vm_compute in E; discriminate E| |vm_compute in E; discriminate E].
  exists (c :: r), c.
  assert (I : In c (c :: r)) by now left.
  split; [reflexivity|]. split; [exact I|].
  destruct (@spatial_output_sound _ _ _ _ _ c E I) as (_ & Hn & _ & _ & Hm & _).
  auto.
Defined.

(** X11.  For valid trajectories, a spatial conflict is reported at a time
    at which both drones are in flight: its timestamp lies within the bounds
    of a trajectory of each of the two IDs, and both positions are stamped
    with exactly the conflict's timestamp. *)
Theorem spatial_conflict_in_flight {libm : Libm} (trajectories : list DroneTrajectory.t)
  (min_separation time_resolution : float) (conflicts : list Conflict.t) (c : Conflict.t) :
  Forall valid_trajectory trajectories ->
  detect_spatial_conflicts trajectories min_separation time_resolution = Ok conflicts ->
  In c conflicts ->
  Waypoint.timestamp (Conflict.position1 c) = Conflict.timestamp c
  /\ Waypoint.timestamp (Conflict.position2 c) = Conflict.timestamp c
  /\ exists a b,
       In a trajectories /\ In b trajectories
       /\ DroneTrajectory.drone_id a = Conflict.drone1_id c
       /\ DroneTrajectory.drone_id b = Conflict.drone2_id c
       /\ in_bounds (start_time a) (end_time a) (Conflict.timestamp c) = true
       /\ in_bounds (start_time b) (end_time b) (Conflict.timestamp c) = true.
Proof.
  intros V E I. apply spatial_conflicts_sound in E. rewrite Forall_forall in E, V.
  destruct (E c I) as (_ & _ & (a & Ia & Ea & Pa) & (b & Ib & Eb & Pb) & _).
  pose proof (@position_at_in_bounds a (Conflict.timestamp c) (V a Ia)) as Ba.
  pose proof (@position_at_in_bounds b (Conflict.timestamp c) (V b Ib)) as Bb.
  unfold position_at in Ba, Bb. rewrite Pa in Ba. rewrite Pb in Bb.
  destruct Ba as [Ta Ba], Bb as [Tb Bb].
  split; [exact Ta|]. split; [exact Tb|]. exists a, b. auto 10.
Qed.

Lemma spatial_conflict_in_flight_witness :
  Forall valid_trajectory [Example.drone1; Example.drone2]
  /\ exists conflicts c,
       detect_spatial_conflicts (libm := Example.products)
         [Example.drone1; Example.drone2] 100 1 = Ok conflicts
       /\ In c conflicts
       /\ Waypoint.timestamp (Conflict.position1 c) = Conflict.timestamp c
       /\ Waypoint.timestamp (Conflict.position2 c) = Conflict.timestamp c.
Proof.
  assert (V : Forall valid_trajectory [Example.drone1; Example.drone2])
    by (repeat constructor; [exact drone1_valid|exact drone2_valid]).
  split; [exact V|].
  destruct (detect_spatial_conflicts (libm := Example.products)
    [Example.drone1; Example.drone2] 100 1)
    as [[|c r]|e] eqn:E; [vm_compute in E; discriminate E| |vm_compute in E; discriminate E].
  exists (c :: r), c.
  assert (I : In c (c :: r)) by now left.
  split; [reflexivity|]. split; [exact I|].
  destruct (@spatial_conflict_in_flight _ _ _ _ _ c V E I) as (T1 & T2 & _). auto.
Defined.

(** X12.  The sample times of the spatial detector: a time resolution [==]
    0 raises ZeroDivisionError; when the samples are returned there are
    [int((global_end - global_start) / time_resolution) + 1] of them, and
    with two samples or more the last one is [global_end] itself; any other
    failure is the ValueError or OverflowError of [int] on a quotient that
    is not finite, or the ValueError of a negative number of samples (the
    memory a large number of samples takes is not modelled). *)
Theorem time_samples_outcomes (global_start global_end time_resolution : float) :
  ((time_resolution =? 0)%float = true ->
   time_samples global_start global_end time_resolution = Raise ZeroDivisionError)
  /\ (forall samples,
        time_samples global_start global_end time_resolution = Ok samples ->
        exists n,
          Py.int ((global_end - global_start) / time_resolution)%float = Ok n
          /\ (-1 <= n)%Z
          /\ length samples = Z.to_nat (n + 1)
          /\ ((1 <= n)%Z -> exists front, samples = front ++ [global_end]))
  /\ (forall e,
        time_samples global_start global_end time_resolution = Raise e ->
        (e = ZeroDivisionError /\ (time_resolution =? 0)%float = true)
        \/ (e = ValueError /\ (time_resolution =? 0)%float = false)
        \/ (e = OverflowError /\ (time_resolution =? 0)%float = false)).
Proof.
  split; [|split; [|apply time_samples_failure]].
  - intros Z. unfold time_samples, Py.truediv. now rewrite Z.
  - unfold time_samples, Py.truediv.
    destruct (time_resolution =? 0)%float; cbn [bind]; [discriminate|].
    destruct (Py.int ((global_end - global_start) / time_resolution)) as [n|e] eqn:En;
      cbn [bind]; [|discriminate].
    destruct (Z.le_gt_cases (-1) n) as [L|L].
    + destruct (@linspace_ok global_start global_end (n + 1)) as (grid & Eg & Lg); [lia|].
      rewrite Eg. intros samples [= <-].
      exists n. split; [reflexivity|]. split; [exact L|]. split; [exact Lg|].
      intros Hn. apply (@linspace_last global_start global_end (n + 1)); [lia|exact Eg].
    + unfold Np.linspace.
      replace (n + 1 <? 0)%Z with true by (symmetry; apply Z.ltb_lt; lia).
      discriminate.
Qed.

(** X13.  Whatever the trajectories, every conflict that the temporal
    detector returns has type 'temporal', carries the IDs of two
    trajectories in their order in the input, and records the distance of
    its two positions, which is below [min_separation]; the timestamps of
    the two positions are real numbers that are not [==], their absolute
    difference is positive and at most [time_window]; the conflict is
    stamped with one of the two, not later than either; its severity is
    'high' or 'medium'. *)
Theorem temporal_output_sound {libm : Libm} (trajectories : list DroneTrajectory.t)
  (time_window min_separation : float) (conflicts : list Conflict.t) (c : Conflict.t) :
  detect_temporal_conflicts trajectories time_window min_separation = Ok conflicts ->
  In c conflicts ->
  let t1 := Waypoint.timestamp (Conflict.position1 c) in
  let t2 := Waypoint.timestamp (Conflict.position2 c) in
  Conflict.conflict_type c = "temporal"%string
  /\ (exists i j a b,
        (i < j)%nat
        /\ nth_error trajectories i = Some a /\ nth_error trajectories j = Some b
        /\ Conflict.drone1_id c = DroneTrajectory.drone_id a
        /\ Conflict.drone2_id c = DroneTrajectory.drone_id b)
  /\ Waypoint.distance_to Py.numpy_float64 (Conflict.position1 c) (Conflict.position2 c)
     = Ok (Conflict.distance c)
  /\ (Conflict.distance c <? min_separation)%float = true
  /\ (0 <? abs (t1 - t2))%float = true /\ (abs (t1 - t2) <=? time_window)%float = true
  /\ is_time t1 /\ is_time t2 /\ (t1 =? t2)%float = false
  /\ (Conflict.timestamp c = t1 \/ Conflict.timestamp c = t2)
  /\ (Conflict.timestamp c <=? t1)%float = true
  /\ (Conflict.timestamp c <=? t2)%float = true
  /\ (Conflict.severity c = "high"%string \/ Conflict.severity c = "medium"%string).
Proof.
  intros E I t1 t2. apply temporal_conflicts_sound in E. rewrite Forall_forall in E.
  destruct (E c I) as (Ht & (i & j & a & b & s1 & s2 & Hij & Ea & Eb & Ia & Ib & _)
                       & Hd & Hm & Hp & Hw & Hts & Hs).
  unfold time_diff in Hp, Hw, Hs. fold t1 t2 in Hp, Hw, Hs, Hts.
  destruct (@abs_sub_positive t1 t2 Hp) as (T1 & T2 & N).
  destruct (min2_least T1 T2) as (L1 & L2 & _).
  split; [exact Ht|]. split; [exists i, j, a, b; auto|].
  split; [exact Hd|]. split; [exact Hm|]. split; [exact Hp|]. split; [exact Hw|].
  split; [exact T1|]. split; [exact T2|]. split; [exact N|].
  rewrite Hts. split; [unfold Py.min2; destruct (t2 <? t1)%float; auto|].
  split; [exact L1|]. split; [exact L2|].
  rewrite Hs. destruct (abs (t1 - t2) <? time_window * lit_0_3)%float;
    [left|right]; reflexivity.
Qed.

Lemma temporal_output_sound_witness :
  exists conflicts c,
    detect_temporal_conflicts (libm := Example.products)
      [Example.drone1; Example.drone_offset] 10 50 = Ok conflicts
    /\ In c conflicts
    /\ (Waypoint.timestamp (Conflict.position1 c)
        =? Waypoint.timestamp (Conflict.position2 c))%float = false
    /\ (Conflict.timestamp c <=? Waypoint.timestamp (Conflict.position1 c))%float = true.
Proof.
  destruct (detect_temporal_conflicts (libm := Example.products)
    [Example.drone1; Example.drone_offset] 10 50)
    as [[|c r]|e] eqn:E; [vm_compute in E; discriminate E| |vm_compute in E; discriminate E].
  exists (c :: r), c.
  assert (I : In c (c :: r)) by now left.
  split; [reflexivity|]. split; [exact I|].
  destruct (@temporal_output_sound _ _ _ _ _ c E I)
    as (_ & _ & _ & _ & _ & _ & _ & _ & N & _ & L & _).
  auto.
Defined.

(** X14.  With a [min_separation] that is not positive (zero, negative or
    NaN) neither detector reports a conflict: a distance is never below
    it. *)
Theorem no_conflict_without_separation {libm : Libm} (trajectories : list DroneTrajectory.t)
  (min_separation time_resolution time_window : float) :
  (0 <? min_separation)%float = false ->
  (forall conflicts,
      detect_spatial_conflicts trajectories min_separation time_resolution = Ok conflicts ->
      conflicts = [])
  /\ (forall conflicts,
        detect_temporal_conflicts trajectories time_window min_separation = Ok conflicts ->
        conflicts = []).
Proof.
  intros M. split; intros [|c r] E; try reflexivity; exfalso.
  - apply spatial_conflicts_sound in E. inversion E as [|? ? S _]; subst.
    destruct S as (_ & _ & _ & _ & Hd & Hm & _).
    apply below_nonpositive in Hm; [|exact M].
    rewrite (distance_not_negative _ _ _ Hd) in Hm. discriminate.
  - apply temporal_conflicts_sound in E. inversion E as [|? ? S _]; subst.
    destruct S as (_ & _ & Hd & Hm & _).
    apply below_nonpositive in Hm; [|exact M].
    rewrite (distance_not_negative _ _ _ Hd) in Hm. discriminate.
Qed.

Lemma no_conflict_without_separation_witness :
  (0 <? 0)%float = false
  /\ detect_spatial_conflicts (libm := Example.products)
    [Example.drone1; Example.drone2] 0 1 = Ok []
  /\ detect_temporal_conflicts (libm := Example.products)
    [Example.drone1; Example.drone_offset] 10 0 = Ok [].
Proof.
  assert (M : (0 <? 0)%float = false) by reflexivity.
  split; [exact M|]. split.
  - destruct (detect_spatial_conflicts (libm := Example.products)
    [Example.drone1; Example.drone2] 0 1)
      as [cs|e] eqn:E; [|vm_compute in E; discriminate E].
    f_equal.
    exact (proj1 (@no_conflict_without_separation Example.products
                    [Example.drone1; Example.drone2] 0 1 10 M) cs E).
  - destruct (detect_temporal_conflicts (libm := Example.products)
    [Example.drone1; Example.drone_offset] 10 0)
      as [cs|e] eqn:E; [|vm_compute in E; discriminate E].
    f_equal.
    exact (proj2 (@no_conflict_without_separation Example.products
                    [Example.drone1; Example.drone_offset] 0 1 10 M) cs E).
Defined.

(** X15.  With a [time_window] that is not positive (zero, negative or NaN)
    the temporal detector reports no conflict. *)
Theorem no_temporal_conflict_without_window {libm : Libm} (trajectories : list DroneTrajectory.t)
  (time_window min_separation : float) (conflicts : list Conflict.t) :
  (0 <? time_window)%float = false ->
  detect_temporal_conflicts trajectories time_window min_separation = Ok conflicts ->
  conflicts = [].
Proof.
  intros W E. destruct conflicts as [|c r]; [reflexivity|exfalso].
  apply temporal_conflicts_sound in E. inversion E as [|? ? S _]; subst.
  destruct S as (_ & _ & _ & _ & Hp & Hw & _).
  rewrite (@ltb_leb_trans _ _ _ Hp Hw) in W. discriminate.
Qed.

Lemma no_temporal_conflict_without_window_witness :
  (0 <? (-3))%float = false
  /\ detect_temporal_conflicts (libm := Example.products)
    [Example.drone1; Example.drone_offset] (-3) 50 = Ok [].
Proof.
  assert (W : (0 <? (-3))%float = false) by reflexivity.
  split; [exact W|].
  destruct (detect_temporal_conflicts (libm := Example.products)
    [Example.drone1; Example.drone_offset] (-3) 50)
    as [cs|e] eqn:E; [|vm_compute in E; discriminate E].
  f_equal. exact (@no_temporal_conflict_without_window Example.products
                    [Example.drone1; Example.drone_offset] (-3) 50 cs W E).
Defined.

(** X16.  On trajectories that the constructor returned, whatever their
    timestamps, the temporal detector never raises, and the spatial detector
    raises only while it computes its sample times: ZeroDivisionError when
    [time_resolution == 0], ValueError or OverflowError otherwise; no
    lookup by index or by key fails. *)
Theorem detector_failures {libm : Libm} (trajectories : list DroneTrajectory.t)
  (min_separation time_resolution time_window : float) :
  Forall constructed trajectories ->
  (exists conflicts,
      detect_temporal_conflicts trajectories time_window min_separation = Ok conflicts)
  /\ (forall e,
        detect_spatial_conflicts trajectories min_separation time_resolution = Raise e ->
        (e = ZeroDivisionError /\ (time_resolution =? 0)%float = true)
        \/ (e = ValueError /\ (time_resolution =? 0)%float = false)
        \/ (e = OverflowError /\ (time_resolution =? 0)%float = false)).
Proof.
  intros F. split.
  - exists (flat_map
              (fun ab =>
                 match DroneTrajectory.sample_trajectory (fst ab) 50,
                       DroneTrajectory.sample_trajectory (snd ab) 50 with
                 | Ok samples1, Ok samples2 =>
                     map (spec_temporal_conflict (fst ab) (snd ab) time_window)
                         (filter (temporal_hit time_window min_separation)
                                 (list_prod samples1 samples2))
                 | _, _ => []
                 end)
              (unordered_pairs trajectories)).
    unfold detect_temporal_conflicts. apply pair_loops. intros a b Ia Ib.
    rewrite Forall_forall in F. cbn [fst snd].
    destruct (@constructed_samples a 50 (F a Ia)) as (s1 & -> & _); [lia|].
    destruct (@constructed_samples b 50 (F b Ib)) as (s2 & -> & _); [lia|].
    cbn [bind]. apply temporal_loops.
  - intros e. unfold detect_spatial_conflicts.
    destruct (Nat.ltb_spec (length trajectories) 2) as [_|L]; [discriminate|].
    destruct (constructed_all_bounds F) as [-> ->]. cbn [bind].
    destruct trajectories as [|traj r]; [cbn in L; lia|]. cbn [map Py.max Py.min bind].
    destruct (_ <=? _)%float; [discriminate|].
    destruct (time_samples _ _ time_resolution) as [samples|e'] eqn:Es; cbn [bind].
    + intros E. exfalso.
      assert (X : exists out,
                 for_each samples (fun timestamp =>
                   positions <- positions_at (traj :: r) timestamp [] ;;
                   check_pairs positions timestamp min_separation) = Ok out);
        [|destruct X as [out X]; rewrite X in E; discriminate].
      eexists. apply for_each_ok with
        (g := fun timestamp =>
                match (positions <- positions_at (traj :: r) timestamp [] ;;
                       check_pairs positions timestamp min_separation) with
                | Ok out => out
                | Raise _ => []
                end).
      intros t _. destruct (@positions_at_total (traj :: r) t [] F) as [positions Ep].
      rewrite Ep. cbn [bind].
      apply positions_at_invariant with (all := traj :: r) in Ep as [N _];
        [|apply incl_refl|constructor|constructor].
      now rewrite (@check_pairs_spec _ positions t min_separation N).
    + intros [= <-]. now apply time_samples_failure in Es.
Qed.

Lemma detector_failures_witness :
  Forall constructed [Example.drone1; Example.drone2]
  /\ (exists conflicts,
        detect_temporal_conflicts (libm := Example.products)
          [Example.drone1; Example.drone2] 10 50 = Ok conflicts)
  /\ detect_spatial_conflicts (libm := Example.products) [Example.drone1; Example.drone2] 50 0
     = Raise ZeroDivisionError.
Proof.
  assert (F : Forall constructed [Example.drone1; Example.drone2]).
  { repeat constructor.
    - exists "drone1"%string, Example.simple_waypoints. reflexivity.
    - exists "drone2"%string, Example.conflict_waypoints. reflexivity. }
  split; [exact F|].
  destruct (@detector_failures Example.products [Example.drone1; Example.drone2] 50 0 10 F)
    as [T S].
  split; [exact T|].
  destruct (detect_spatial_conflicts (libm := Example.products)
    [Example.drone1; Example.drone2] 50 0) as [cs|e] eqn:E;
    [vm_compute in E; discriminate E|].
  destruct (S e eq_refl) as [[-> _]|[[_ Z]|[_ Z]]]; [reflexivity|discriminate Z..].
Defined.

Section OutputSize.

Context {libm : Libm}.

Lemma for_each_length {A B : Type} (f : A -> nat) (l : list A)
  (body : A -> result (list B)) (out : list B) :
  (forall a o, In a l -> body a = Ok o -> (length o <= f a)%nat) ->
  for_each l body = Ok out -> (length out <= list_sum (map f l))%nat.
Proof.
  revert out. induction l as [|a r IH]; intros out H E; cbn [for_each] in E.
  - injection E as <-. cbn. lia.
  - destruct (body a) as [o|e] eqn:Eo; [|discriminate]. cbn [bind] in E.
    destruct (for_each r body) as [rest|e] eqn:Er; [|discriminate]. cbn [bind] in E.
    injection E as <-. rewrite length_app.
    change (list_sum (map f (a :: r))) with (f a + list_sum (map f r))%nat.
    assert (L1 : (length o <= f a)%nat) by (apply (H a); [now left|exact Eo]).
    assert (L2 : (length rest <= list_sum (map f r))%nat).
    { apply IH; [|reflexivity]. intros a' o' I. apply H. now right. }
    lia.
Qed.

Lemma list_sum_const {A : Type} (k : nat) (l : list A) :
  list_sum (map (fun _ => k) l) = (k * length l)%nat.
Proof.
  induction l as [|x l IH]; [cbn; lia|].
  change (list_sum (map (fun _ : A => k) (x :: l)))
    with (k + list_sum (map (fun _ : A => k) l))%nat.
  cbn [length]. lia.
Qed.

Lemma flat_map_length_le {A B : Type} (f : A -> list B) (k : nat) (l : list A) :
  (forall a, In a l -> (length (f a) <= k)%nat) ->
  (length (flat_map f l) <= k * length l)%nat.
Proof.
  induction l as [|a r IH]; intros H; cbn [flat_map length]; [lia|].
  rewrite length_app.
  assert (L1 : (length (f a) <= k)%nat) by (apply H; now left).
  assert (L2 : (length (flat_map f r) <= k * length r)%nat)
    by (apply IH; intros b I; apply H; now right).
  lia.
Qed.

Lemma sample_at_shorter (traj : DroneTrajectory.t) (ts : list float)
  (out : list Waypoint.t) :
  DroneTrajectory.sample_at traj ts = Ok out -> (length out <= length ts)%nat.
Proof.
  revert out. induction ts as [|t r IH]; intros out E; cbn [DroneTrajectory.sample_at] in E.
  - injection E as <-. constructor.
  - destruct (DroneTrajectory.interpolate_position traj t) as [p|e]; [|discriminate].
    cbn [bind] in E.
    destruct (DroneTrajectory.sample_at traj r) as [rest|e]; [|discriminate].
    cbn [bind] in E. injection E as <-. specialize (IH rest eq_refl).
    destruct p; cbn [length]; lia.
Qed.

(** Whatever the trajectory, [sample_trajectory] returns at most
    [num_points] samples. *)
Lemma sample_trajectory_shorter (traj : DroneTrajectory.t) (n : Z)
  (samples : list Waypoint.t) :
  DroneTrajectory.sample_trajectory traj n = Ok samples ->
  (length samples <= Z.to_nat n)%nat.
Proof.
  unfold DroneTrajectory.sample_trajectory.
  destruct (DroneTrajectory.get_trajectory_bounds traj) as [[s e]|x]; [|discriminate].
  cbn [bind].
  destruct (Z.lt_ge_cases n 0) as [L|L].
  - unfold Np.linspace. apply Z.ltb_lt in L. rewrite L. discriminate.
  - destruct (@linspace_ok s e n) as (grid & -> & Lg); [lia|]. cbn [bind].
    rewrite <- Lg. apply sample_at_shorter.
Qed.

(** The inner loops over [range(i + 1, n)], for [i] in [range(k, k + n)],
    run [n * (n - 1) / 2] times in all. *)
Lemma pairs_after (c k n : nat) :
  (list_sum (map (fun i => c * ((k + n) - (i + 1))) (seq k n)) * 2 = c * (n * (n - 1)))%nat.
Proof.
  revert k. induction n as [|n IH]; intros k; [cbn; lia|].
  change (list_sum (map (fun i => c * (k + S n - (i + 1))) (seq k (S n))))%nat
    with (c * (k + S n - (k + 1))
          + list_sum (map (fun i => c * (k + S n - (i + 1))) (seq (S k) n)))%nat.
  replace (map (fun i => c * (k + S n - (i + 1))) (seq (S k) n))%nat
    with (map (fun i => c * (S k + n - (i + 1))) (seq (S k) n))%nat
    by (apply map_ext; intros i; f_equal; lia).
  specialize (IH (S k)).
  replace (k + S n - (k + 1))%nat with n by lia.
  destruct n as [|m]; [cbn in *; lia|].
  replace (S (S m) - 1)%nat with (S m) by lia.
  replace (S m - 1)%nat with m in IH by lia. nia.
Qed.

Lemma temporal_check_short (id1 id2 : string) (w m : float) (p1 p2 : Waypoint.t)
  (out : list Conflict.t) :
  temporal_check id1 id2 w m p1 p2 = Ok out -> (length out <= 1)%nat.
Proof.
  unfold temporal_check. rewrite distance_to_float64. cbn [bind].
  destruct (_ <? _)%float; [|intros [= <-]; cbn; lia].
  destruct (_ && _); intros [= <-]; cbn; lia.
Qed.

End OutputSize.

(** X27.  The temporal detector returns at most 2500 conflicts for each
    unordered pair of trajectories (50 samples against 50 samples): for [n]
    trajectories at most [2500 * n * (n - 1) / 2] conflicts. *)
Theorem temporal_output_size {libm : Libm} (trajectories : list DroneTrajectory.t)
  (time_window min_separation : float) (conflicts : list Conflict.t) :
  detect_temporal_conflicts trajectories time_window min_separation = Ok conflicts ->
  (2 * length conflicts
   <= 2500 * (length trajectories * (length trajectories - 1)))%nat.
Proof.
  intros E. unfold detect_temporal_conflicts in E.
  apply for_each_length
    with (f := fun i => (2500 * ((0 + length trajectories) - (i + 1)))%nat) in E.
  - unfold range in E. rewrite Nat.sub_0_r in E.
    pose proof (pairs_after 2500 0 (length trajectories)) as S. lia.
  - intros i o _ Ei.
    apply for_each_length with (f := fun _ => 2500%nat) in Ei.
    + rewrite list_sum_const in Ei. unfold range in Ei. rewrite length_seq in Ei.
      cbn [Nat.add]. lia.
    + intros j o' _. unfold getitem.
      destruct (nth_error trajectories i) as [a|]; [|discriminate]. cbn [bind].
      destruct (nth_error trajectories j) as [b|]; [|discriminate]. cbn [bind].
      destruct (DroneTrajectory.sample_trajectory a 50) as [s1|e] eqn:E1; [|discriminate].
      cbn [bind].
      destruct (DroneTrajectory.sample_trajectory b 50) as [s2|e] eqn:E2; [|discriminate].
      cbn [bind]. intros El.
      apply sample_trajectory_shorter in E1, E2.
      change (Z.to_nat 50) with 50%nat in E1, E2.
      apply for_each_length with (f := fun _ => length s2) in El.
      * rewrite list_sum_const in El. nia.
      * intros wp1 o1 _ E1'.
        apply for_each_length with (f := fun _ => 1%nat) in E1'.
        -- rewrite list_sum_const in E1'. lia.
        -- intros wp2 o2 _. apply temporal_check_short.
Qed.

Lemma temporal_output_size_witness :
  exists conflicts,
    detect_temporal_conflicts (libm := Example.products)
      [Example.drone1; Example.drone_offset] 10 50 = Ok conflicts
    /\ (2 * length conflicts <= 2500 * (2 * (2 - 1)))%nat.
Proof.
  destruct (detect_temporal_conflicts (libm := Example.products)
    [Example.drone1; Example.drone_offset] 10 50)
    as [conflicts|e] eqn:E; [|vm_compute in E; discriminate E].
  exists conflicts. split; [reflexivity|].
  exact (@temporal_output_size Example.products
           [Example.drone1; Example.drone_offset] 10 50 conflicts E).
Defined.

(* ================================================================== *)
(** * Further facts: merged and filtered conflicts *)
(* ================================================================== *)

Section MergedSets.

Local Open Scope float_scope.




Lemma unique_from_shorter (l : list Conflict.t) (seen : list (string * string * float)) :
  (length (unique_from l seen) <= length l)%nat.
Proof.
  revert seen. induction l as [|c r IH]; intros seen; cbn [unique_from length]; [lia|].
  destruct (existsb _ seen); cbn [length];
    [specialize (IH seen)|specialize (IH (conflict_key c :: seen))]; lia.
Qed.

Lemma distinct_keys_sym (u : list Conflict.t) :
  ForallOrdPairs (fun c c' => key_eqb (conflict_key c') (conflict_key c) = false) u
  <-> distinct_keys u.
Proof.
  unfold distinct_keys.
  split; induction 1 as [|a l Ha _ IH]; constructor; try exact IH;
    (eapply Forall_impl; [|exact Ha]); cbn beta; intros b H; now rewrite key_eqb_sym.
Qed.

Lemma merge_distinct (conflict_lists : list (list Conflict.t)) :
  distinct_keys (merge_conflicts conflict_lists).
Proof.
  apply distinct_keys_sym. unfold merge_conflicts.
  now destruct (unique_from_invariant (concat conflict_lists) []).
Qed.

Lemma merge_incl (conflict_lists : list (list Conflict.t)) (c : Conflict.t) :
  In c (merge_conflicts conflict_lists) -> In c (concat conflict_lists).
Proof. apply unique_from_incl. Qed.

End MergedSets.


(** X18.  The result of [merge_conflicts] holds no two conflicts with equal
    keys, holds only conflicts of the input and is not longer than the
    concatenated input; every conflict of the input is in it or has a
    conflict of equal key in it; and the result is the concatenated input
    itself exactly when no two conflicts of the input have equal keys. *)
Theorem merge_keeps_one_per_key (conflict_lists : list (list Conflict.t)) :
  distinct_keys (merge_conflicts conflict_lists)
  /\ (forall c, In c (merge_conflicts conflict_lists) -> In c (concat conflict_lists))
  /\ (length (merge_conflicts conflict_lists) <= length (concat conflict_lists))%nat
  /\ (forall c, In c (concat conflict_lists) ->
        exists c', In c' (merge_conflicts conflict_lists) /\ same_key c c')
  /\ (distinct_keys (concat conflict_lists) <->
      merge_conflicts conflict_lists = concat conflict_lists).
Proof.
  split; [apply merge_distinct|]. split; [apply merge_incl|].
  split; [apply unique_from_shorter|]. split.
  - intros c I. destruct (@unique_from_covers _ [] _ I) as [H|H]; [discriminate H|exact H].
  - split.
    + intros D. unfold merge_conflicts. apply unique_from_fixed.
      * apply Forall_forall. reflexivity.
      * now apply distinct_keys_sym.
    + intros E. rewrite <- E. apply merge_distinct.
Qed.

Section SeverityFilter.

Lemma severity_lookup (s : string) :
  (recognized s /\ exists r, Dict.get severity_order s = Ok r /\ severity_rank s = Some r)
  \/ (~ recognized s /\ Dict.get severity_order s = Raise KeyError).
Proof.
  rewrite severity_order_rank, recognized_rank.
  destruct (severity_rank s) as [r|]; [left; eauto|right].
  split; [intros [r H]; discriminate|reflexivity].
Qed.

Lemma filter_recognized (conflicts : list Conflict.t) (min_severity : string) :
  recognized min_severity ->
  Forall (fun c => recognized (Conflict.severity c)) conflicts ->
  filter_conflicts_by_severity conflicts min_severity
  = Ok (filter (at_least min_severity) conflicts).
Proof.
  intros Rm F. unfold filter_conflicts_by_severity.
  apply recognized_rank in Rm as [m Em]. rewrite severity_order_rank, Em. cbn [bind].
  apply select_ok. eapply Forall_impl; [|exact F]. cbn beta. intros c R.
  apply recognized_rank in R as [r Er]. unfold at_least.
  now rewrite severity_order_rank, Em, Er.
Qed.

Lemma filter_inversion (conflicts kept : list Conflict.t) (min_severity : string) :
  filter_conflicts_by_severity conflicts min_severity = Ok kept ->
  recognized min_severity
  /\ Forall (fun c => recognized (Conflict.severity c)) conflicts
  /\ kept = filter (at_least min_severity) conflicts.
Proof.
  intros E.
  assert (H : recognized min_severity
              /\ Forall (fun c => recognized (Conflict.severity c)) conflicts).
  { unfold filter_conflicts_by_severity in E.
    destruct (severity_lookup min_severity) as [(Rm & m & Eg & Em)|(Nm & Eg)];
      rewrite Eg in E; [|discriminate]. cbn [bind] in E. split; [exact Rm|].
    revert kept E. induction conflicts as [|c r IH]; intros kept E; [constructor|].
    cbn [select] in E.
    destruct (severity_lookup (Conflict.severity c)) as [(R & rk & Eg' & _)|(N & Eg')];
      rewrite Eg' in E; [|discriminate]. cbn [bind] in E.
    destruct (select _ r) as [rest|e] eqn:Er; [|discriminate].
    constructor; [exact R|]. now apply (IH rest). }
  destruct H as [Rm F]. split; [exact Rm|]. split; [exact F|].
  rewrite (filter_recognized Rm F) in E. congruence.
Qed.

Lemma at_least_low (c : Conflict.t) :
  recognized (Conflict.severity c) -> at_least "low" c = true.
Proof.
  intros R. apply recognized_rank in R as [r Er]. unfold at_least. rewrite Er. cbn.
  unfold severity_rank in Er.
  destruct (String.eqb _ "low"); [injection Er as <-; reflexivity|].
  destruct (String.eqb _ "medium"); [injection Er as <-; reflexivity|].
  destruct (String.eqb _ "high"); [injection Er as <-; reflexivity|discriminate].
Qed.

Lemma at_least_monotone (s s' : string) (m m' : Z) (c : Conflict.t) :
  severity_rank s = Some m -> severity_rank s' = Some m' -> (m <= m')%Z ->
  at_least s' c = true -> at_least s c = true.
Proof.
  unfold at_least. intros -> ->. destruct (severity_rank (Conflict.severity c)); [|auto].
  intros L H. apply Z.leb_le in H. apply Z.leb_le. lia.
Qed.

Lemma count_recognized (conflicts : list Conflict.t) :
  (count_severity conflicts "high" + count_severity conflicts "medium"
   + count_severity conflicts "low" <= Z.of_nat (length conflicts))%Z
  /\ ((count_severity conflicts "high" + count_severity conflicts "medium"
       + count_severity conflicts "low" = Z.of_nat (length conflicts))%Z
      <-> Forall (fun c => recognized (Conflict.severity c)) conflicts).
Proof.
  unfold count_severity. induction conflicts as [|c r [IH1 IH2]].
  - cbn. split; [lia|]. split; [constructor|reflexivity].
  - assert (C : (recognized (Conflict.severity c)
                 /\ (length (filter (fun c0 => String.eqb (Conflict.severity c0) "high") (c :: r))
                     + length (filter (fun c0 => String.eqb (Conflict.severity c0) "medium") (c :: r))
                     + length (filter (fun c0 => String.eqb (Conflict.severity c0) "low") (c :: r))
                     = 1 + (length (filter (fun c0 => String.eqb (Conflict.severity c0) "high") r)
                            + length (filter (fun c0 => String.eqb (Conflict.severity c0) "medium") r)
                            + length (filter (fun c0 => String.eqb (Conflict.severity c0) "low") r)))%nat)
                \/ (~ recognized (Conflict.severity c)
                    /\ String.eqb (Conflict.severity c) "high" = false
                    /\ String.eqb (Conflict.severity c) "medium" = false
                    /\ String.eqb (Conflict.severity c) "low" = false)).
    { unfold recognized. cbn [filter].
      destruct (String.eqb_spec (Conflict.severity c) "high") as [->|Nh];
        [left; split; [auto|cbn; lia]|].
      destruct (String.eqb_spec (Conflict.severity c) "medium") as [->|Nm];
        [left; split; [auto|cbn; lia]|].
      destruct (String.eqb_spec (Conflict.severity c) "low") as [->|Nl];
        [left; split; [auto|cbn; lia]|].
      right. split; [tauto|auto]. }
    destruct C as [[R C]|(N & Eh & Em & El)].
    + cbn [length]. split; [lia|]. split.
      * intros H. constructor; [exact R|]. apply IH2. lia.
      * intros H. inversion H as [|? ? _ Hr]; subst. apply IH2 in Hr. lia.
    + cbn [filter]. rewrite Eh, Em, El. cbn [length]. split; [lia|]. split; [lia|].
      intros H. inversion H; subst. contradiction.
Qed.

End SeverityFilter.

(** X19.  The outcomes of [filter_conflicts_by_severity]: it returns a list
    exactly when [min_severity] and the severity of every conflict are among
    the three levels; it raises KeyError exactly when [min_severity] or the
    severity of some conflict is not; it raises nothing else. *)
Theorem filter_outcomes (conflicts : list Conflict.t) (min_severity : string) :
  ((exists kept, filter_conflicts_by_severity conflicts min_severity = Ok kept)
   <-> recognized min_severity
       /\ Forall (fun c => recognized (Conflict.severity c)) conflicts)
  /\ (filter_conflicts_by_severity conflicts min_severity = Raise KeyError
      <-> ~ recognized min_severity
          \/ Exists (fun c => ~ recognized (Conflict.severity c)) conflicts)
  /\ (forall e, filter_conflicts_by_severity conflicts min_severity = Raise e -> e = KeyError).
Proof.
  unfold filter_conflicts_by_severity.
  destruct (severity_lookup min_severity) as [(Rm & m & -> & Em)|(Nm & ->)]; cbn [bind].
  2: { split; [|split]; [split; [intros [k H]; discriminate|tauto]|tauto|congruence]. }
  set (cond := fun c : Conflict.t =>
                 level <- Dict.get severity_order (Conflict.severity c) ;;
                 Ok (m <=? level)%Z).
  assert (C : forall c,
             (recognized (Conflict.severity c) /\ exists b, cond c = Ok b)
             \/ (~ recognized (Conflict.severity c) /\ cond c = Raise KeyError)).
  { intros c. unfold cond.
    destruct (severity_lookup (Conflict.severity c)) as [(R & r & -> & _)|(N & ->)];
      cbn [bind]; eauto. }
  assert (D : (Forall (fun c => recognized (Conflict.severity c)) conflicts
               /\ exists kept, select cond conflicts = Ok kept)
              \/ (Exists (fun c => ~ recognized (Conflict.severity c)) conflicts
                  /\ select cond conflicts = Raise KeyError)).
  { induction conflicts as [|c r IH]; [left; split; [constructor|cbn; eauto]|].
    cbn [select]. destruct (C c) as [(R & b & ->)|(N & ->)]; cbn [bind];
      [|right; split; [now constructor|reflexivity]].
    destruct IH as [(F & kept & ->)|(X & ->)]; cbn [bind].
    - left. split; [now constructor|eauto].
    - right. split; [now constructor 2|reflexivity]. }
  destruct D as [(F & kept & ->)|(X & ->)].
  - split; [|split]; [split; eauto|split; [discriminate|]|discriminate].
    intros [N|X]; [contradiction|]. exfalso.
    apply Exists_exists in X as (c & I & N). rewrite Forall_forall in F. exact (N (F c I)).
  - split; [|split]; [split; [intros [k H]; discriminate|]|split; auto|congruence].
    intros [_ F]. exfalso.
    apply Exists_exists in X as (c & I & N). rewrite Forall_forall in F. exact (N (F c I)).
Qed.

(** X20.  When [filter_conflicts_by_severity] returns, filtering its result
    again at the same level changes nothing; filtering the input at 'low'
    returns the input itself; the result at a higher level is included in
    the result at a lower one and is what filtering the lower result at the
    higher level gives; the result holds only conflicts of the input and is
    not longer. *)
Theorem filter_laws (conflicts kept : list Conflict.t) (min_severity : string) :
  filter_conflicts_by_severity conflicts min_severity = Ok kept ->
  filter_conflicts_by_severity kept min_severity = Ok kept
  /\ filter_conflicts_by_severity conflicts "low" = Ok conflicts
  /\ (forall higher kept' m m',
        filter_conflicts_by_severity conflicts higher = Ok kept' ->
        severity_rank min_severity = Some m -> severity_rank higher = Some m' ->
        (m <= m')%Z ->
        incl kept' kept
        /\ filter_conflicts_by_severity kept higher = Ok kept')
  /\ (forall c, In c kept -> In c conflicts)
  /\ (length kept <= length conflicts)%nat.
Proof.
  intros E. apply filter_inversion in E as (Rm & F & ->).
  assert (Fk : Forall (fun c => recognized (Conflict.severity c))
                      (filter (at_least min_severity) conflicts)).
  { apply Forall_forall. intros c I. apply filter_In in I as [I _].
    rewrite Forall_forall in F. auto. }
  split; [|split; [|split; [|split]]].
  - rewrite (filter_recognized Rm Fk). f_equal.
    apply forallb_filter_id. apply forallb_forall. intros c I.
    now apply filter_In in I.
  - rewrite filter_recognized; [|left; reflexivity|exact F]. f_equal.
    apply forallb_filter_id. apply forallb_forall. intros c I. apply at_least_low.
    rewrite Forall_forall in F. auto.
  - intros higher kept' m m' E' Em Em' L. apply filter_inversion in E' as (Rh & _ & ->).
    assert (Inc : incl (filter (at_least higher) conflicts)
                       (filter (at_least min_severity) conflicts)).
    { intros c I. apply filter_In in I as [I H]. apply filter_In. split; [exact I|].
      eapply at_least_monotone; eauto. }
    split; [exact Inc|].
    rewrite (filter_recognized Rh Fk). f_equal.
    clear - Em Em' L. induction conflicts as [|c r IH]; [reflexivity|].
    cbn [filter]. destruct (at_least min_severity c) eqn:A.
    + cbn [filter]. destruct (at_least higher c); now rewrite IH.
    + destruct (at_least higher c) eqn:H; [|exact IH].
      rewrite (@at_least_monotone _ _ _ _ c Em Em' L H) in A. discriminate.
  - intros c I. now apply filter_In in I.
  - apply filter_length_le.
Qed.

Lemma filter_laws_witness :
  filter_conflicts_by_severity [Example.conflict_a; Example.conflict_b] "medium"
  = Ok [Example.conflict_a]
  /\ filter_conflicts_by_severity [Example.conflict_a] "medium" = Ok [Example.conflict_a]
  /\ filter_conflicts_by_severity [Example.conflict_a; Example.conflict_b] "low"
     = Ok [Example.conflict_a; Example.conflict_b].
Proof.
  assert (E : filter_conflicts_by_severity [Example.conflict_a; Example.conflict_b] "medium"
              = Ok [Example.conflict_a]) by reflexivity.
  split; [exact E|]. split.
  - exact (proj1 (@filter_laws _ _ _ E)).
  - exact (proj1 (proj2 (@filter_laws _ _ _ E))).
Defined.

(** X21.  The document that [save_conflicts_to_json] writes holds one
    dictionary per conflict, in order, and a summary whose total is their
    number; the three severity counts are not negative and add up to at
    most the total, and to the total exactly when every conflict has one of
    the three severities. *)
Theorem summary_counts (conflicts : list Conflict.t) :
  exists written summary total high medium low,
    Dict.get (conflict_data conflicts) "conflicts" = Ok (RList written)
    /\ Dict.get (conflict_data conflicts) "summary" = Ok (RDict summary)
    /\ Dict.get summary "total_conflicts" = Ok (RInt total)
    /\ Dict.get summary "high_severity" = Ok (RInt high)
    /\ Dict.get summary "medium_severity" = Ok (RInt medium)
    /\ Dict.get summary "low_severity" = Ok (RInt low)
    /\ written = map Conflict.to_dict conflicts
    /\ total = Z.of_nat (length written)
    /\ (0 <= high /\ 0 <= medium /\ 0 <= low)%Z
    /\ (high + medium + low <= total)%Z
    /\ ((high + medium + low = total)%Z
        <-> Forall (fun c => recognized (Conflict.severity c)) conflicts).
Proof.
  destruct (count_recognized conflicts) as [L E].
  eexists _, _, _, _, _, _.
  split; [reflexivity|]. split; [reflexivity|]. split; [reflexivity|].
  split; [reflexivity|]. split; [reflexivity|]. split; [reflexivity|].
  split; [reflexivity|]. split; [now rewrite length_map|].
  split; [unfold count_severity; lia|]. split; [exact L|exact E].
Qed.

(** X22.  The analysis of [main]: whatever the trajectories and the
    thresholds, when both detectors return, the merged conflicts all have
    one of the three severities and come from one of the two detectors;
    every detected conflict is in the merged list or has a conflict of equal
    key in it; the severity filter at any of the three levels returns on the
    merged list, with the conflicts of at least that level; and the three
    severity counts of the saved summary add up to its total. *)
Theorem analysis_output {libm : Libm} (trajectories : list DroneTrajectory.t)
  (min_separation time_resolution time_window temporal_separation : float)
  (spatial temporal : list Conflict.t) :
  detect_spatial_conflicts trajectories min_separation time_resolution = Ok spatial ->
  detect_temporal_conflicts trajectories time_window temporal_separation = Ok temporal ->
  let all_conflicts := merge_conflicts [spatial; temporal] in
  Forall (fun c => recognized (Conflict.severity c)) all_conflicts
  /\ (forall c, In c all_conflicts -> In c spatial \/ In c temporal)
  /\ (forall c, In c spatial \/ In c temporal ->
        exists c', In c' all_conflicts /\ same_key c c')
  /\ (forall min_severity, recognized min_severity ->
        filter_conflicts_by_severity all_conflicts min_severity
        = Ok (filter (at_least min_severity) all_conflicts))
  /\ (count_severity all_conflicts "high" + count_severity all_conflicts "medium"
      + count_severity all_conflicts "low" = Z.of_nat (length all_conflicts))%Z.
Proof.
  intros Es Et all_conflicts.
  pose proof (@detectors_recognized _ _ _ _ _ _ _ _ Es Et) as R.
  assert (C : concat [spatial; temporal] = spatial ++ temporal)
    by (cbn; now rewrite app_nil_r).
  assert (I : forall c, In c all_conflicts -> In c (spatial ++ temporal)).
  { intros c H. apply merge_incl in H. now rewrite C in H. }
  assert (Ra : Forall (fun c => recognized (Conflict.severity c)) all_conflicts).
  { apply Forall_forall. intros c H. rewrite Forall_forall in R. auto. }
  split; [exact Ra|]. split; [intros c H; apply in_app_or; auto|]. split.
  - intros c H. apply in_or_app in H. rewrite <- C in H.
    destruct (@unique_from_covers _ [] _ H) as [X|X]; [discriminate X|exact X].
  - split; [intros s Rs; now apply filter_recognized|].
    now apply count_recognized.
Qed.

Lemma analysis_output_witness :
  exists demo spatial temporal,
    create_demo_trajectories = Ok demo
    /\ detect_spatial_conflicts (libm := Example.products) demo 30 0.5 = Ok spatial
    /\ detect_temporal_conflicts (libm := Example.products) demo 15 50 = Ok temporal
    /\ Forall (fun c => recognized (Conflict.severity c))
              (merge_conflicts [spatial; temporal]).
Proof.
  destruct create_demo_trajectories as [demo|e] eqn:Ed;
    [|vm_compute in Ed; discriminate Ed].
  destruct (detect_spatial_conflicts (libm := Example.products) demo 30 0.5)
    as [spatial|e] eqn:Es.
  2: { exfalso. revert Es. vm_compute in Ed. injection Ed as <-.
       vm_compute. intros H. discriminate H. }
  destruct (detect_temporal_conflicts (libm := Example.products) demo 15 50)
    as [temporal|e] eqn:Et.
  2: { exfalso. revert Et. vm_compute in Ed. injection Ed as <-.
       vm_compute. intros H. discriminate H. }
  exists demo, spatial, temporal.
  split; [reflexivity|]. split; [exact Es|]. split; [exact Et|].
  exact (proj1 (@analysis_output _ _ _ _ _ _ _ _ Es Et)).
Defined.

(** X25.  No detector produces a conflict of type 'altitude': the altitude
    detector returns no conflict at all, so merging its result with the
    results of the two other detectors gives what merging those two gives,
    and every merged conflict has type 'spatial' or 'temporal'. *)
Theorem no_altitude_conflict {libm : Libm} (trajectories : list DroneTrajectory.t)
  (min_separation time_resolution time_window temporal_separation : float)
  (min_altitude_separation : float) (spatial temporal : list Conflict.t) :
  detect_spatial_conflicts trajectories min_separation time_resolution = Ok spatial ->
  detect_temporal_conflicts trajectories time_window temporal_separation = Ok temporal ->
  merge_conflicts
    [spatial; temporal; detect_altitude_conflicts trajectories min_altitude_separation]
  = merge_conflicts [spatial; temporal]
  /\ Forall (fun c => Conflict.conflict_type c <> "altitude"%string
                     /\ (Conflict.conflict_type c = "spatial"%string
                         \/ Conflict.conflict_type c = "temporal"%string))
            (merge_conflicts
               [spatial; temporal;
                detect_altitude_conflicts trajectories min_altitude_separation]).
Proof.
  intros Es Et. split; [reflexivity|].
  apply Forall_forall. intros c I. apply merge_incl in I.
  cbn [concat detect_altitude_conflicts] in I. rewrite !app_nil_r in I.
  apply in_app_or in I as [I|I].
  - apply spatial_conflicts_sound in Es. rewrite Forall_forall in Es.
    destruct (Es c I) as (-> & _). split; [discriminate|now left].
  - apply temporal_conflicts_sound in Et. rewrite Forall_forall in Et.
    destruct (Et c I) as (-> & _). split; [discriminate|now right].
Qed.

Lemma no_altitude_conflict_witness :
  exists spatial temporal,
    detect_spatial_conflicts (libm := Example.products)
      [Example.drone1; Example.drone2] 100 1 = Ok spatial
    /\ detect_temporal_conflicts (libm := Example.products)
      [Example.drone1; Example.drone2] 10 50 = Ok temporal
    /\ merge_conflicts
         [spatial; temporal;
          detect_altitude_conflicts [Example.drone1; Example.drone2] 20]
       = merge_conflicts [spatial; temporal].
Proof.
  destruct (detect_spatial_conflicts (libm := Example.products)
    [Example.drone1; Example.drone2] 100 1)
    as [spatial|e] eqn:Es; [|vm_compute in Es; discriminate Es].
  destruct (detect_temporal_conflicts (libm := Example.products)
    [Example.drone1; Example.drone2] 10 50)
    as [temporal|e] eqn:Et; [|vm_compute in Et; discriminate Et].
  exists spatial, temporal. split; [reflexivity|]. split; [reflexivity|].
  exact (proj1 (@no_altitude_conflict _ _ _ _ _ _ 20 _ _ Es Et)).
Defined.

(* ================================================================== *)
(** * Further facts: loaded missions *)
(* ================================================================== *)

Lemma from_mission_data_ok (drone_id : string)
  (mission_waypoints : list (list (string * pyval))) (traj : DroneTrajectory.t) :
  DroneTrajectory.from_mission_data drone_id mission_waypoints = Ok traj ->
  DroneTrajectory.drone_id traj = drone_id
  /\ constructed traj
  /\ (real_timestamps mission_waypoints -> valid_trajectory traj).
Proof.
  unfold DroneTrajectory.from_mission_data.
  destruct (map_result Waypoint.from_dict mission_waypoints) as [ws|e] eqn:Ew;
    [|discriminate].
  cbn [bind]. intros E. destruct (init_result _ _ E) as [Et _].
  assert (Ei : DroneTrajectory.drone_id traj = drone_id) by (now subst traj).
  split; [exact Ei|]. split; [exists drone_id, ws; exact E|].
  intros R. exists ws. rewrite Ei. split; [|exact E].
  apply map_result_ok in Ew. clear E Et Ei. unfold real_timestamps in R.
  induction Ew as [|d w ds ws' Ed _ IH]; [constructor|].
  inversion R as [|? ? Rd Rr]; subst. constructor; [|now apply IH].
  apply Rd. now apply from_dict_timestamp.
Qed.

(** X23.  When [load_mission_from_json] returns on a document with an entry
    'drones', it returns one trajectory per drone of that entry, in the
    entry's order and under the drone's ID, each one what
    [from_mission_data] builds from the drone's waypoint dictionaries; so
    the IDs are distinct when the entry's keys are, and the trajectories are
    valid when the timestamps of the document are real numbers.  A document
    without the entry gives the empty list. *)
Theorem loaded_mission
  (data : list (string * list (string * list (list (string * pyval)))))
  (trajectories : list DroneTrajectory.t) :
  load_mission_from_json data = Ok trajectories ->
  (~ In "drones"%string (Dict.keys data) -> trajectories = [])
  /\ (forall drones, Dict.get data "drones" = Ok drones ->
        map DroneTrajectory.drone_id trajectories = Dict.keys drones
        /\ Forall2 (fun item traj =>
                      DroneTrajectory.from_mission_data (fst item) (snd item) = Ok traj)
                   drones trajectories
        /\ Forall constructed trajectories
        /\ (NoDup (Dict.keys drones) ->
            NoDup (map DroneTrajectory.drone_id trajectories))
        /\ (Forall (fun item => real_timestamps (snd item)) drones ->
            Forall valid_trajectory trajectories)).
Proof.
  unfold load_mission_from_json. intros E. split.
  - intros N. rewrite (dict_get_missing _ _ N) in E. now injection E as <-.
  - intros drones Ed. rewrite Ed in E. apply map_result_ok in E. clear Ed.
    assert (K : map DroneTrajectory.drone_id trajectories = Dict.keys drones).
    { unfold Dict.keys. induction E as [|item traj r r' Ei _ IH]; [reflexivity|].
      cbn [map]. rewrite IH. f_equal. now apply from_mission_data_ok in Ei. }
    split; [exact K|]. split; [exact E|]. split; [|split].
    + clear K. induction E as [|item traj r r' Ei _ IH]; constructor; [|exact IH].
      now apply from_mission_data_ok in Ei.
    + intros N. now rewrite K.
    + clear K. induction E as [|item traj r r' Ei _ IH]; intros R; constructor.
      * inversion R; subst. apply from_mission_data_ok in Ei. now apply Ei.
      * apply IH. now inversion R.
Qed.

Lemma loaded_mission_witness :
  load_mission_from_json
    [("drones"%string,
      [("drone1"%string, map Waypoint.to_dict Example.simple_waypoints);
       ("drone2"%string, map Waypoint.to_dict Example.conflict_waypoints)])]
  = Ok [Example.drone1; Example.drone2]
  /\ map DroneTrajectory.drone_id [Example.drone1; Example.drone2]
     = ["drone1"; "drone2"]%string.
Proof.
  assert (E : load_mission_from_json
                [("drones"%string,
                  [("drone1"%string, map Waypoint.to_dict Example.simple_waypoints);
                   ("drone2"%string, map Waypoint.to_dict Example.conflict_waypoints)])]
              = Ok [Example.drone1; Example.drone2]) by reflexivity.
  split; [exact E|].
  exact (proj1 (proj2 (@loaded_mission _ _ E) _ eq_refl)).
Defined.

(** X24.  One bad drone rejects the whole mission: when the 'drones' entry
    holds a drone with fewer than two waypoint dictionaries, with a
    dictionary of floats that lacks one of the four keys, or with two
    waypoints of [==] timestamps, [load_mission_from_json] raises and
    returns no trajectory at all. *)
Theorem mission_rejected
  (data : list (string * list (string * list (list (string * pyval)))))
  (drones : list (string * list (list (string * pyval))))
  (drone_id : string) (mission_waypoints : list (list (string * pyval))) :
  Dict.get data "drones" = Ok drones ->
  In (drone_id, mission_waypoints) drones ->
  ((length mission_waypoints < 2)%nat
   \/ (exists wp, In wp mission_waypoints /\ holds_floats wp
                  /\ ~ incl waypoint_keys (Dict.keys wp))
   \/ (exists ws, map_result Waypoint.from_dict mission_waypoints = Ok ws
                  /\ share_timestamp ws)) ->
  exists e, load_mission_from_json data = Raise e.
Proof.
  intros Ed I B. unfold load_mission_from_json. rewrite Ed.
  assert (F : exists e,
             DroneTrajectory.from_mission_data drone_id mission_waypoints = Raise e).
  { unfold DroneTrajectory.from_mission_data.
    destruct (map_result Waypoint.from_dict mission_waypoints) as [ws|e] eqn:Ew;
      cbn [bind]; [|eauto].
    exists ValueError. apply init_fails_iff.
    destruct B as [L|[(wp & Iw & Hf & N)|(ws' & Ew' & S)]].
    - left. apply map_result_ok in Ew.
      now rewrite <- (Forall2_length Ew).
    - exfalso. apply map_result_ok in Ew.
      destruct (@forall2_in_l _ _ _ _ _ wp Ew Iw) as (w & _ & Ew').
      destruct (from_dict_cases Hf) as [[Ik _]|[_ Ek]]; [exact (N Ik)|congruence].
    - right. congruence. }
  destruct F as [e F].
  apply (@map_result_fails _ _
           (fun item => DroneTrajectory.from_mission_data (fst item) (snd item))
           drones (drone_id, mission_waypoints) e I F).
Qed.

Lemma mission_rejected_witness :
  Dict.get [("drones"%string,
             [("drone1"%string, map Waypoint.to_dict Example.simple_waypoints);
              ("solo"%string, [Waypoint.to_dict Example.w1])])] "drones"
  = Ok [("drone1"%string, map Waypoint.to_dict Example.simple_waypoints);
        ("solo"%string, [Waypoint.to_dict Example.w1])]
  /\ In ("solo"%string, [Waypoint.to_dict Example.w1])
        [("drone1"%string, map Waypoint.to_dict Example.simple_waypoints);
         ("solo"%string, [Waypoint.to_dict Example.w1])]
  /\ exists e,
       load_mission_from_json
         [("drones"%string,
           [("drone1"%string, map Waypoint.to_dict Example.simple_waypoints);
            ("solo"%string, [Waypoint.to_dict Example.w1])])]
       = Raise e.
Proof.
  assert (I : In ("solo"%string, [Waypoint.to_dict Example.w1])
                 [("drone1"%string, map Waypoint.to_dict Example.simple_waypoints);
                  ("solo"%string, [Waypoint.to_dict Example.w1])])
    by (right; left; reflexivity).
  assert (Ed : Dict.get
                 [("drones"%string,
                   [("drone1"%string, map Waypoint.to_dict Example.simple_waypoints);
                    ("solo"%string, [Waypoint.to_dict Example.w1])])] "drones"
               = Ok [("drone1"%string, map Waypoint.to_dict Example.simple_waypoints);
                     ("solo"%string, [Waypoint.to_dict Example.w1])])
    by reflexivity.
  split; [exact Ed|]. split; [exact I|].
  apply (@mission_rejected _ _ _ _ Ed I). left. cbn. lia.
Defined.
